(** * BG_Dashboard: the DailyGammon score synchroniser

    A shallow embedding of the reconciliation code of
    [dailygammonNewPW_scores14-4.py] (the dashboard script) and of
    [find_match_ids2.py] (the stand-alone identifier finder), and the
    properties of the specification settled against it.

    Conventions of the embedding:
    - Python [str] values are [string]s; the methods [lower], [strip],
      [in] and [find] are modelled on ASCII text.
    - The [matches] table, joined with [players] as every query of the
      scripts does, is a list of rows in the order the database returns
      them; [fetchone] is the first row of a result.
    - Python dicts that the scripts iterate over are insertion-ordered
      association lists; [html_cache], which is only looked up, is a [gmap].
    - The remote server is an oracle indexed by the number of requests
      already sent, and every request is recorded in a trace. *)

From Stdlib Require Import ZArith List Bool Ascii String Lia.
From stdpp Require Import base option list gmap.
Import ListNotations.

Local Open Scope string_scope.
Local Open Scope Z_scope.

(* ===================================================================== *)
(** ** Python string methods (ASCII) *)
(* ===================================================================== *)

Module PyStr.

(** [c.isspace()] on ASCII: TAB, LF, VT, FF, CR, FS, GS, RS, US, space. *)
Definition is_space (c : ascii) : bool :=
  let n := N_of_ascii c in
  ((9 <=? n) && (n <=? 13) || (28 <=? n) && (n <=? 32))%N.

Definition lower_char (c : ascii) : ascii :=
  let n := N_of_ascii c in
  if ((65 <=? n) && (n <=? 90))%N then ascii_of_N (n + 32) else c.

(** [s.lower()] *)
Fixpoint lower (s : string) : string :=
  match s with
  | EmptyString => EmptyString
  | String c t => String (lower_char c) (lower t)
  end.

Fixpoint lstrip (s : string) : string :=
  match s with
  | EmptyString => EmptyString
  | String c t => if is_space c then lstrip t else s
  end.

Fixpoint rstrip (s : string) : string :=
  match s with
  | EmptyString => EmptyString
  | String c t =>
      match rstrip t with
      | EmptyString => if is_space c then EmptyString else String c EmptyString
      | t' => String c t'
      end
  end.

(** [s.strip()] *)
Definition strip (s : string) : string := rstrip (lstrip s).

(** [needle in hay] *)
Fixpoint contains (needle hay : string) : bool :=
  if String.prefix needle hay then true
  else match hay with
       | EmptyString => false
       | String _ t => contains needle t
       end.

Fixpoint find_from (needle hay : string) (i : Z) : Z :=
  if String.prefix needle hay then i
  else match hay with
       | EmptyString => -1
       | String _ t => find_from needle t (i + 1)
       end.

(** [hay.find(needle)]: index of the first occurrence, [-1] if none. *)
Definition find (needle hay : string) : Z := find_from needle hay 0.

(** [bool(s)] *)
Definition truthy (s : string) : bool :=
  match s with EmptyString => false | _ => true end.

End PyStr.

(* ===================================================================== *)
(** ** Score alignment: [map_scores] *)
(* ===================================================================== *)

(** [map_scores(player, opponent, left_name, right_name, left_score,
    right_score, switched_flag)]; [None] is Python's [None]. *)
Definition map_scores (player opponent left_name right_name : string)
    (left_score right_score : Z) (switched_flag : bool) : option (Z * Z) :=
  let ln := PyStr.lower (PyStr.strip left_name) in
  let rn := PyStr.lower (PyStr.strip right_name) in
  let pn := PyStr.lower (PyStr.strip player) in
  let on := PyStr.lower (PyStr.strip opponent) in
  if switched_flag then Some (right_score, left_score)
  else if String.eqb ln pn && String.eqb rn on then Some (left_score, right_score)
  else if String.eqb ln on && String.eqb rn pn then Some (right_score, left_score)
  else if PyStr.contains pn ln || PyStr.contains pn rn
          || PyStr.contains on ln || PyStr.contains on rn
  then
    if PyStr.contains pn ln then Some (left_score, right_score)
    else if PyStr.contains pn rn then Some (right_score, left_score)
    else None
  else None.

(* ===================================================================== *)
(** ** The record store: table [matches] joined with [players] *)
(* ===================================================================== *)

(** One row of [matches m JOIN players p1 ON m.player_id = p1.player_id
    JOIN players p2 ON m.opponent_id = p2.player_id].  Side A of the
    specification is the player, side B the opponent.  A SQL [NULL] is
    [None]; [switched_flag] is read through [bool(...)] or [not ...]
    everywhere, so [NULL] and [FALSE] are both [false]. *)
Record match_row := MatchRow {
  match_pk : Z;                (* m.id, the primary key *)
  group_id : Z;
  dg_player_id : option Z;     (* p1.dg_player_id *)
  player_name : string;        (* p1.player_name *)
  opponent_name : string;      (* p2.player_name *)
  match_id : option Z;
  left_score : option Z;
  right_score : option Z;
  switched_flag : bool;
  finished : bool
}.

Definition set_match_id (v : option Z) (r : match_row) : match_row :=
  MatchRow (match_pk r) (group_id r) (dg_player_id r) (player_name r)
    (opponent_name r) v (left_score r) (right_score r) (switched_flag r)
    (finished r).

Definition set_left_score (v : option Z) (r : match_row) : match_row :=
  MatchRow (match_pk r) (group_id r) (dg_player_id r) (player_name r)
    (opponent_name r) (match_id r) v (right_score r) (switched_flag r)
    (finished r).

Definition set_right_score (v : option Z) (r : match_row) : match_row :=
  MatchRow (match_pk r) (group_id r) (dg_player_id r) (player_name r)
    (opponent_name r) (match_id r) (left_score r) v (switched_flag r)
    (finished r).

Definition set_switched_flag (v : bool) (r : match_row) : match_row :=
  MatchRow (match_pk r) (group_id r) (dg_player_id r) (player_name r)
    (opponent_name r) (match_id r) (left_score r) (right_score r) v
    (finished r).

Definition set_finished (v : bool) (r : match_row) : match_row :=
  MatchRow (match_pk r) (group_id r) (dg_player_id r) (player_name r)
    (opponent_name r) (match_id r) (left_score r) (right_score r)
    (switched_flag r) v.

(** The two score columns an [UPDATE] can name. *)
Inductive score_column := col_left_score | col_right_score.

Definition set_score (col : score_column) (v : option Z) (r : match_row)
  : match_row :=
  match col with
  | col_left_score => set_left_score v r
  | col_right_score => set_right_score v r
  end.

(** [x == n] for a nullable integer column. *)
Definition is_val (x : option Z) (n : Z) : bool :=
  match x with Some v => v =? n | None => false end.

(** [x IS NULL] *)
Definition is_null (x : option Z) : bool :=
  match x with Some _ => false | None => true end.

Module Sql.

(** [SELECT ... WHERE cond] *)
Definition select (cond : match_row -> bool) (db : list match_row)
  : list match_row := List.filter cond db.

(** [cur.fetchone()] *)
Definition fetchone (rows : list match_row) : option match_row :=
  List.hd_error rows.

(** [UPDATE matches SET ... WHERE cond] *)
Definition update (cond : match_row -> bool) (f : match_row -> match_row)
    (db : list match_row) : list match_row :=
  (fun r => if cond r then f r else r) <$> db.

End Sql.

(** The primary key identifies a row. *)
Definition pk_unique (db : list match_row) : Prop :=
  NoDup (match_pk <$> db).

(** Either stored score is 11: the match is terminal. *)
Definition has_eleven (r : match_row) : bool :=
  is_val (left_score r) 11 || is_val (right_score r) 11.

(* ===================================================================== *)
(** ** Insertion-ordered dictionaries *)
(* ===================================================================== *)

Module Dict.

(** [d[k] = v]: an existing key keeps its position. *)
Fixpoint set {V : Type} (k : Z) (v : V) (d : list (Z * V)) : list (Z * V) :=
  match d with
  | [] => [(k, v)]
  | (k', v') :: t => if k =? k' then (k, v) :: t else (k', v') :: set k v t
  end.

(** [d.get(k)] *)
Fixpoint get {V : Type} (k : Z) (d : list (Z * V)) : option V :=
  match d with
  | [] => None
  | (k', v') :: t => if k =? k' then Some v' else get k t
  end.

(** [k in d] *)
Definition mem {V : Type} (k : Z) (d : list (Z * V)) : bool :=
  match get k d with Some _ => true | None => false end.

Definition keys {V : Type} (d : list (Z * V)) : list Z := List.map fst d.

End Dict.

(* ===================================================================== *)
(** ** The remote source *)
(* ===================================================================== *)

(** A [<tr>] as [html.parser] delivers it: [row.get_text(" ", strip=True)]
    and the texts [cell.get_text(" ", strip=True)] of its [<td>] cells. *)
Record table_row := TableRow {
  tr_text : string;
  td_texts : list string
}.

(** A downloaded page: [resp.text] and the rows [soup.find_all("tr")]
    finds in it. *)
Record page := Page {
  page_text : string;
  page_trs : list table_row
}.

(** What [session.get(url, timeout=30)] does: it raises a
    [requests.RequestException] or returns a response with its [ok]
    status and its body. *)
Inductive http_result (A : Type) :=
| RequestException
| Response (ok : bool) (body : A).
Arguments RequestException {A}.
Arguments Response {A} ok body.

Inductive request :=
| GetUser (player : option Z)   (* /bg/user/{player_id} *)
| GetList (mid : Z)             (* /bg/game/{match_id}/0/list *)
| GetExport (mid : Z).          (* /bg/export/{match_id} *)

(** The remote server, answering the [n]-th request of a run.  The user
    page is given by what [get_player_matches] returns for it (pairs of
    opponent name and match-id digits, in page order; [[]] on an error);
    the export page by its body split into lines ([splitlines]). *)
Record remote := Remote {
  user_matches : nat -> option Z -> list (string * string);
  list_page : nat -> Z -> http_result page;
  export_page : nat -> Z -> http_result (list string)
}.

(** [ScoreObservation]: what [extract_latest_score] returns. *)
Record observation := Observation {
  left_name : string;
  right_name : string;
  obs_left_score : Z;
  obs_right_score : Z
}.

Module Re.

Definition is_digit (c : ascii) : bool :=
  let n := N_of_ascii c in ((48 <=? n) && (n <=? 57))%N.

Definition is_newline (c : ascii) : bool := (N_of_ascii c =? 10)%N.

(** [(\d+)]: the longest run of digits at the start. *)
Fixpoint take_digits (s : string) : string :=
  match s with
  | String c t => if is_digit c then String c (take_digits t) else EmptyString
  | EmptyString => EmptyString
  end.

Fixpoint int_digits (acc : Z) (s : string) : option Z :=
  match s with
  | EmptyString => Some acc
  | String c t =>
      if is_digit c
      then int_digits (10 * acc + (Z.of_N (N_of_ascii c) - 48)) t
      else None
  end.

(** [int(s)] on a string of decimal digits; [None] is [ValueError]. *)
Definition py_int (s : string) : option Z :=
  match s with
  | EmptyString => None
  | _ => int_digits 0 s
  end.

(** [\s*:\s*(\d+)] anchored at the start of [s]. *)
Definition colon_score (s : string) : option Z :=
  match PyStr.lstrip s with
  | String ":" rest => py_int (take_digits (PyStr.lstrip rest))
  | _ => None
  end.

(** [(.+?)] has consumed [name]; extend it lazily, one character that is
    not a newline at a time, until the rest of the pattern matches. *)
Fixpoint lazy_name (name rest : string) : option (string * Z) :=
  match colon_score rest with
  | Some n => Some (name, n)
  | None =>
      match rest with
      | EmptyString => None
      | String c t =>
          if is_newline c then None
          else lazy_name (name ++ String c EmptyString)%string t
      end
  end.

(** [re.match(r"(.+?)\s*:\s*(\d+)", s)], followed by [.groups()] and
    [int] of the second group. *)
Definition name_colon_score (s : string) : option (string * Z) :=
  match s with
  | EmptyString => None
  | String c t =>
      if is_newline c then None else lazy_name (String c EmptyString) t
  end.

End Re.

(** [any(p in text for p in players_list)] *)
Definition mentions_any (players_list : list string) (text : string) : bool :=
  List.existsb (fun p => PyStr.contains p text) players_list.

(** The body of the loop of [extract_latest_score] for one row; [None]
    lets the loop go on. *)
Definition score_of_row (players_list : list string) (row : table_row)
  : option observation :=
  if negb (mentions_any players_list (tr_text row)) then None
  else
    match td_texts row with
    | _ :: left_text :: right_text :: _ =>
        match Re.name_colon_score left_text, Re.name_colon_score right_text with
        | Some (ln, ls), Some (rn, rs) =>
            Some (Observation (PyStr.strip ln) (PyStr.strip rn) ls rs)
        | _, _ => None
        end
    | _ => None
    end.

Fixpoint first_some {A B : Type} (f : A -> option B) (l : list A) : option B :=
  match l with
  | [] => None
  | x :: t => match f x with Some y => Some y | None => first_some f t end
  end.

(** [extract_latest_score(html, players_list)]: rows from bottom to top. *)
Definition extract_latest_score (html : page) (players_list : list string)
  : option observation :=
  first_some (score_of_row players_list) (List.rev (page_trs html)).

(** The outcome of [fetch_list_html] for one answer of the server. *)
Definition list_html_of (r : http_result page) : option page :=
  match r with
  | RequestException => None
  | Response ok body =>
      if negb ok || PyStr.contains "Please Login" (page_text body)
      then None
      else Some body
  end.

(** [bool(html)] for [html : str | None]. *)
Definition html_truthy (html : option page) : bool :=
  match html with
  | Some p => PyStr.truthy (page_text p)
  | None => false
  end.

(* ===================================================================== *)
(** ** Winner detection on the export text *)
(* ===================================================================== *)

Definition mid_threshold : Z := 24.

(** ["and the match" in line and "Wins" in line] *)
Definition is_result_line (line : string) : bool :=
  PyStr.contains "and the match" line && PyStr.contains "Wins" line.

(** The loop [for line in reversed(text_lines)] on the lines still to
    visit, in visiting order. *)
Fixpoint scan_winner (player opponent : string) (lines : list string)
  : option string :=
  match lines with
  | [] => None
  | line :: rest =>
      if is_result_line line then
        let pos := PyStr.find "Wins" line in
        Some (if pos <? mid_threshold then player else opponent)
      else scan_winner player opponent rest
  end.

(** The winner detection heuristic of Phase 1. *)
Definition detect_winner (player opponent : string) (text_lines : list string)
  : option string :=
  scan_winner player opponent (List.rev text_lines).

(** [if winner:] for [winner : str | None]. *)
Definition winner_truthy (w : option string) : option string :=
  match w with
  | Some name => if PyStr.truthy name then Some name else None
  | None => None
  end.

(* ===================================================================== *)
(** ** Store writes of the dashboard script *)
(* ===================================================================== *)

(** [WHERE p1.player_name = %s AND p2.player_name = %s] *)
Definition is_pairing (player opponent : string) (r : match_row) : bool :=
  String.eqb (player_name r) player && String.eqb (opponent_name r) opponent.

(** [WHERE m.match_id = %s] *)
Definition has_match_id (mid : Z) (r : match_row) : bool :=
  is_val (match_id r) mid.

(** The row the store returns for a pairing of the group: the [SELECT]
    of [update_score_in_db] followed by [fetchone]. *)
Definition record_of_pairing (GROUP_ID : Z) (player opponent : string)
    (db : list match_row) : option match_row :=
  Sql.fetchone
    (Sql.select (fun r => is_pairing player opponent r
                          && (group_id r =? GROUP_ID)) db).

(** The row the store returns for a match id: the [SELECT] of Phase 2
    followed by [fetchone]. *)
Definition record_of_match_id (mid : Z) (db : list match_row)
  : option match_row :=
  Sql.fetchone (Sql.select (has_match_id mid) db).

(** [update_score_in_db]: the returned flag is the function's result,
    [True] exactly when the [UPDATE] was issued.  The [except] branch
    belongs to a failing connection, which the store of this model does
    not have. *)
Definition update_score_in_db (GROUP_ID : Z) (player opponent : string)
    (player_score opponent_score : Z) (switched : bool)
    (db : list match_row) : bool * list match_row :=
  match record_of_pairing GROUP_ID player opponent db with
  | None => (false, db)
  | Some row =>
      if is_val (left_score row) 11 || is_val (right_score row) 11
      then (false, db)
      else (true,
            Sql.update (fun r => match_pk r =? match_pk row)
              (fun r => set_right_score (Some opponent_score)
                          (set_left_score (Some player_score) r)) db)
  end.

(** The column that receives 11, as both Phase 2 and
    [update_match_score_in_db] choose it; [None] is the branch that
    returns without a write. *)
Definition winner_column (winner_name db_player db_opponent : string)
    (switched : bool) : option score_column :=
  if String.eqb winner_name db_player then
    Some (if negb switched then col_left_score else col_right_score)
  else if String.eqb winner_name db_opponent then
    Some (if negb switched then col_right_score else col_left_score)
  else None.

(** [UPDATE matches SET {col} = 11, finished = TRUE WHERE match_id = %s] *)
Definition write_final (col : score_column) (mid : Z) (db : list match_row)
  : list match_row :=
  Sql.update (has_match_id mid)
    (fun r => set_finished true (set_score col (Some 11) r)) db.

(** One iteration of the Phase 2 loop
    [for match_id, winner_name in finished_by_id.items()]. *)
Definition final_result_step (mid : Z) (winner_name : string)
    (db : list match_row) : list match_row :=
  match record_of_match_id mid db with
  | None => db
  | Some row =>
      match winner_column winner_name (player_name row) (opponent_name row)
              (switched_flag row) with
      | Some col => write_final col mid db
      | None => db
      end
  end.

(** [update_match_score_in_db(match_id, winner_name, conn, group_id)] *)
Definition update_match_score_in_db (mid : Z) (winner_name : string)
    (group : option Z) (db : list match_row) : list match_row :=
  let found :=
    match group with
    | Some g =>
        Sql.fetchone
          (Sql.select (fun r => has_match_id mid r && (group_id r =? g)) db)
    | None => record_of_match_id mid db
    end in
  match found with
  | None => db
  | Some row =>
      match winner_column winner_name (player_name row) (opponent_name row)
              (switched_flag row) with
      | Some col => write_final col mid db
      | None => db
      end
  end.

(** Phase 2: the whole loop. *)
Definition final_results (finished_by_id : list (Z * string))
    (db : list match_row) : list match_row :=
  List.fold_left (fun d kv => final_result_step (fst kv) (snd kv) d)
    finished_by_id db.

(* ===================================================================== *)
(** ** Orientation as Step 1 of the dashboard script resolves it *)
(* ===================================================================== *)

(** The value Step 1 stores in [match_id_to_db[match_id]] once it has a
    score row: normal order, swapped order, unclear order. *)
Definition resolve_switched (player opponent : string) (obs : observation)
  : bool :=
  let ln := PyStr.lower (left_name obs) in
  let rn := PyStr.lower (right_name obs) in
  let pn := PyStr.lower player in
  let on := PyStr.lower opponent in
  if String.eqb ln pn && String.eqb rn on then false
  else if String.eqb ln on && String.eqb rn pn then true
  else false.

(* ===================================================================== *)
(** ** Identifier discovery *)
(* ===================================================================== *)

(** [a.strip().lower() == b.strip().lower()] *)
Definition same_name (a b : string) : bool :=
  String.eqb (PyStr.lower (PyStr.strip a)) (PyStr.lower (PyStr.strip b)).

(** The set [existing_match_ids] both scripts load before the search. *)
Definition load_existing_match_ids (db : list match_row) : gset Z :=
  list_to_set (omap match_id db).

Module FindMatchIds.

(** The candidate loop of [process_groups] in [find_match_ids2.py] for
    the record [match_pk] with the names [player_name_db] and
    [opponent_name_db].  The result carries [saved], the set
    [existing_match_ids] and the store.  The [UPDATE] is taken to succeed:
    its [except] branch belongs to a failing connection.  The column
    [match_link] it also sets is the page address built from the id and
    is not kept in [match_row]. *)
Fixpoint candidate_loop (do_commit : bool) (pk : Z)
    (player_name_db opponent_name_db : string)
    (player_matches : list (string * string))
    (existing : gset Z) (db : list match_row)
  : bool * gset Z * list match_row :=
  match player_matches with
  | [] => (false, existing, db)
  | (opponent_name_dg, match_id_str) :: rest =>
      match Re.py_int match_id_str with
      | None =>
          candidate_loop do_commit pk player_name_db opponent_name_db
            rest existing db
      | Some mid =>
          if bool_decide (mid ∈ existing) then
            candidate_loop do_commit pk player_name_db opponent_name_db
              rest existing db
          else
            let decided :=
              if same_name opponent_name_dg opponent_name_db then Some false
              else if same_name opponent_name_dg player_name_db then Some true
              else None in
            match decided with
            | None =>
                candidate_loop do_commit pk player_name_db opponent_name_db
                  rest existing db
            | Some switched =>
                if do_commit then
                  (true, {[mid]} ∪ existing,
                   Sql.update (fun r => match_pk r =? pk)
                     (fun r => set_switched_flag switched
                                 (set_match_id (Some mid) r)) db)
                else (true, existing, db)
            end
      end
  end.

(** One record of [missing]: no request without a [dg_player_id],
    otherwise the player's feed and the candidate loop.  The accumulator
    is [existing_match_ids], the store and the requests sent. *)
Definition process_missing (net : remote) (do_commit : bool)
    (acc : gset Z * list match_row * list request) (row : match_row)
  : gset Z * list match_row * list request :=
  let '(existing, store, sent) := acc in
  match dg_player_id row with
  | None => acc
  | Some pid =>
      let player_matches := user_matches net (List.length sent) (Some pid) in
      let '(_, existing', store') :=
        candidate_loop do_commit (match_pk row) (player_name row)
          (opponent_name row) player_matches existing store in
      (existing', store', (sent ++ [GetUser (Some pid)])%list)
  end.

(** One group [g] of [groups]: its records without a remote id. *)
Definition process_group (net : remote) (do_commit : bool)
    (acc : gset Z * list match_row * list request) (g : Z)
  : gset Z * list match_row * list request :=
  let missing :=
    Sql.select (fun r => (group_id r =? g) && is_null (match_id r))
      (snd (fst acc)) in
  List.fold_left (process_missing net do_commit) missing acc.

(** [process_groups] from the login on, for the ids [groups] of the
    groups the season and league select. *)
Definition process_groups (net : remote) (do_commit : bool) (groups : list Z)
    (store : list match_row) : gset Z * list match_row * list request :=
  List.fold_left (process_group net do_commit) groups
    (load_existing_match_ids store, store, []).

End FindMatchIds.

Module DashboardStep2.

(** The candidate loop of Step 2 of the dashboard script
    ([for opponent_name_dg, match_id in player_matches]).  The entries it
    adds to [matches] and [matches_by_hand] are display data and are not
    kept here. *)
Fixpoint candidate_loop (pk : Z) (opponent_name_db : string)
    (player_matches : list (string * string))
    (existing : gset Z) (db : list match_row)
  : gset Z * list match_row :=
  match player_matches with
  | [] => (existing, db)
  | (opponent_name_dg, match_id_str) :: rest =>
      if negb (same_name opponent_name_dg opponent_name_db) then
        candidate_loop pk opponent_name_db rest existing db
      else
        match Re.py_int match_id_str with
        | None => candidate_loop pk opponent_name_db rest existing db
        | Some mid_int =>
            if bool_decide (mid_int ∈ existing) then
              candidate_loop pk opponent_name_db rest existing db
            else
              ({[mid_int]} ∪ existing,
               Sql.update (fun r => match_pk r =? pk)
                 (set_match_id (Some mid_int)) db)
        end
  end.

End DashboardStep2.

(* ===================================================================== *)
(** ** One run of the dashboard script *)
(* ===================================================================== *)

(** The mutable globals of the script, the store and the requests sent. *)
Record state := State {
  db : list match_row;
  html_cache : gmap Z (option page);
  finished_by_id : list (Z * string);
  match_id_to_db : list (Z * (string * string * bool));
  trace : list request
}.

Definition set_db (v : list match_row) (s : state) : state :=
  State v (html_cache s) (finished_by_id s) (match_id_to_db s) (trace s).

Definition set_html_cache (v : gmap Z (option page)) (s : state) : state :=
  State (db s) v (finished_by_id s) (match_id_to_db s) (trace s).

Definition set_finished_by_id (v : list (Z * string)) (s : state) : state :=
  State (db s) (html_cache s) v (match_id_to_db s) (trace s).

Definition set_match_id_to_db (v : list (Z * (string * string * bool)))
    (s : state) : state :=
  State (db s) (html_cache s) (finished_by_id s) v (trace s).

Definition log_request (r : request) (s : state) : state :=
  State (db s) (html_cache s) (finished_by_id s) (match_id_to_db s)
    (trace s ++ [r]).

(** The script starts with empty dictionaries ([html_cache = {}],
    [finished_by_id = {}]). *)
Definition initial_state (store : list match_row) : state :=
  State store ∅ [] [] [].

(** [for x in l: body(x)] on a state. *)
Definition for_each {A : Type} (l : list A) (body : A -> state -> state)
    (s : state) : state :=
  List.fold_left (fun st x => body x st) l s.

(** The number of requests in a trace that satisfy [p]. *)
Definition count_requests (p : request -> bool) (t : list request) : nat :=
  List.length (List.filter p t).

Definition is_list_request (mid : Z) (r : request) : bool :=
  match r with GetList m => m =? mid | _ => false end.

Definition is_export_request (mid : Z) (r : request) : bool :=
  match r with GetExport m => m =? mid | _ => false end.

(** Any request for the content of match [mid]. *)
Definition is_match_request (mid : Z) (r : request) : bool :=
  is_list_request mid r || is_export_request mid r.

Section Dashboard.

Variable net : remote.
Variable GROUP_ID : Z.


Definition in_group (r : match_row) : bool := group_id r =? GROUP_ID.

(** [fetch_list_html(session, match_id)]: one request. *)
Definition fetch_list_html (mid : Z) (s : state) : option page * state :=
  (list_html_of (list_page net (List.length (trace s)) mid),
   log_request (GetList mid) s).

(** [html_cache.get(match_id)] *)
Definition cache_get (mid : Z) (s : state) : option page :=
  match html_cache s !! mid with
  | Some html => html
  | None => None
  end.

(** Step 2, one record of [missing_matches]. *)
Definition fill_missing_one (existing_s : gset Z * state) (row : match_row)
  : gset Z * state :=
  let '(existing, s) := existing_s in
  let player_matches :=
    user_matches net (List.length (trace s)) (dg_player_id row) in
  let s1 := log_request (GetUser (dg_player_id row)) s in
  let '(existing', db') :=
    DashboardStep2.candidate_loop (match_pk row) (opponent_name row)
      player_matches existing (db s1) in
  (existing', set_db db' s1).

(** Step 2: fill missing match ids. *)
Definition fill_missing_match_ids (needs_refresh : bool) (s : state) : state :=
  if negb needs_refresh then s
  else
    let existing_match_ids := load_existing_match_ids (db s) in
    let missing_matches :=
      Sql.select (fun r => in_group r && is_null (match_id r))
        (db s) in
    snd (List.fold_left fill_missing_one missing_matches
           (existing_match_ids, s)).

(** Build [match_id_to_db] from the store: one entry per match id of the
    group, in row order. *)
Definition build_match_id_to_db (store : list match_row)
  : list (Z * (string * string * bool)) :=
  List.fold_left
    (fun d r =>
       match match_id r with
       | Some mid =>
           Dict.set mid (player_name r, opponent_name r, switched_flag r) d
       | None => d
       end)
    (Sql.select in_group store) [].

(** [to_fetch_ids] *)
Definition to_fetch_ids (s : state) : list Z :=
  List.filter
    (fun mid => negb (bool_decide (is_Some (html_cache s !! mid)))
                && negb (Dict.mem mid (finished_by_id s)))
    (Dict.keys (match_id_to_db s)).

(** [html_cache[match_id] = fetch_list_html(session, match_id)] *)
Definition prefetch_one (mid : Z) (s : state) : state :=
  let '(html, s1) := fetch_list_html mid s in
  set_html_cache (<[mid := html]> (html_cache s1)) s1.

(** Step 1, one iteration of the evaluation loop.  The third component
    of a score row is bound to [status] and compared with the string
    ["finished"]; it is an integer, so that branch never runs. *)
Definition evaluate_one (entry : Z * (string * string * bool)) (s : state)
  : state :=
  let '(mid, (player, opponent, switched)) := entry in
  if Dict.mem mid (finished_by_id s) then s
  else
    let html := cache_get mid s in
    if negb (html_truthy html) then s
    else
      match html with
      | None => s
      | Some pg =>
          match extract_latest_score pg [player; opponent] with
          | None => s
          | Some obs =>
              set_match_id_to_db
                (Dict.set mid
                   (player, opponent, resolve_switched player opponent obs)
                   (match_id_to_db s)) s
          end
      end.

(** Step 1: prefetch, then evaluate every entry.  An iteration only
    assigns to its own key, so looping over the items as they are when
    the loop starts reads the same values as the live dictionary. *)
Definition check_existing_matches (s : state) : state :=
  let s1 := for_each (to_fetch_ids s) prefetch_one s in
  for_each (match_id_to_db s1) evaluate_one s1.

(** [all_match_ids]: match id to player and opponent. *)
Definition build_all_match_ids (store : list match_row)
  : list (Z * (string * string)) :=
  List.fold_left
    (fun d r =>
       match match_id r with
       | Some mid => Dict.set mid (player_name r, opponent_name r) d
       | None => d
       end)
    (Sql.select in_group store) [].

(** What Phase 1 makes of one answer to the export request: the lines,
    unless the request or [raise_for_status] raised. *)
Definition export_lines_of (r : http_result (list string))
  : option (list string) :=
  match r with
  | RequestException => None
  | Response ok body => if ok then Some body else None
  end.

(** Phase 1, one iteration: fetch the export page, detect the winner.
    [all_match_ids] is built afresh with [winner = None], so the first
    test of the loop body never skips. *)
Definition detect_one (entry : Z * (string * string)) (s : state) : state :=
  let '(mid, (player, opponent)) := entry in
  let answer := export_page net (List.length (trace s)) mid in
  let s1 := log_request (GetExport mid) s in
  match export_lines_of answer with
  | None => s1
  | Some text_lines =>
      match winner_truthy (detect_winner player opponent text_lines) with
      | Some winner =>
          set_finished_by_id (Dict.set mid winner (finished_by_id s1)) s1
      | None => s1
      end
  end.

(** Phase 1: winners from the export pages. *)
Definition detect_winners (s : state) : state :=
  for_each (build_all_match_ids (db s)) detect_one s.

(** [players_in_matches]: the names of the group's players.  The script
    sorts them and drops duplicates; the list is only used under
    [any(...)], which neither order nor duplicates affect. *)
Definition players_in_matches (store : list match_row) : list string :=
  List.flat_map (fun r => [player_name r; opponent_name r])
    (Sql.select in_group store).

(** The score loop from the extracted score row on: map and write. *)
Definition store_observation (player opponent : string) (switched : bool)
    (obs : observation) (store : list match_row) : list match_row :=
  match map_scores player opponent (left_name obs) (right_name obs)
          (obs_left_score obs) (obs_right_score obs) switched with
  | None => store
  | Some (player_score, opponent_score) =>
      snd (update_score_in_db GROUP_ID player opponent player_score
             opponent_score switched store)
  end.

(** The score loop, one iteration. *)
Definition refresh_one (players : list string)
    (entry : Z * (string * string * bool)) (s : state) : state :=
  let '(mid, (db_player, db_opponent, switched)) := entry in
  let row :=
    Sql.fetchone
      (Sql.select (fun r => has_match_id mid r
                            && is_pairing db_player db_opponent r
                            && in_group r) (db s)) in
  if match row with Some r => has_eleven r | None => false end then s
  else
    let '(html, s1) :=
      let cached := cache_get mid s in
      if negb (html_truthy cached) then
        let '(fetched, s') := fetch_list_html mid s in
        (fetched, set_html_cache (<[mid := fetched]> (html_cache s')) s')
      else (cached, s) in
    if negb (html_truthy html) then s1
    else
      match html with
      | None => s1
      | Some pg =>
          match extract_latest_score pg players with
          | None => s1
          | Some obs =>
              set_db (store_observation db_player db_opponent switched obs
                        (db s1)) s1
          end
      end.

(** The score loop over [list(match_id_to_db.items())]. *)
Definition refresh_scores (s : state) : state :=
  for_each (match_id_to_db s) (refresh_one (players_in_matches (db s))) s.

(** Phase 2 on the state. *)
Definition commit_final_results (s : state) : state :=
  set_db (final_results (finished_by_id s) (db s)) s.

(** One run of the script from the store, in the order of the file:
    Step 2, the mapping, Step 1, Phase 1, the score loop, Phase 2. *)
Definition sync_run (needs_refresh : bool) (store : list match_row) : state :=
  let s0 := fill_missing_match_ids needs_refresh (initial_state store) in
  let s1 := set_match_id_to_db (build_match_id_to_db (db s0)) s0 in
  let s2 := check_existing_matches s1 in
  let s3 := detect_winners s2 in
  let s4 := refresh_scores s3 in
  commit_final_results s4.

End Dashboard.

(* ===================================================================== *)
(** ** The orientation rule in the words of the specification *)
(* ===================================================================== *)

(** Name-based resolution: an exact match in record order maps directly,
    an exact match in reversed order swaps, otherwise the substring
    fallback on the player's name decides, and failing that nothing is
    returned.  Names are compared stripped and in lower case. *)
Definition name_based_resolution (player opponent left_name right_name : string)
    (left_score right_score : Z) : option (Z * Z) :=
  let ln := PyStr.lower (PyStr.strip left_name) in
  let rn := PyStr.lower (PyStr.strip right_name) in
  let pn := PyStr.lower (PyStr.strip player) in
  let on := PyStr.lower (PyStr.strip opponent) in
  if String.eqb ln pn && String.eqb rn on then Some (left_score, right_score)
  else if String.eqb ln on && String.eqb rn pn then Some (right_score, left_score)
  else if PyStr.contains pn ln then Some (left_score, right_score)
  else if PyStr.contains pn rn then Some (right_score, left_score)
  else None.

(** A candidate the discovery of [find_match_ids2.py] passes over: its id
    does not parse, or is already attached, or its opponent name is
    neither side's name. *)
Definition passed_over (existing : gset Z) (player_name_db opponent_name_db : string)
    (cand : string * string) : Prop :=
  match Re.py_int (snd cand) with
  | None => True
  | Some mid =>
      mid ∈ existing
      \/ (same_name (fst cand) opponent_name_db = false
          /\ same_name (fst cand) player_name_db = false)
  end.

(** No answer of the server to an export request for [mid] carries a
    result line. *)
Definition no_result_line (net : remote) (mid : Z) : Prop :=
  forall n,
    match export_lines_of (export_page net n mid) with
    | Some text_lines => Forall (fun l => is_result_line l = false) text_lines
    | None => True
    end.

(** [existing_match_ids] holds every remote id attached to a record. *)
Definition covers (existing : gset Z) (store : list match_row) : Prop :=
  forall r mid, r ∈ store -> match_id r = Some mid -> mid ∈ existing.

(** A candidate Step 2 of the dashboard script passes over: its opponent
    name is not side B's name, or its id does not parse or is already
    attached. *)
Definition passed_over_step2 (existing : gset Z) (opponent_name_db : string)
    (cand : string * string) : Prop :=
  same_name (fst cand) opponent_name_db = false
  \/ match Re.py_int (snd cand) with
     | None => True
     | Some mid => mid ∈ existing
     end.

(** What a final-result write can make of a row: each score stays or
    becomes 11, [finished] stays or becomes true, and no other column
    changes. *)
Definition finalised (r r' : match_row) : Prop :=
  r' = set_finished (finished r')
         (set_right_score (right_score r')
            (set_left_score (left_score r') r))
  /\ (left_score r' = left_score r \/ left_score r' = Some 11)
  /\ (right_score r' = right_score r \/ right_score r' = Some 11)
  /\ (finished r' = finished r \/ finished r' = true).

(* ===================================================================== *)
(** ** Sample data *)
(* ===================================================================== *)

Module Sample.

(** Alice against Bob in group 1, remote id 1, entered in reversed
    order, 4 : 7 so far. *)
Definition switched_row : match_row :=
  MatchRow 10 1 (Some 100) "Alice" "Bob" (Some 1) (Some 4) (Some 7) true false.

(** The same pairing in remote order, 7 : 4 so far. *)
Definition plain_row : match_row :=
  MatchRow 10 1 (Some 100) "Alice" "Bob" (Some 1) (Some 7) (Some 4) false false.

(** Alice has reached 11 in the score loop; the match is not yet marked
    finished. *)
Definition eleven_row : match_row :=
  MatchRow 10 1 (Some 100) "Alice" "Bob" (Some 1) (Some 11) (Some 6) false false.

(** The pairing before discovery. *)
Definition unmatched_row : match_row :=
  MatchRow 10 1 (Some 100) "Alice" "Bob" None None None false false.

(** A match page whose latest score row reads [left : l] and [right : r]. *)
Definition score_page (left right : string) : page :=
  Page "<html><table>...</table></html>"
    [TableRow ("1 " ++ left ++ " " ++ right) ["1"; left; right]].

(** An export without a result line. *)
Definition open_export : list string :=
  [" 11 point match"; " Game 1"; " Alice : 0    Bob : 0"].



(** A server whose match pages cannot be fetched. *)
Definition failing_server : remote :=
  Remote (fun _ _ => []) (fun _ _ => RequestException)
    (fun _ _ => Response true open_export).

(** A server whose match pages answer. *)
Definition answering_server : remote :=
  Remote (fun _ _ => [])
    (fun _ _ => Response true (score_page "Alice : 7" "Bob : 4"))
    (fun _ _ => Response true open_export).

(** Bob's feed lists the match against Alice under Alice's name. *)
Definition candidates_naming_side_a : list (string * string) :=
  [("Alice", "12345")].

Definition candidates_mixed : list (string * string) :=
  [("Carol", "777"); ("bob ", "1"); (" BOB", "12345"); ("Bob", "999")].

(** The state of a run at the score loop, with the one record [row] of
    remote id 1 in the store and in [match_id_to_db]. *)
Definition tracked (row : match_row) : state :=
  set_match_id_to_db
    [(1, (player_name row, opponent_name row, switched_flag row))]
    (initial_state [row]).

(** Another pairing of the group that already carries remote id 1. *)
Definition attached_row : match_row :=
  MatchRow 11 1 (Some 300) "Carol" "Dave" (Some 1) None None false false.

(** A server on which the player's feed names the match by side A. *)
Definition side_a_feed_server : remote :=
  Remote (fun _ _ => [("Alice", "12345")]) (fun _ _ => RequestException)
    (fun _ _ => RequestException).

(** An export whose last result line has [Wins] in column 1. *)
Definition won_export : list string :=
  [" 11 point match"; " Game 9"; " Alice : 10    Bob : 7";
   " Wins 1 point and the match"; ""].

(** A server on which the match is over and the match page is gone. *)
Definition deciding_server : remote :=
  Remote (fun _ _ => []) (fun _ _ => RequestException)
    (fun _ _ => Response true won_export).

End Sample.

(* ===================================================================== *)
(** ** The league table of the dashboard *)
(* ===================================================================== *)

Module League.

(** A Python dict keyed by the pair (player, opponent), in insertion
    order. *)
Definition key_eqb (a b : string * string) : bool :=
  String.eqb (fst a) (fst b) && String.eqb (snd a) (snd b).

(** [d[k] = v] *)
Fixpoint set {V : Type} (k : string * string) (v : V)
    (d : list ((string * string) * V)) : list ((string * string) * V) :=
  match d with
  | [] => [(k, v)]
  | (k', v') :: t => if key_eqb k k' then (k, v) :: t else (k', v') :: set k v t
  end.

(** [d[k]] guarded by [k in d] *)
Fixpoint get {V : Type} (k : string * string)
    (d : list ((string * string) * V)) : option V :=
  match d with
  | [] => None
  | (k', v') :: t => if key_eqb k k' then Some v' else get k t
  end.

(** [int(x) if x is not None else 0] *)
Definition null_to_zero (x : option Z) : Z :=
  match x with Some v => v | None => 0 end.

(** [intermediate_scores] as the first league table builds it from the
    rows of the group: a [NULL] score counts as 0, a later row of the
    same pairing replaces an earlier one. *)
Definition intermediate_scores_with_zero (rows : list match_row)
  : list ((string * string) * (Z * Z)) :=
  List.fold_left
    (fun d r =>
       set (player_name r, opponent_name r)
         (null_to_zero (left_score r), null_to_zero (right_score r)) d)
    rows [].

(** [score_map] of the second league table. *)
Definition score_map (rows : list match_row)
  : list ((string * string) * (option Z * option Z)) :=
  List.fold_left
    (fun d r =>
       set (player_name r, opponent_name r) (left_score r, right_score r) d)
    rows [].

(** [intermediate_scores] as the second league table builds it: the
    entries of [score_map] with both scores present. *)
Definition intermediate_scores_notna (rows : list match_row)
  : list ((string * string) * (Z * Z)) :=
  List.flat_map
    (fun kv =>
       match snd kv with
       | (Some l, Some r) => [(fst kv, (l, r))]
       | _ => []
       end)
    (score_map rows).

(** The counters of one player in the statistics loop. *)
Record totals := Totals {
  finished_matches : Z;
  all_plus : Z;
  all_minus : Z;
  all_total : Z;
  finished_plus : Z;
  finished_minus : Z;
  finished_total : Z
}.

Definition no_totals : totals := Totals 0 0 0 0 0 0 0.

(** The body shared by the two [if key in intermediate_scores] blocks:
    the player's score and the other side's score are added. *)
Definition add_result (s_player s_other : Z) (t : totals) : totals :=
  if (s_player =? 11) || (s_other =? 11) then
    Totals (finished_matches t + 1)
      (all_plus t + s_player) (all_minus t + s_other)
      (all_total t + (s_player - s_other))
      (finished_plus t + s_player) (finished_minus t + s_other)
      (finished_total t + (s_player - s_other))
  else
    Totals (finished_matches t)
      (all_plus t + s_player) (all_minus t + s_other)
      (all_total t + (s_player - s_other))
      (finished_plus t) (finished_minus t) (finished_total t).

(** One iteration of [for opponent in players]. *)
Definition visit (scores : list ((string * string) * (Z * Z)))
    (player : string) (t : totals) (opponent : string) : totals :=
  if String.eqb player opponent then t
  else
    let t1 :=
      match get (player, opponent) scores with
      | Some (s_player, s_opponent) => add_result s_player s_opponent t
      | None => t
      end in
    match get (opponent, player) scores with
    | Some (s_opp, s_player) => add_result s_player s_opp t1
    | None => t1
    end.

(** The inner loop for one player. *)
Definition player_totals (scores : list ((string * string) * (Z * Z)))
    (players : list string) (player : string) : totals :=
  List.fold_left (visit scores player) players no_totals.

(** The generator under [won = sum(...)]. *)
Definition is_win (player : string) (item : (string * string) * (Z * Z))
  : bool :=
  let '((p, o), (sp, so)) := item in
  (String.eqb p player && (so <? sp) || String.eqb o player && (sp <? so))
  && ((sp =? 11) || (so =? 11)).

(** The generator under [lost = sum(...)]. *)
Definition is_loss (player : string) (item : (string * string) * (Z * Z))
  : bool :=
  let '((p, o), (sp, so)) := item in
  (String.eqb p player && (sp <? so) || String.eqb o player && (so <? sp))
  && ((sp =? 11) || (so =? 11)).

Definition won (scores : list ((string * string) * (Z * Z))) (player : string)
  : Z :=
  Z.of_nat (List.length (List.filter (is_win player) scores)).

Definition lost (scores : list ((string * string) * (Z * Z)))
    (player : string) : Z :=
  Z.of_nat (List.length (List.filter (is_loss player) scores)).

(** [total_matches_per_player = (num_players - 1) * 2] *)
Definition total_matches_per_player (players : list string) : Z :=
  (Z.of_nat (List.length players) - 1) * 2.

(** One row of [stats], without the percentage, which the script
    computes in floating point. *)
Record stat_row := StatRow {
  st_player : string;
  st_total_matches : Z;
  st_won : Z;
  st_lost : Z;
  st_totals : totals
}.

(** [stats], one row per entry of [players]. *)
Definition stats (scores : list ((string * string) * (Z * Z)))
    (players : list string) : list stat_row :=
  List.map
    (fun player =>
       StatRow player (total_matches_per_player players)
         (won scores player) (lost scores player)
         (player_totals scores players player))
    players.

(** The sum of a list of integers. *)
Definition zsum (l : list Z) : Z := List.fold_right Z.add 0 l.

End League.

Module LeagueFacts.

(** 1 for a stored result that shows an 11, 0 otherwise and for a missing
    entry. *)
Definition shows_eleven (v : option (Z * Z)) : Z :=
  match v with
  | Some (a, b) => if (a =? 11) || (b =? 11) then 1 else 0
  | None => 0
  end.

(** 1 for an entry of [intermediate_scores] that shows an 11 and has
    [player] on either side. *)
Definition involves (player : string) (item : (string * string) * (Z * Z))
  : Z :=
  if (String.eqb (fst (fst item)) player || String.eqb (snd (fst item)) player)
  then shows_eleven (Some (snd item)) else 0.

(** The entries of [intermediate_scores] are between two different
    listed players and none of them reads 11 : 11. *)
Definition regular (players : list string)
    (scores : list ((string * string) * (Z * Z))) : Prop :=
  NoDup (List.map fst scores)
  /\ Forall
       (fun item =>
          fst (fst item) <> snd (fst item)
          /\ In (fst (fst item)) players /\ In (snd (fst item)) players
          /\ ~ (fst (snd item) = 11 /\ snd (snd item) = 11))
       scores.

End LeagueFacts.

(** The last row of a pairing among the rows the table is built from. *)
Definition last_row_of (k : string * string) (rows : list match_row)
  : option match_row :=
  List.find (fun r => League.key_eqb k (player_name r, opponent_name r))
    (List.rev rows).

Module LeagueSample.

Definition players : list string := ["Alice"; "Bob"; "Carol"].

(** Alice beat Bob at home, lost to him away, and leads Carol 5 : 2. *)
Definition scores : list ((string * string) * (Z * Z)) :=
  [(("Alice", "Bob"), (11, 3)); (("Bob", "Alice"), (11, 4));
   (("Alice", "Carol"), (5, 2))].

End LeagueSample.

(* ===================================================================== *)
(** ** Fixture generation ([ImportGroupsIntoNeon.py]) *)
(* ===================================================================== *)

Module Fixtures.

(** [group_to_players.setdefault(group_id, []).append(player_id)] over
    the rows [(group_id, player_id)] of [player_groups]. *)
Definition group_to_players (rows : list (Z * Z)) : list (Z * list Z) :=
  List.fold_left
    (fun d row =>
       let members :=
         match Dict.get (fst row) d with Some l => l | None => [] end in
       Dict.set (fst row) (members ++ [snd row])%list d)
    rows [].

(** The inner loop [for j in range(i + 1, len(players))] for the player
    at index [i] and the players [later] behind it: a home and an away
    match against each. *)
Fixpoint pair_with (group : Z) (player_id : Z) (later : list Z)
  : list (Z * Z * Z) :=
  match later with
  | [] => []
  | opponent_id :: rest =>
      (player_id, opponent_id, group) :: (opponent_id, player_id, group)
      :: pair_with group player_id rest
  end.

(** The outer loop [for i in range(len(players))] of one group. *)
Fixpoint group_matches (group : Z) (players : list Z) : list (Z * Z * Z) :=
  match players with
  | [] => []
  | player_id :: later =>
      (pair_with group player_id later ++ group_matches group later)%list
  end.

(** [matches_to_insert]: (player, opponent, group) for every group. *)
Definition matches_to_insert (rows : list (Z * Z)) : list (Z * Z * Z) :=
  List.flat_map (fun entry => group_matches (fst entry) (snd entry))
    (group_to_players rows).

(** The matches of a list in which [p] plays, at home or away. *)
Definition matches_of (p : Z) (ms : list (Z * Z * Z)) : list (Z * Z * Z) :=
  List.filter (fun m => (fst (fst m) =? p) || (snd (fst m) =? p)) ms.

End Fixtures.

(** The players of one group in the order of the rows of
    [player_groups]. *)
Definition members_of (group : Z) (rows : list (Z * Z)) : list Z :=
  List.map snd (List.filter (fun row => fst row =? group) rows).

(* ===================================================================== *)
(** ** The player's page: [get_player_matches] *)
(* ===================================================================== *)

Module UserPage.

(** An [<a>] with an [href], and its text [get_text(" ", strip=True)]. *)
Record anchor := Anchor {
  href : string;
  anchor_text : string
}.

(** A [<tr>] of the player's page: its text and the links inside it, in
    document order. *)
Record link_row := LinkRow {
  row_text : string;
  anchors : list anchor
}.

(** The rest of [s] behind the prefix [p]. *)
Fixpoint drop_prefix (p s : string) : option string :=
  match p, s with
  | EmptyString, _ => Some s
  | String a p', String b s' =>
      if Ascii.eqb a b then drop_prefix p' s' else None
  | String _ _, EmptyString => None
  end.

(** [s] behind its leading digits. *)
Fixpoint drop_digits (s : string) : string :=
  match s with
  | String c t => if Re.is_digit c then drop_digits t else s
  | EmptyString => EmptyString
  end.

(** [/bg/game/(\d+)/0/] matched at the start of [s]: the digits. *)
Definition game_id_here (s : string) : option string :=
  match drop_prefix "/bg/game/" s with
  | Some rest =>
      match Re.take_digits rest with
      | EmptyString => None
      | digits =>
          match drop_prefix "/0/" (drop_digits rest) with
          | Some _ => Some digits
          | None => None
          end
      end
  | None => None
  end.

(** [re.search(r"/bg/game/(\d+)/0/", s)], group 1 of the leftmost match. *)
Fixpoint search_game_id (s : string) : option string :=
  match game_id_here s with
  | Some digits => Some digits
  | None =>
      match s with
      | EmptyString => None
      | String _ t => search_game_id t
      end
  end.

(** [/bg/user/\d+] matched at the start of [s]. *)
Definition user_link_here (s : string) : bool :=
  match drop_prefix "/bg/user/" s with
  | Some (String c _) => Re.is_digit c
  | _ => false
  end.

(** [re.search(r"/bg/user/\d+", s)] finds a match. *)
Fixpoint is_user_link (s : string) : bool :=
  if user_link_here s then true
  else match s with
       | EmptyString => false
       | String _ t => is_user_link t
       end.

Definition is_game_link (a : anchor) : bool :=
  match search_game_id (href a) with Some _ => true | None => false end.

(** [season and season.lower().strip() not in text.lower()] *)
Definition other_season (season : string) (row : link_row) : bool :=
  PyStr.truthy season
  && negb (PyStr.contains (PyStr.strip (PyStr.lower season))
             (PyStr.lower (row_text row))).

(** The body of [for row in rows]: the candidates the row appends. *)
Definition candidate_of_row (season : string) (row : link_row)
  : list (string * string) :=
  if other_season season row then []
  else
    match List.find (fun a => is_user_link (href a)) (anchors row),
          List.find is_game_link (anchors row) with
    | Some opponent_link, Some match_link =>
        match search_game_id (href match_link) with
        | Some match_id => [(anchor_text opponent_link, match_id)]
        | None => []
        end
    | _, _ => []
    end.

(** [get_player_matches] on the rows [soup.find_all("tr")] of the page. *)
Definition parse_player_matches (season : string) (trs : list link_row)
  : list (string * string) :=
  let rows := List.filter (fun tr => List.existsb is_game_link (anchors tr)) trs in
  List.flat_map (candidate_of_row season) rows.

(** [get_player_matches(session, player_id, season)] for one answer of
    the server: a failed request and an error status both end in the
    [except] branch. *)
Definition get_player_matches (answer : http_result (list link_row))
    (season : string) : list (string * string) :=
  match answer with
  | RequestException => []
  | Response ok trs => if ok then parse_player_matches season trs else []
  end.

End UserPage.

(** Every character of [s] is a decimal digit. *)
Fixpoint all_digits (s : string) : bool :=
  match s with
  | EmptyString => true
  | String c t => Re.is_digit c && all_digits t
  end.

(** The row mentions the season, compared as the filter compares. *)
Definition mentions_season (season : string) (row : UserPage.link_row) : bool :=
  PyStr.contains (PyStr.strip (PyStr.lower season))
    (PyStr.lower (UserPage.row_text row)).

(* ===================================================================== *)
(** ** Shapes of score cells *)
(* ===================================================================== *)

(** Every character of [s] is white space. *)
Fixpoint all_space (s : string) : bool :=
  match s with
  | EmptyString => true
  | String c t => PyStr.is_space c && all_space t
  end.

(** [s] has no colon and no line feed. *)
Fixpoint plain_name (s : string) : bool :=
  match s with
  | EmptyString => true
  | String c t =>
      negb (Ascii.eqb c ":") && negb (Re.is_newline c) && plain_name t
  end.

(** [s] does not end in white space. *)
Fixpoint no_trailing_space (s : string) : bool :=
  match s with
  | EmptyString => true
  | String c EmptyString => negb (PyStr.is_space c)
  | String _ t => no_trailing_space t
  end.

(** [s] does not start with a digit. *)
Definition no_leading_digit (s : string) : bool :=
  match s with
  | EmptyString => true
  | String c _ => negb (Re.is_digit c)
  end.

(* ===================================================================== *)
(** ** Store invariants and servers used in the further properties *)
(* ===================================================================== *)

(** No two records carry the same remote id. *)
Definition ids_unique (store : list match_row) : Prop :=
  forall i j r r' mid,
    store !! i = Some r -> store !! j = Some r' ->
    match_id r = Some mid -> match_id r' = Some mid -> i = j.

(** The store as the discovery loops keep it: keys and remote ids are
    unique, and [existing_match_ids] holds every attached id. *)
Definition attached_once (existing : gset Z) (store : list match_row) : Prop :=
  pk_unique store /\ ids_unique store /\ covers existing store.

(** The columns the dashboard script has no [UPDATE] for. *)
Definition identity_of (r : match_row)
  : Z * Z * option Z * string * string * bool :=
  (match_pk r, group_id r, dg_player_id r, player_name r, opponent_name r,
   switched_flag r).

(** A server that cannot be reached: the feed of every player comes back
    empty ([get_player_matches] returns [[]] on an error), and every
    request for a match page or an export raises, carries an error
    status or shows the login page. *)
Definition unreachable (net : remote) : Prop :=
  (forall n pid, user_matches net n pid = [])
  /\ (forall n mid, list_html_of (list_page net n mid) = None)
  /\ (forall n mid, export_lines_of (export_page net n mid) = None).

(** Nothing usable is in [html_cache]. *)
Definition cache_unusable (s : state) : Prop :=
  forall k, cache_get k s = None.

Module StoreSample.

(** A server on which every request raises. *)
Definition down_server : remote :=
  Remote (fun _ _ => []) (fun _ _ => RequestException)
    (fun _ _ => RequestException).

(** Alice against Bob, finished 11 : 6. *)
Definition finished_row : match_row :=
  MatchRow 10 1 (Some 100) "Alice" "Bob" (Some 1) (Some 11) (Some 6) false true.

(** Carol against Dave in the same group, no remote id yet. *)
Definition carol_row : match_row :=
  MatchRow 11 1 (Some 300) "Carol" "Dave" None None None false false.

(** Carol's feed offers the id Alice's match already carries, then a
    fresh one. *)
Definition carol_feed_server : remote :=
  Remote (fun _ _ => [("Dave", "1"); ("Dave", "2")])
    (fun _ _ => RequestException) (fun _ _ => RequestException).

End StoreSample.

(* ===================================================================== *)
(** ** One record through a run of the dashboard script *)
(* ===================================================================== *)

(** No two records of the group are for the same pairing: the table
    [matches] holds one row per (player, opponent) of a group. *)
Definition pairings_unique (G : Z) (store : list match_row) : Prop :=
  forall i j r r',
    store !! i = Some r -> store !! j = Some r' ->
    group_id r = G -> group_id r' = G ->
    player_name r = player_name r' -> opponent_name r = opponent_name r' ->
    i = j.

(** Every entry of [match_id_to_db] carries the names of a record of the
    group that has its match id. *)
Definition entries_from (G : Z) (store : list match_row)
    (d : list (Z * (string * string * bool))) : Prop :=
  forall k p o sw,
    In (k, (p, o, sw)) d ->
    exists j row,
      store !! j = Some row /\ group_id row = G /\ match_id row = Some k
      /\ player_name row = p /\ opponent_name row = o.

(** The flag [match_id_to_db] holds for the record [r] once Step 1 has
    evaluated its entry with [html] in the cache: the stored flag, unless
    Step 1 reads a score row, and then the flag resolved from the
    observed names. *)
Definition step1_flag (html : option page) (r : match_row) : bool :=
  if html_truthy html then
    match html with
    | Some pg =>
        match extract_latest_score pg [player_name r; opponent_name r] with
        | Some obs => resolve_switched (player_name r) (opponent_name r) obs
        | None => switched_flag r
        end
    | None => switched_flag r
    end
  else switched_flag r.

(** [SET left_score = %s, right_score = %s] on one row. *)
Definition with_scores (player_score opponent_score : Z) (r : match_row)
  : match_row :=
  set_right_score (Some opponent_score)
    (set_left_score (Some player_score) r).

(** What the score loop makes of the open record [r] when it holds the
    flag [switched] for it and works on [html]: the mapped scores of the
    latest score row, or the record as it is without a usable page, a
    score row or a mapping. *)
Definition record_after_loop (html : option page) (players : list string)
    (switched : bool) (r : match_row) : match_row :=
  if html_truthy html then
    match html with
    | Some pg =>
        match extract_latest_score pg players with
        | Some obs =>
            match map_scores (player_name r) (opponent_name r)
                    (left_name obs) (right_name obs)
                    (obs_left_score obs) (obs_right_score obs) switched with
            | Some (player_score, opponent_score) =>
                with_scores player_score opponent_score r
            | None => r
            end
        | None => r
        end
    | None => r
    end
  else r.

(** The score loop, one iteration, as [refresh_one], together with what
    the call of [update_score_in_db] returned: [True] when its [UPDATE]
    was issued.  An iteration that leaves through one of its [continue]
    statements issues no [UPDATE]. *)
Definition refresh_one_logged (net : remote) (GROUP_ID : Z)
    (players : list string) (entry : Z * (string * string * bool))
    (s : state) : bool * state :=
  let '(mid, (db_player, db_opponent, switched)) := entry in
  let row :=
    Sql.fetchone
      (Sql.select (fun r => has_match_id mid r
                            && is_pairing db_player db_opponent r
                            && in_group GROUP_ID r) (db s)) in
  if match row with Some r => has_eleven r | None => false end then (false, s)
  else
    let '(html, s1) :=
      let cached := cache_get mid s in
      if negb (html_truthy cached) then
        let '(fetched, s') := fetch_list_html net mid s in
        (fetched, set_html_cache (<[mid := fetched]> (html_cache s')) s')
      else (cached, s) in
    if negb (html_truthy html) then (false, s1)
    else
      match html with
      | None => (false, s1)
      | Some pg =>
          match extract_latest_score pg players with
          | None => (false, s1)
          | Some obs =>
              match map_scores db_player db_opponent (left_name obs)
                      (right_name obs) (obs_left_score obs)
                      (obs_right_score obs) switched with
              | None => (false, s1)
              | Some (player_score, opponent_score) =>
                  let '(issued, store') :=
                    update_score_in_db GROUP_ID db_player db_opponent
                      player_score opponent_score switched (db s1) in
                  (issued, set_db store' s1)
              end
          end
      end.

Module RecordSample.

(** Alice against Bob, stored as switched, 4 : 7 so far. *)
Definition flagged_row : match_row :=
  MatchRow 20 1 (Some 100) "Alice" "Bob" (Some 5) (Some 4) (Some 7) true false.

(** A server whose match page shows the names in record order, 8 : 5. *)
Definition record_order_server : remote :=
  Remote (fun _ _ => [])
    (fun _ _ => Response true (Sample.score_page "Alice : 8" "Bob : 5"))
    (fun _ _ => Response true Sample.open_export).

(** A server whose match page shows Bob on the left, 9 : 6. *)
Definition bob_left_later_server : remote :=
  Remote (fun _ _ => [])
    (fun _ _ => Response true (Sample.score_page "Bob : 9" "Alice : 6"))
    (fun _ _ => Response true Sample.open_export).

(** Carol against Dave, entered in page order, with a flag that is
    wrongly true. *)
Definition wrongly_flagged_row : match_row :=
  MatchRow 30 1 (Some 300) "Carol" "Dave" (Some 9) None None true false.

(** A server whose match page shows Carol on the left, 3 : 6. *)
Definition carol_left_server : remote :=
  Remote (fun _ _ => [])
    (fun _ _ => Response true (Sample.score_page "Carol : 3" "Dave : 6"))
    (fun _ _ => Response true Sample.open_export).

(** A match page whose latest score row names the players in shortened
    form: Step 1 finds neither name of the record in it, the score loop
    finds the group's player Al. *)
Definition short_names_page : page :=
  Page "<html><table>...</table></html>"
    [TableRow "1 Al : 9 Bo : 6" ["1"; "Al : 9"; "Bo : 6"]].

Definition short_names_server : remote :=
  Remote (fun _ _ => [])
    (fun _ _ => Response true short_names_page)
    (fun _ _ => Response true Sample.open_export).

(** Al against Eve in the same group. *)
Definition al_row : match_row :=
  MatchRow 21 1 (Some 101) "Al" "Eve" None None None false false.



(** The state of a run at the score loop with [row] tracked under remote
    id 1 and [page] in the cache. *)
Definition cached (row : match_row) (pg : page) : state :=
  set_html_cache {[1 := Some pg]} (Sample.tracked row).

End RecordSample.

(* ===================================================================== *)
(** * Properties *)
(* ===================================================================== *)

(** ** Strings *)

Lemma find_from_lower_bound needle hay i :
  PyStr.find_from needle hay i = -1 \/ i <= PyStr.find_from needle hay i.
Proof.
  revert i; induction hay as [|c t IH]; intros i; cbn [PyStr.find_from].
  - destruct (String.prefix needle ""); [right; lia | left; reflexivity].
  - destruct (String.prefix needle (String c t)); [right; lia |].
    destruct (IH (i + 1)) as [->|H]; [left; reflexivity | right; lia].
Qed.

Lemma contains_find_from needle hay i :
  0 <= i ->
  PyStr.contains needle hay = true <-> 0 <= PyStr.find_from needle hay i.
Proof.
  revert i; induction hay as [|c t IH]; intros i Hi;
    cbn [PyStr.find_from PyStr.contains].
  - destruct (String.prefix needle ""); split; intros; try lia; auto;
      discriminate.
  - destruct (String.prefix needle (String c t)).
    + split; intros; [lia | reflexivity].
    + apply IH; lia.
Qed.

(** [needle in hay] holds exactly when [hay.find(needle)] is an index. *)
Lemma contains_find needle hay :
  PyStr.contains needle hay = true <-> 0 <= PyStr.find needle hay.
Proof. apply contains_find_from; lia. Qed.

(** ** The store *)

Lemma fetchone_select_find cond db :
  Sql.fetchone (Sql.select cond db) = List.find cond db.
Proof.
  unfold Sql.fetchone, Sql.select.
  induction db as [|r db IH]; simpl; [reflexivity |].
  destruct (cond r); simpl; auto.
Qed.

Lemma fetchone_select_some cond db r :
  Sql.fetchone (Sql.select cond db) = Some r -> cond r = true /\ In r db.
Proof.
  rewrite fetchone_select_find. intros H.
  apply List.find_some in H. tauto.
Qed.

Lemma fetchone_select_none cond db r :
  Sql.fetchone (Sql.select cond db) = None -> In r db -> cond r = false.
Proof.
  rewrite fetchone_select_find. intros H Hin.
  exact (List.find_none _ _ H r Hin).
Qed.

Lemma update_lookup cond f db i :
  Sql.update cond f db !! i
  = (fun r => if cond r then f r else r) <$> db !! i.
Proof. unfold Sql.update. apply list_lookup_fmap. Qed.

Lemma update_length cond f db :
  List.length (Sql.update cond f db) = List.length db.
Proof. unfold Sql.update. apply length_fmap. Qed.

(** An [UPDATE] whose assignment keeps a column keeps it in every row. *)
Lemma update_keeps {A : Type} (proj : match_row -> A) cond f db :
  (forall r, proj (f r) = proj r) ->
  proj <$> Sql.update cond f db = proj <$> db.
Proof.
  intros Hf. unfold Sql.update. rewrite <- list_fmap_compose.
  apply list_fmap_ext. intros _ r _. simpl.
  destruct (cond r); auto.
Qed.

(** With a unique primary key, [UPDATE ... WHERE id = pk] touches the row
    that carries the key and no other. *)
Lemma update_by_pk_at db f i r :
  pk_unique db -> db !! i = Some r ->
  Sql.update (fun r' => match_pk r' =? match_pk r) f db = <[i := f r]> db.
Proof.
  intros Hu Hi. apply list_eq. intros j.
  rewrite update_lookup.
  destruct (decide (j = i)) as [->|Hne].
  - rewrite Hi. simpl. rewrite Z.eqb_refl.
    rewrite list_lookup_insert_eq; [reflexivity |].
    by apply lookup_lt_Some in Hi.
  - rewrite list_lookup_insert_ne by done.
    destruct (db !! j) as [r'|] eqn:Hj; simpl; [|reflexivity].
    destruct (Z.eqb_spec (match_pk r') (match_pk r)) as [Heq|]; [|reflexivity].
    exfalso. apply Hne.
    unfold pk_unique in Hu.
    eapply NoDup_lookup; [exact Hu | |].
    + rewrite list_lookup_fmap, Hj. reflexivity.
    + rewrite list_lookup_fmap, Hi. simpl. by rewrite Heq.
Qed.

Lemma in_lookup (db : list match_row) r :
  In r db -> exists i, db !! i = Some r.
Proof.
  intros H. apply list_elem_of_In in H.
  by apply list_elem_of_lookup in H.
Qed.

(** ** Score alignment *)

Lemma map_scores_by_names player opponent ln rn l r :
  map_scores player opponent ln rn l r false
  = name_based_resolution player opponent ln rn l r.
Proof.
  unfold map_scores, name_based_resolution.
  repeat match goal with
         | |- context [if ?b then _ else _] => destruct b eqn:?; simpl in *
         end; try reflexivity; try discriminate.
Qed.

(** ** The match page *)

(** C9. [fetch_list_html] always returns a value, and it is absent
    whenever the request raised, the response was not OK or the page
    contains the login prompt; a page is returned only for an OK response
    without the prompt, and it is the body of that response. *)
Theorem fetch_list_html_absence net mid s :
  let answer := list_page net (List.length (trace s)) mid in
  let result := fst (fetch_list_html net mid s) in
  (result = None <->
     answer = RequestException
     \/ exists ok body,
         answer = Response ok body
         /\ (ok = false
             \/ PyStr.contains "Please Login" (page_text body) = true))
  /\ (forall html,
         result = Some html <->
           answer = Response true html
           /\ PyStr.contains "Please Login" (page_text html) = false).
Proof.
  cbn zeta. unfold fetch_list_html. cbn [fst].
  destruct (list_page net (List.length (trace s)) mid) as [|ok body];
    cbn [list_html_of].
  - split.
    + split; [left; reflexivity | reflexivity].
    + intros html. split; [discriminate | intros [H _]; discriminate].
  - destruct ok; cbn [negb orb].
    + destruct (PyStr.contains "Please Login" (page_text body)) eqn:Hc.
      * split.
        -- split; [right; exists true, body; auto | reflexivity].
        -- intros html. split; [discriminate |].
           intros [H Hn]. inversion H; subst. congruence.
      * split.
        -- split; [discriminate |].
           intros [H | (ok & b & H & [Hk | Hk])];
             [discriminate | inversion H; subst; discriminate
             | inversion H; subst; congruence].
        -- intros html. split.
           ++ intros H. inversion H; subst. auto.
           ++ intros [H _]. inversion H. reflexivity.
    + split.
      * split; [right; exists false, body; auto | reflexivity].
      * intros html. split; [discriminate | intros [H _]; discriminate].
Qed.

(** Every call of [fetch_list_html] sends exactly one request. *)
Lemma fetch_list_html_trace net mid s :
  trace (snd (fetch_list_html net mid s)) = (trace s ++ [GetList mid])%list.
Proof. reflexivity. Qed.

(** ** Winner detection *)

Lemma scan_winner_none player opponent lines :
  Forall (fun l => is_result_line l = false) lines ->
  scan_winner player opponent lines = None.
Proof.
  induction 1 as [|l ls Hl _ IH]; simpl; [reflexivity |].
  by rewrite Hl.
Qed.

Lemma scan_winner_first player opponent skipped line rest :
  Forall (fun l => is_result_line l = false) skipped ->
  is_result_line line = true ->
  scan_winner player opponent (skipped ++ line :: rest)%list
  = Some (if PyStr.find "Wins" line <? mid_threshold
          then player else opponent).
Proof.
  intros Hs Hl. induction Hs as [|l ls Hn _ IH]; simpl.
  - by rewrite Hl.
  - by rewrite Hn.
Qed.

Lemma detect_winner_last player opponent above line below :
  is_result_line line = true ->
  Forall (fun l => is_result_line l = false) below ->
  detect_winner player opponent (above ++ line :: below)%list
  = Some (if PyStr.find "Wins" line <? mid_threshold
          then player else opponent).
Proof.
  intros Hl Hb. unfold detect_winner.
  rewrite rev_app_distr. simpl. rewrite <- app_assoc. simpl.
  apply scan_winner_first; [|exact Hl].
  apply List.Forall_forall. intros x Hx. apply in_rev in Hx.
  rewrite List.Forall_forall in Hb. by apply Hb.
Qed.

Lemma detect_winner_none player opponent lines :
  Forall (fun l => is_result_line l = false) lines ->
  detect_winner player opponent lines = None.
Proof.
  intros H. unfold detect_winner. apply scan_winner_none.
  apply List.Forall_forall. intros x Hx. apply in_rev in Hx.
  rewrite List.Forall_forall in H. by apply H.
Qed.

(** ** Loops *)

Lemma for_each_preserves {A : Type} (P : state -> Prop) (l : list A)
    (body : A -> state -> state) (s : state) :
  (forall x st, In x l -> P st -> P (body x st)) ->
  P s -> P (for_each l body s).
Proof.
  unfold for_each. revert s.
  induction l as [|x l IH]; intros s Hbody Hs; simpl; [exact Hs |].
  apply IH.
  - intros y st Hy. apply Hbody. by right.
  - apply Hbody; [by left | exact Hs].
Qed.

(** ** Columns that a phase does not write *)

Section ColumnsKept.

Context {A : Type} (proj : match_row -> A).

(** [proj] reads a column other than [match_id], [left_score] and
    [right_score]. *)
Hypothesis proj_match_id : forall v r, proj (set_match_id v r) = proj r.
Hypothesis proj_left_score : forall v r, proj (set_left_score v r) = proj r.
Hypothesis proj_right_score : forall v r, proj (set_right_score v r) = proj r.

Lemma step2_candidate_loop_keeps pk opp cands existing store :
  proj <$> snd (DashboardStep2.candidate_loop pk opp cands existing store)
  = proj <$> store.
Proof.
  induction cands as [|[name ids] rest IH]; simpl; [reflexivity |].
  destruct (negb (same_name name opp)); [exact IH |].
  destruct (Re.py_int ids) as [mid|]; [|exact IH].
  destruct (bool_decide (mid ∈ existing)); [exact IH |].
  simpl. apply update_keeps. intros r. apply proj_match_id.
Qed.

Lemma fill_missing_one_keeps net existing s row :
  proj <$> db (snd (fill_missing_one net (existing, s) row))
  = proj <$> db s.
Proof.
  unfold fill_missing_one.
  pose proof (step2_candidate_loop_keeps (match_pk row) (opponent_name row)
    (user_matches net (List.length (trace s)) (dg_player_id row)) existing
    (db (log_request (GetUser (dg_player_id row)) s))) as H.
  destruct (DashboardStep2.candidate_loop _ _ _ _ _) as [e' d'].
  simpl in *. exact H.
Qed.

Lemma fill_missing_keeps net G needs_refresh s :
  proj <$> db (fill_missing_match_ids net G needs_refresh s) = proj <$> db s.
Proof.
  unfold fill_missing_match_ids.
  destruct needs_refresh; simpl; [|reflexivity].
  generalize (load_existing_match_ids (db s)).
  generalize (Sql.select
                (fun r => in_group G r && is_null (match_id r)) (db s)).
  intros rows.
  assert (Hgen : forall target rows es,
             proj <$> db (snd es) = target ->
             proj <$> db (snd (List.fold_left (fill_missing_one net) rows es))
             = target).
  { clear rows. intros target.
    induction rows as [|row rows IH]; intros [e st] H;
      cbn [List.fold_left]; [exact H |].
    apply IH. rewrite fill_missing_one_keeps. exact H. }
  intros e. apply Hgen. reflexivity.
Qed.

Lemma prefetch_one_db net mid s : db (prefetch_one net mid s) = db s.
Proof. reflexivity. Qed.

Lemma evaluate_one_db entry s : db (evaluate_one entry s) = db s.
Proof.
  destruct entry as [mid [[p o] sw]]. unfold evaluate_one.
  destruct (Dict.mem mid (finished_by_id s)); [reflexivity |].
  destruct (negb (html_truthy (cache_get mid s))); [reflexivity |].
  destruct (cache_get mid s) as [pg|]; [|reflexivity].
  destruct (extract_latest_score pg [p; o]); reflexivity.
Qed.

Lemma check_existing_matches_db net s :
  db (check_existing_matches net s) = db s.
Proof.
  unfold check_existing_matches.
  apply (for_each_preserves (fun st => db st = db s)).
  - intros x st _ H. by rewrite evaluate_one_db.
  - apply (for_each_preserves (fun st => db st = db s)); [|reflexivity].
    intros x st _ H. by rewrite prefetch_one_db.
Qed.

Lemma detect_one_db net entry s : db (detect_one net entry s) = db s.
Proof.
  destruct entry as [mid [p o]]. unfold detect_one.
  destruct (export_lines_of _); [|reflexivity].
  destruct (winner_truthy _); reflexivity.
Qed.

Lemma detect_winners_db net G s : db (detect_winners net G s) = db s.
Proof.
  unfold detect_winners.
  apply (for_each_preserves (fun st => db st = db s)); [|reflexivity].
  intros x st _ H. by rewrite detect_one_db.
Qed.

Lemma update_score_keeps G p o ps os sw store :
  proj <$> snd (update_score_in_db G p o ps os sw store) = proj <$> store.
Proof.
  unfold update_score_in_db.
  destruct (record_of_pairing G p o store) as [row|]; [|reflexivity].
  destruct (is_val (left_score row) 11 || is_val (right_score row) 11);
    [reflexivity |].
  simpl. apply update_keeps. intros r.
  by rewrite proj_right_score, proj_left_score.
Qed.

Lemma store_observation_keeps G p o sw obs store :
  proj <$> store_observation G p o sw obs store = proj <$> store.
Proof.
  unfold store_observation.
  destruct (map_scores _ _ _ _ _ _ _) as [[ps os]|]; [|reflexivity].
  apply update_score_keeps.
Qed.

Lemma refresh_one_keeps net G players entry s :
  proj <$> db (refresh_one net G players entry s) = proj <$> db s.
Proof.
  destruct entry as [mid [[p o] sw]]. unfold refresh_one.
  destruct (match Sql.fetchone _ with Some r => has_eleven r | None => false end);
    [reflexivity |].
  destruct (negb (html_truthy (cache_get mid s))); simpl.
  - destruct (negb (html_truthy _)); [reflexivity |].
    destruct (list_html_of _) as [pg|]; [|reflexivity].
    destruct (extract_latest_score pg players); [|reflexivity].
    simpl. apply store_observation_keeps.
  - destruct (negb (html_truthy _)); [reflexivity |].
    destruct (cache_get mid s) as [pg|]; [|reflexivity].
    destruct (extract_latest_score pg players); [|reflexivity].
    simpl. apply store_observation_keeps.
Qed.

Lemma refresh_scores_keeps net G s :
  proj <$> db (refresh_scores net G s) = proj <$> db s.
Proof.
  unfold refresh_scores.
  apply (for_each_preserves (fun st => proj <$> db st = proj <$> db s));
    [|reflexivity].
  intros x st _ H. by rewrite refresh_one_keeps.
Qed.

(** Everything before Phase 2 keeps the column. *)
Lemma before_commit_keeps net G needs_refresh store :
  proj <$> db (refresh_scores net G
                 (detect_winners net G
                    (check_existing_matches net
                       (set_match_id_to_db
                          (build_match_id_to_db G
                             (db (fill_missing_match_ids net G needs_refresh
                                    (initial_state store))))
                          (fill_missing_match_ids net G needs_refresh
                             (initial_state store))))))
  = proj <$> store.
Proof.
  rewrite refresh_scores_keeps, detect_winners_db, check_existing_matches_db.
  simpl. apply (fill_missing_keeps net G needs_refresh (initial_state store)).
Qed.

End ColumnsKept.

(** ** The intermediate-score write *)

Lemma record_of_pairing_in G p o store r :
  record_of_pairing G p o store = Some r -> exists i, store !! i = Some r.
Proof.
  intros H. apply fetchone_select_some in H as [_ H]. by apply in_lookup.
Qed.

(** The guarded write, when it goes through, replaces the scores of the
    record found and of no other. *)
Lemma update_score_written G p o ps os sw store i r :
  pk_unique store -> store !! i = Some r ->
  record_of_pairing G p o store = Some r -> has_eleven r = false ->
  update_score_in_db G p o ps os sw store
  = (true, <[i := set_right_score (Some os) (set_left_score (Some ps) r)]> store).
Proof.
  intros Hu Hi Hrec H11. unfold update_score_in_db. rewrite Hrec.
  unfold has_eleven in H11. rewrite H11.
  by rewrite (update_by_pk_at store _ i r Hu Hi).
Qed.

Lemma update_score_blocked G p o ps os sw store r :
  record_of_pairing G p o store = Some r -> has_eleven r = true ->
  update_score_in_db G p o ps os sw store = (false, store).
Proof.
  intros Hrec H11. unfold update_score_in_db. rewrite Hrec.
  unfold has_eleven in H11. by rewrite H11.
Qed.

(** A record that shows an 11 survives the guarded write unchanged,
    whichever pairing the write is for. *)
Lemma update_score_keeps_eleven G p o ps os sw store i r :
  pk_unique store -> store !! i = Some r -> has_eleven r = true ->
  snd (update_score_in_db G p o ps os sw store) !! i = Some r.
Proof.
  intros Hu Hi H11.
  destruct (record_of_pairing G p o store) as [row|] eqn:Hrec.
  - destruct (has_eleven row) eqn:Hrow.
    + by rewrite (update_score_blocked _ _ _ _ _ _ _ _ Hrec Hrow).
    + destruct (record_of_pairing_in _ _ _ _ _ Hrec) as [j Hj].
      rewrite (update_score_written _ _ _ _ _ _ _ j row Hu Hj Hrec Hrow).
      simpl. rewrite list_lookup_insert_ne; [exact Hi |].
      intros ->. congruence.
  - unfold update_score_in_db. by rewrite Hrec.
Qed.

Lemma store_observation_keeps_eleven G p o sw obs store i r :
  pk_unique store -> store !! i = Some r -> has_eleven r = true ->
  store_observation G p o sw obs store !! i = Some r.
Proof.
  intros Hu Hi H11. unfold store_observation.
  destruct (map_scores _ _ _ _ _ _ _) as [[ps os]|]; [|exact Hi].
  by apply update_score_keeps_eleven.
Qed.

Lemma refresh_one_keeps_eleven net G players entry s i r :
  pk_unique (db s) -> db s !! i = Some r -> has_eleven r = true ->
  db (refresh_one net G players entry s) !! i = Some r.
Proof.
  intros Hu Hi H11.
  destruct entry as [mid [[p o] sw]]. unfold refresh_one.
  destruct (match Sql.fetchone _ with Some r => has_eleven r | None => false end);
    [exact Hi |].
  destruct (negb (html_truthy (cache_get mid s))); simpl.
  - destruct (negb (html_truthy _)); [exact Hi |].
    destruct (list_html_of _) as [pg|]; [|exact Hi].
    destruct (extract_latest_score pg players); [|exact Hi].
    simpl. by apply store_observation_keeps_eleven.
  - destruct (negb (html_truthy _)); [exact Hi |].
    destruct (cache_get mid s) as [pg|]; [|exact Hi].
    destruct (extract_latest_score pg players); [|exact Hi].
    simpl. by apply store_observation_keeps_eleven.
Qed.

(** The score loop leaves every record that shows an 11 as it is. *)
Lemma refresh_scores_keeps_eleven net G s i r :
  pk_unique (db s) -> db s !! i = Some r -> has_eleven r = true ->
  db (refresh_scores net G s) !! i = Some r.
Proof.
  intros Hu Hi H11. unfold refresh_scores.
  generalize (players_in_matches G (db s)). intros players.
  apply (for_each_preserves
           (fun st => pk_unique (db st) /\ db st !! i = Some r));
    [|by split].
  intros entry st _ [Hu' Hi']. split.
  - unfold pk_unique in *.
    by rewrite (refresh_one_keeps match_pk).
  - by apply refresh_one_keeps_eleven.
Qed.

(** ** The final-result write *)

Lemma is_val_true x n : is_val x n = true <-> x = Some n.
Proof.
  destruct x as [v|]; simpl; [|split; discriminate].
  rewrite Z.eqb_eq. split; congruence.
Qed.

Lemma finalised_refl r : finalised r r.
Proof.
  unfold finalised. destruct r; simpl. repeat split; auto.
Qed.

Lemma finalised_trans r1 r2 r3 :
  finalised r1 r2 -> finalised r2 r3 -> finalised r1 r3.
Proof.
  unfold finalised.
  intros (E1 & L1 & R1 & F1) (E2 & L2 & R2 & F2).
  split.
  - rewrite E2 at 1. rewrite E1 at 1. destruct r1, r2, r3; reflexivity.
  - repeat split.
    + destruct L2 as [->| ->]; auto.
    + destruct R2 as [->| ->]; auto.
    + destruct F2 as [->| ->]; auto.
Qed.

Lemma finalised_write col r :
  finalised r (set_finished true (set_score col (Some 11) r)).
Proof.
  unfold finalised. destruct r, col; simpl; repeat split; auto.
Qed.

Lemma write_final_lookup col mid store i :
  write_final col mid store !! i
  = (fun r => if has_match_id mid r
              then set_finished true (set_score col (Some 11) r) else r)
    <$> store !! i.
Proof. unfold write_final. apply update_lookup. Qed.

(** One Phase 2 step on one row: it is finalised, and untouched when it
    carries another match id. *)
Lemma final_result_step_row mid w store i r :
  store !! i = Some r ->
  exists r', final_result_step mid w store !! i = Some r'
             /\ finalised r r'
             /\ (has_match_id mid r = false -> r' = r).
Proof.
  intros Hi. unfold final_result_step.
  destruct (record_of_match_id mid store) as [row|];
    [|exists r; auto using finalised_refl].
  destruct (winner_column _ _ _ _) as [col|];
    [|exists r; auto using finalised_refl].
  rewrite write_final_lookup, Hi. simpl.
  destruct (has_match_id mid r) eqn:Hm.
  - eexists; split; [reflexivity |]. split; [apply finalised_write | discriminate].
  - exists r; auto using finalised_refl.
Qed.

Lemma final_result_step_match_id mid w store :
  match_id <$> final_result_step mid w store = match_id <$> store.
Proof.
  unfold final_result_step.
  destruct (record_of_match_id mid store) as [row|]; [|reflexivity].
  destruct (winner_column _ _ _ _) as [col|]; [|reflexivity].
  unfold write_final. apply update_keeps. intros r. by destruct r, col.
Qed.

(** The whole of Phase 2 on one row. *)
Lemma final_results_row fb store i r :
  store !! i = Some r ->
  exists r', final_results fb store !! i = Some r'
             /\ finalised r r'
             /\ (Forall (fun kv => has_match_id (fst kv) r = false) fb ->
                 r' = r).
Proof.
  unfold final_results. revert store r.
  induction fb as [|[mid w] fb IH]; intros store r Hi; simpl.
  - exists r; auto using finalised_refl.
  - destruct (final_result_step_row mid w store i r Hi) as (r1 & H1 & F1 & U1).
    destruct (IH _ _ H1) as (r2 & H2 & F2 & U2).
    exists r2. split; [exact H2 |].
    split; [by eapply finalised_trans |].
    intros Hall. inversion Hall as [|? ? Hhd Htl]; subst. simpl in Hhd.
    specialize (U1 Hhd). subst r1. by apply U2.
Qed.

(** C1 (amended). When the winner name Phase 2 holds equals one of the
    record's two side names, one write sets one score column to exactly 11
    and [finished] to true; the column follows the record's switched
    flag: for the player's name it is [left_score] when the flag is false
    and [right_score] when it is true, for the opponent's name
    [right_score] when the flag is false and [left_score] when it is
    true.  A winner name that is neither side's leaves the store
    unchanged. [update_match_score_in_db] without a group does the same. *)
Theorem final_result_column mid winner_name store i r :
  store !! i = Some r ->
  record_of_match_id mid store = Some r ->
  (winner_name = player_name r -> switched_flag r = false ->
   final_result_step mid winner_name store !! i
   = Some (set_finished true (set_left_score (Some 11) r)))
  /\ (winner_name = player_name r -> switched_flag r = true ->
      final_result_step mid winner_name store !! i
      = Some (set_finished true (set_right_score (Some 11) r)))
  /\ (winner_name <> player_name r -> winner_name = opponent_name r ->
      switched_flag r = false ->
      final_result_step mid winner_name store !! i
      = Some (set_finished true (set_right_score (Some 11) r)))
  /\ (winner_name <> player_name r -> winner_name = opponent_name r ->
      switched_flag r = true ->
      final_result_step mid winner_name store !! i
      = Some (set_finished true (set_left_score (Some 11) r)))
  /\ (winner_name <> player_name r -> winner_name <> opponent_name r ->
      final_result_step mid winner_name store = store)
  /\ update_match_score_in_db mid winner_name None store
     = final_result_step mid winner_name store.
Proof.
  intros Hi Hrec.
  assert (Hm : has_match_id mid r = true)
    by (apply fetchone_select_some in Hrec; tauto).
  unfold final_result_step, update_match_score_in_db. rewrite Hrec.
  unfold winner_column.
  repeat split.
  - intros -> ->. rewrite String.eqb_refl. simpl.
    by rewrite write_final_lookup, Hi; simpl; rewrite Hm.
  - intros -> ->. rewrite String.eqb_refl. simpl.
    by rewrite write_final_lookup, Hi; simpl; rewrite Hm.
  - intros Hp -> ->. apply String.eqb_neq in Hp. rewrite Hp.
    rewrite String.eqb_refl. simpl.
    by rewrite write_final_lookup, Hi; simpl; rewrite Hm.
  - intros Hp -> ->. apply String.eqb_neq in Hp. rewrite Hp.
    rewrite String.eqb_refl. simpl.
    by rewrite write_final_lookup, Hi; simpl; rewrite Hm.
  - intros Hp Ho. apply String.eqb_neq in Hp, Ho. by rewrite Hp, Ho.
Qed.

Lemma final_result_column_witness :
  [Sample.switched_row] !! 0%nat = Some Sample.switched_row
  /\ record_of_match_id 1 [Sample.switched_row] = Some Sample.switched_row
  /\ final_result_step 1 "Alice" [Sample.switched_row] !! 0%nat
     = Some (set_finished true (set_right_score (Some 11) Sample.switched_row)).
Proof.
  split; [reflexivity |]. split; [reflexivity |].
  exact (proj1 (proj2 (final_result_column 1 "Alice" [Sample.switched_row]
                         0 Sample.switched_row eq_refl eq_refl))
           eq_refl eq_refl).
Defined.

(** C1 as stated fails on a switched record: Alice is the record's player
    and the winner, yet her column [left_score] keeps 4 and Bob's column
    [right_score] receives the 11. *)
Lemma final_result_on_switched_record :
  record_of_match_id 1 [Sample.switched_row] = Some Sample.switched_row
  /\ player_name Sample.switched_row = "Alice"
  /\ switched_flag Sample.switched_row = true
  /\ detect_winner "Alice" "Bob" Sample.won_export = Some "Alice"
  /\ final_result_step 1 "Alice" [Sample.switched_row]
     = [MatchRow 10 1 (Some 100) "Alice" "Bob" (Some 1) (Some 4) (Some 11)
          true true]
  /\ db (sync_run Sample.deciding_server 1 false [Sample.switched_row])
     = [MatchRow 10 1 (Some 100) "Alice" "Bob" (Some 1) (Some 4) (Some 11)
          true true]
  /\ ~ (forall r', final_result_step 1 "Alice" [Sample.switched_row] !! 0%nat
                   = Some r' -> left_score r' = Some 11).
Proof.
  do 6 (split; [vm_compute; reflexivity |]).
  intros H. specialize (H _ eq_refl). discriminate H.
Qed.

(** ** Non-regression *)


Lemma kept_column_lookup {A : Type} (proj : match_row -> A)
    (d1 d2 : list match_row) i r :
  proj <$> d1 = proj <$> d2 -> d2 !! i = Some r ->
  exists r1, d1 !! i = Some r1 /\ proj r1 = proj r.
Proof.
  intros Heq Hi.
  assert (H : (proj <$> d1) !! i = Some (proj r))
    by (rewrite Heq, list_lookup_fmap, Hi; reflexivity).
  rewrite list_lookup_fmap in H.
  destruct (d1 !! i) as [r1|]; [|discriminate].
  exists r1. split; [reflexivity |]. simpl in H. congruence.
Qed.





(** ** Mapping and writing an observation *)

(** A narrower query returns the same first row when that row passes
    it. *)
Lemma find_narrower (c c' : match_row -> bool) l r :
  List.find c l = Some r -> c' r = true ->
  (forall x, c' x = true -> c x = true) ->
  List.find c' l = Some r.
Proof.
  intros Hf Hr Himp. induction l as [|x l IH]; simpl in *; [discriminate |].
  destruct (c x) eqn:Hc.
  - inversion Hf; subst. by rewrite Hr.
  - destruct (c' x) eqn:Hc'; [|by apply IH].
    apply Himp in Hc'. congruence.
Qed.

(** An iteration of the score loop for an open record with a cached page
    and a score row on it ends in the mapping and the write. *)
Lemma refresh_one_stores net G players mid p o sw s pg obs r :
  record_of_pairing G p o (db s) = Some r ->
  match_id r = Some mid -> has_eleven r = false ->
  cache_get mid s = Some pg -> PyStr.truthy (page_text pg) = true ->
  extract_latest_score pg players = Some obs ->
  db (refresh_one net G players (mid, (p, o, sw)) s)
  = store_observation G p o sw obs (db s).
Proof.
  intros Hrec Hm H11 Hc Ht He. unfold refresh_one.
  assert (Hrow : Sql.fetchone
                   (Sql.select (fun r0 => has_match_id mid r0
                                          && is_pairing p o r0
                                          && in_group G r0) (db s))
                 = Some r).
  { unfold record_of_pairing in Hrec.
    rewrite fetchone_select_find in *.
    eapply find_narrower; [exact Hrec | |].
    - apply List.find_some in Hrec as [_ Hr].
      unfold has_match_id, in_group. rewrite Hm. simpl. rewrite Z.eqb_refl.
      simpl. exact Hr.
    - intros x Hx. unfold in_group in Hx.
      apply andb_prop in Hx as [Hx Hg]. apply andb_prop in Hx as [_ Hx].
      by rewrite Hx, Hg. }
  rewrite Hrow, H11, Hc. cbn [html_truthy]. rewrite Ht. cbn [negb].
  cbn [html_truthy]. rewrite Ht. cbn [negb]. by rewrite He.
Qed.

(** ** Orientation *)

Lemma dict_get_set_eq {V : Type} k (v : V) d :
  Dict.get k (Dict.set k v d) = Some v.
Proof.
  induction d as [|[k' v'] d IH]; simpl.
  - by rewrite Z.eqb_refl.
  - destruct (Z.eqb_spec k k') as [->|Hne]; simpl.
    + by rewrite Z.eqb_refl.
    + destruct (Z.eqb_spec k k'); [contradiction | exact IH].
Qed.

Lemma dict_get_set_ne {V : Type} k k' (v : V) d :
  k <> k' -> Dict.get k (Dict.set k' v d) = Dict.get k d.
Proof.
  intros Hne. induction d as [|[k2 v2] d IH]; simpl.
  - destruct (Z.eqb_spec k k'); [contradiction | reflexivity].
  - destruct (Z.eqb_spec k' k2) as [->|Hne2]; simpl.
    + destruct (Z.eqb_spec k k2); [contradiction | reflexivity].
    + destruct (Z.eqb_spec k k2); [reflexivity | exact IH].
Qed.

(** Without a score row Step 1 leaves the entry, and so the stored flag
    it was built from, in place. *)
Lemma evaluate_one_without_observation mid player opponent switched s :
  (forall pg, cache_get mid s = Some pg ->
              PyStr.truthy (page_text pg) = true ->
              extract_latest_score pg [player; opponent] = None) ->
  evaluate_one (mid, (player, opponent, switched)) s = s.
Proof.
  intros H. unfold evaluate_one.
  destruct (Dict.mem mid (finished_by_id s)); [reflexivity |].
  destruct (cache_get mid s) as [pg|] eqn:Hc; simpl; [|reflexivity].
  destruct (PyStr.truthy (page_text pg)) eqn:Ht; simpl; [|reflexivity].
  by rewrite (H pg eq_refl Ht).
Qed.

(** ** Identifier discovery *)

Lemma load_existing_covers store : covers (load_existing_match_ids store) store.
Proof.
  intros r mid Hr Hm. unfold load_existing_match_ids.
  apply elem_of_list_to_set, list_elem_of_omap. eauto.
Qed.

(** Attaching an id to rows and adding it to the set keeps the set
    covering the store. *)
Lemma covers_attach existing store cond f mid :
  covers existing store ->
  (forall r, match_id (f r) = Some mid) ->
  covers ({[mid]} ∪ existing) (Sql.update cond f store).
Proof.
  intros Hc Hf r m Hr Hm. unfold Sql.update in Hr.
  apply list_elem_of_fmap in Hr as (r0 & -> & Hr0).
  destruct (cond r0).
  - rewrite Hf in Hm. set_solver.
  - specialize (Hc r0 m Hr0 Hm). set_solver.
Qed.

Lemma find_loop_all_passed_over do_commit pk p o cands existing store :
  Forall (passed_over existing p o) cands ->
  FindMatchIds.candidate_loop do_commit pk p o cands existing store
  = (false, existing, store).
Proof.
  induction 1 as [|[name ids] cands Hc _ IH]; simpl; [reflexivity |].
  unfold passed_over in Hc. simpl in Hc.
  destruct (Re.py_int ids) as [mid|]; [|exact IH].
  destruct (decide (mid ∈ existing)) as [Hin|Hnin].
  - by rewrite bool_decide_eq_true_2.
  - rewrite bool_decide_eq_false_2 by done.
    destruct Hc as [Hin | [Ho Hp]]; [contradiction |].
    by rewrite Ho, Hp.
Qed.

Lemma find_loop_first_acceptable pk p o skipped name ids rest mid existing store :
  Forall (passed_over existing p o) skipped ->
  Re.py_int ids = Some mid -> mid ∉ existing ->
  same_name name o = true \/ same_name name p = true ->
  FindMatchIds.candidate_loop true pk p o
    (skipped ++ (name, ids) :: rest)%list existing store
  = (true, {[mid]} ∪ existing,
     Sql.update (fun r => match_pk r =? pk)
       (fun r => set_switched_flag (negb (same_name name o))
                   (set_match_id (Some mid) r)) store).
Proof.
  intros Hs Hid Hnin Hname.
  induction Hs as [|[n0 i0] skipped Hc _ IH]; simpl.
  - rewrite Hid. rewrite bool_decide_eq_false_2 by done.
    destruct (same_name name o) eqn:Ho; simpl; [reflexivity |].
    destruct Hname as [Hname|Hname]; [discriminate |].
    by rewrite Hname.
  - unfold passed_over in Hc. simpl in Hc.
    destruct (Re.py_int i0) as [m0|]; [|exact IH].
    destruct (decide (m0 ∈ existing)) as [Hin|Hn0].
    + by rewrite bool_decide_eq_true_2.
    + rewrite bool_decide_eq_false_2 by done.
      destruct Hc as [Hin | [Ho Hp]]; [contradiction |].
      by rewrite Ho, Hp.
Qed.

Lemma step2_loop_all_passed_over pk o cands existing store :
  Forall (passed_over_step2 existing o) cands ->
  DashboardStep2.candidate_loop pk o cands existing store = (existing, store).
Proof.
  induction 1 as [|[name ids] cands Hc _ IH]; simpl; [reflexivity |].
  unfold passed_over_step2 in Hc. simpl in Hc.
  destruct (same_name name o) eqn:Ho; simpl; [|exact IH].
  destruct Hc as [Hc|Hc]; [discriminate |].
  destruct (Re.py_int ids) as [mid|]; [|exact IH].
  by rewrite bool_decide_eq_true_2.
Qed.

Lemma step2_loop_first_acceptable pk o skipped name ids rest mid existing store :
  Forall (passed_over_step2 existing o) skipped ->
  same_name name o = true ->
  Re.py_int ids = Some mid -> mid ∉ existing ->
  DashboardStep2.candidate_loop pk o
    (skipped ++ (name, ids) :: rest)%list existing store
  = ({[mid]} ∪ existing,
     Sql.update (fun r => match_pk r =? pk) (set_match_id (Some mid)) store).
Proof.
  intros Hs Hname Hid Hnin.
  induction Hs as [|[n0 i0] skipped Hc _ IH]; simpl.
  - rewrite Hname, Hid. simpl. by rewrite bool_decide_eq_false_2.
  - unfold passed_over_step2 in Hc. simpl in Hc.
    destruct (same_name n0 o) eqn:Ho; simpl; [|exact IH].
    destruct Hc as [Hc|Hc]; [discriminate |].
    destruct (Re.py_int i0) as [m0|]; [|exact IH].
    by rewrite bool_decide_eq_true_2.
Qed.

(** Throughout [process_groups] the set [existing_match_ids] holds every
    remote id attached in the store, so an id attached to any record,
    before or during the run, makes a candidate pass. *)
Lemma find_loop_covers do_commit pk p o cands existing store :
  covers existing store ->
  covers (snd (fst (FindMatchIds.candidate_loop do_commit pk p o cands
                      existing store)))
    (snd (FindMatchIds.candidate_loop do_commit pk p o cands existing store)).
Proof.
  intros Hc. induction cands as [|[name ids] cands IH]; simpl; [exact Hc |].
  destruct (Re.py_int ids) as [mid|]; [|exact IH].
  destruct (bool_decide (mid ∈ existing)); [exact IH |].
  destruct (if same_name name o then Some false
            else if same_name name p then Some true else None) as [sw|];
    [|exact IH].
  destruct do_commit; simpl; [|exact Hc].
  apply covers_attach; [exact Hc |]. intros r. by destruct r.
Qed.

Lemma process_groups_covers net do_commit groups store :
  covers (fst (fst (FindMatchIds.process_groups net do_commit groups store)))
    (snd (fst (FindMatchIds.process_groups net do_commit groups store))).
Proof.
  unfold FindMatchIds.process_groups.
  assert (Hrow : forall rows acc,
             covers (fst (fst acc)) (snd (fst acc)) ->
             covers
               (fst (fst (List.fold_left
                            (FindMatchIds.process_missing net do_commit)
                            rows acc)))
               (snd (fst (List.fold_left
                            (FindMatchIds.process_missing net do_commit)
                            rows acc)))).
  { induction rows as [|row rows IH]; intros [[e d] t] H;
      cbn [List.fold_left]; [exact H |].
    apply IH. unfold FindMatchIds.process_missing.
    destruct (dg_player_id row) as [pid|]; [|exact H].
    pose proof (find_loop_covers do_commit (match_pk row) (player_name row)
                  (opponent_name row)
                  (user_matches net (List.length t) (Some pid)) e d H) as Hc.
    destruct (FindMatchIds.candidate_loop _ _ _ _ _ _ _) as [[b e'] d'].
    exact Hc. }
  assert (Hgrp : forall gs acc,
             covers (fst (fst acc)) (snd (fst acc)) ->
             covers
               (fst (fst (List.fold_left
                            (FindMatchIds.process_group net do_commit) gs acc)))
               (snd (fst (List.fold_left
                            (FindMatchIds.process_group net do_commit) gs acc)))).
  { induction gs as [|g gs IH]; intros acc H; cbn [List.fold_left];
      [exact H |].
    apply IH. unfold FindMatchIds.process_group. by apply Hrow. }
  apply Hgrp. apply load_existing_covers.
Qed.

(** C5 (amended). For a record without a remote id, with the set of
    attached ids covering the store: [find_match_ids2.py] passes over a
    candidate whose id is attached to any record or whose opponent name is
    neither side's name (compared stripped, in lower case), and on the
    first other candidate sets the remote id and the switched flag in one
    write, false when the name is side B's and true when it is only
    side A's, and looks no further.  Step 2 of the dashboard script passes
    over every candidate whose name is not side B's, and on the first
    other candidate with a free id writes the remote id alone, leaving the
    switched flag as stored. *)
Theorem discovery_first_match_wins skipped name ids rest mid existing store i r :
  pk_unique store -> store !! i = Some r -> match_id r = None ->
  covers existing store ->
  Re.py_int ids = Some mid -> mid ∉ existing ->
  (Forall (passed_over existing (player_name r) (opponent_name r)) skipped ->
   same_name name (opponent_name r) = true
   \/ same_name name (player_name r) = true ->
   FindMatchIds.candidate_loop true (match_pk r) (player_name r)
     (opponent_name r) (skipped ++ (name, ids) :: rest)%list existing store
   = (true, {[mid]} ∪ existing,
      <[i := set_switched_flag (negb (same_name name (opponent_name r)))
               (set_match_id (Some mid) r)]> store))
  /\ (Forall (passed_over_step2 existing (opponent_name r)) skipped ->
      same_name name (opponent_name r) = true ->
      DashboardStep2.candidate_loop (match_pk r) (opponent_name r)
        (skipped ++ (name, ids) :: rest)%list existing store
      = ({[mid]} ∪ existing, <[i := set_match_id (Some mid) r]> store))
  /\ (forall cands do_commit,
         Forall (passed_over existing (player_name r) (opponent_name r)) cands ->
         FindMatchIds.candidate_loop do_commit (match_pk r) (player_name r)
           (opponent_name r) cands existing store
         = (false, existing, store))
  /\ (forall cands,
         Forall (passed_over_step2 existing (opponent_name r)) cands ->
         DashboardStep2.candidate_loop (match_pk r) (opponent_name r) cands
           existing store
         = (existing, store))
  /\ (forall cand m r',
         r' ∈ store -> match_id r' = Some m -> Re.py_int (snd cand) = Some m ->
         passed_over existing (player_name r) (opponent_name r) cand
         /\ passed_over_step2 existing (opponent_name r) cand)
  /\ (forall cand,
         same_name (fst cand) (opponent_name r) = false ->
         (same_name (fst cand) (player_name r) = false ->
          passed_over existing (player_name r) (opponent_name r) cand)
         /\ passed_over_step2 existing (opponent_name r) cand)
  /\ (forall sw,
         covers ({[mid]} ∪ existing)
           (<[i := set_switched_flag sw (set_match_id (Some mid) r)]> store)).
Proof.
  intros Hu Hi Hnone Hcov Hid Hnin.
  split; [|split; [|split; [|split; [|split; [|split]]]]].
  - intros Hs Hname.
    rewrite (find_loop_first_acceptable _ _ _ _ _ _ _ mid _ _ Hs Hid Hnin Hname).
    by rewrite (update_by_pk_at store _ i r Hu Hi).
  - intros Hs Hname.
    rewrite (step2_loop_first_acceptable _ _ _ _ _ _ mid _ _ Hs Hname Hid Hnin).
    by rewrite (update_by_pk_at store _ i r Hu Hi).
  - intros cands dc Hall. by apply find_loop_all_passed_over.
  - intros cands Hall. by apply step2_loop_all_passed_over.
  - intros cand m r' Hr' Hm Hp.
    unfold passed_over, passed_over_step2. rewrite Hp.
    split; [left | right]; by eapply Hcov.
  - intros cand Ho. split.
    + intros Hp. unfold passed_over.
      destruct (Re.py_int (snd cand)); [right |]; done.
    + by left.
  - intros sw.
    rewrite <- (update_by_pk_at store
                  (fun r0 => set_switched_flag sw (set_match_id (Some mid) r0))
                  i r Hu Hi).
    by apply covers_attach.
Qed.

Lemma discovery_first_match_wins_witness :
  pk_unique [Sample.unmatched_row; Sample.attached_row]
  /\ match_id Sample.unmatched_row = None
  /\ Re.py_int "12345" = Some 12345
  /\ Forall (passed_over
               (load_existing_match_ids
                  [Sample.unmatched_row; Sample.attached_row]) "Alice" "Bob")
       [("Carol", "777"); ("bob ", "1")]
  /\ same_name " BOB" "Bob" = true
  /\ FindMatchIds.candidate_loop true 10 "Alice" "Bob" Sample.candidates_mixed
       (load_existing_match_ids [Sample.unmatched_row; Sample.attached_row])
       [Sample.unmatched_row; Sample.attached_row]
     = (true,
        {[12345]} ∪ load_existing_match_ids
                      [Sample.unmatched_row; Sample.attached_row],
        [MatchRow 10 1 (Some 100) "Alice" "Bob" (Some 12345) None None
           false false;
         Sample.attached_row]).
Proof.
  assert (Hu : pk_unique [Sample.unmatched_row; Sample.attached_row]).
  { unfold pk_unique. simpl. apply NoDup_cons. split; [|apply NoDup_singleton].
    intros H. apply list_elem_of_singleton in H. lia. }
  assert (Hnin : 12345 ∉ load_existing_match_ids
                            [Sample.unmatched_row; Sample.attached_row]).
  { apply (bool_decide_unpack _). vm_compute. exact I. }
  assert (Hs : Forall (passed_over
                         (load_existing_match_ids
                            [Sample.unmatched_row; Sample.attached_row])
                         "Alice" "Bob")
                 [("Carol", "777"); ("bob ", "1")]).
  { constructor; [|constructor; [|constructor]];
      unfold passed_over; cbn [fst snd].
    - replace (Re.py_int "777") with (Some 777) by reflexivity.
      right. split; reflexivity.
    - replace (Re.py_int "1") with (Some 1) by reflexivity.
      left. unfold load_existing_match_ids. simpl. set_solver. }
  split; [exact Hu |]. split; [reflexivity |]. split; [reflexivity |].
  split; [exact Hs |]. split; [reflexivity |].
  exact (proj1 (discovery_first_match_wins
                  [("Carol", "777"); ("bob ", "1")] " BOB" "12345"
                  [("Bob", "999")] 12345
                  (load_existing_match_ids
                     [Sample.unmatched_row; Sample.attached_row])
                  [Sample.unmatched_row; Sample.attached_row] 0
                  Sample.unmatched_row Hu eq_refl eq_refl
                  (load_existing_covers _) eq_refl Hnin)
           Hs (or_introl eq_refl)).
Defined.

(** C5 as stated fails in Step 2 of the dashboard script: a candidate
    with a free id whose name is side A's is passed over, where
    [find_match_ids2.py] attaches the id and marks the record switched;
    and for a candidate named as side B Step 2 writes the id but not the
    switched flag. *)
Lemma step2_passes_over_side_a_candidate :
  same_name "Alice" (player_name Sample.unmatched_row) = true
  /\ DashboardStep2.candidate_loop 10 "Bob" Sample.candidates_naming_side_a
       (load_existing_match_ids [Sample.unmatched_row]) [Sample.unmatched_row]
     = (load_existing_match_ids [Sample.unmatched_row], [Sample.unmatched_row])
  /\ db (sync_run Sample.side_a_feed_server 1 true [Sample.unmatched_row])
     = [Sample.unmatched_row]
  /\ snd (FindMatchIds.candidate_loop true 10 "Alice" "Bob"
            Sample.candidates_naming_side_a
            (load_existing_match_ids [Sample.unmatched_row])
            [Sample.unmatched_row])
     = [MatchRow 10 1 (Some 100) "Alice" "Bob" (Some 12345) None None
          true false]
  /\ snd (DashboardStep2.candidate_loop 10 "Bob" [("Bob", "12345")]
            (load_existing_match_ids [set_match_id None Sample.switched_row])
            [set_match_id None Sample.switched_row])
     = [set_match_id (Some 12345) Sample.switched_row].
Proof. repeat split; vm_compute; reflexivity. Qed.

(** ** Requests *)

(** C7 (failing run). When the match page of id 1 cannot be fetched, one
    run requests it twice, in the prefetch of Step 1 and again in the
    score loop, and requests the export page of the same id besides; when
    the page can be fetched the run still sends two requests for the id,
    one for the page and one for the export. *)
Theorem match_page_requested_again :
  trace (sync_run Sample.failing_server 1 false [Sample.plain_row])
  = [GetList 1; GetExport 1; GetList 1]
  /\ count_requests (is_list_request 1)
       (trace (sync_run Sample.failing_server 1 false [Sample.plain_row]))
     = 2%nat
  /\ count_requests (is_match_request 1)
       (trace (sync_run Sample.failing_server 1 false [Sample.plain_row]))
     = 3%nat
  /\ trace (sync_run Sample.answering_server 1 false [Sample.plain_row])
     = [GetList 1; GetExport 1].
Proof. repeat split; vm_compute; reflexivity. Qed.

(** ** Winners and the finished flag *)

Lemma dict_mem_set_ne {V : Type} k k' (v : V) d :
  k <> k' -> Dict.mem k (Dict.set k' v d) = Dict.mem k d.
Proof. intros H. unfold Dict.mem. by rewrite dict_get_set_ne. Qed.

Lemma dict_mem_false_keys {V : Type} k (d : list (Z * V)) :
  Dict.mem k d = false -> Forall (fun kv => fst kv <> k) d.
Proof.
  unfold Dict.mem. induction d as [|[k' v'] d IH]; simpl; intros H;
    [constructor |].
  destruct (Z.eqb_spec k k') as [->|Hne]; [discriminate |].
  constructor; [simpl; congruence | by apply IH].
Qed.

Lemma fill_missing_finished_by_id net G needs_refresh s :
  finished_by_id (fill_missing_match_ids net G needs_refresh s)
  = finished_by_id s.
Proof.
  unfold fill_missing_match_ids.
  destruct needs_refresh; simpl; [|reflexivity].
  generalize (load_existing_match_ids (db s)).
  generalize (Sql.select
                (fun r => in_group G r && is_null (match_id r)) (db s)).
  intros rows. revert s.
  induction rows as [|row rows IH]; intros s e; cbn [List.fold_left];
    [reflexivity |].
  unfold fill_missing_one at 2.
  destruct (DashboardStep2.candidate_loop _ _ _ _ _) as [e' d'].
  by rewrite IH.
Qed.

Lemma check_existing_finished_by_id net s :
  finished_by_id (check_existing_matches net s) = finished_by_id s.
Proof.
  unfold check_existing_matches.
  apply (for_each_preserves (fun st => finished_by_id st = finished_by_id s)).
  - intros [mid [[p o] sw]] st _ H. rewrite <- H. unfold evaluate_one.
    destruct (Dict.mem mid (finished_by_id st)); [reflexivity |].
    destruct (negb (html_truthy (cache_get mid st))); [reflexivity |].
    destruct (cache_get mid st) as [pg|]; [|reflexivity].
    destruct (extract_latest_score pg [p; o]); reflexivity.
  - apply (for_each_preserves (fun st => finished_by_id st = finished_by_id s));
      [|reflexivity].
    intros x st _ H. exact H.
Qed.

Lemma refresh_scores_finished_by_id net G s :
  finished_by_id (refresh_scores net G s) = finished_by_id s.
Proof.
  unfold refresh_scores.
  apply (for_each_preserves (fun st => finished_by_id st = finished_by_id s));
    [|reflexivity].
  intros [mid [[p o] sw]] st _ H. rewrite <- H. unfold refresh_one.
  destruct (match Sql.fetchone _ with Some r => has_eleven r | None => false end);
    [reflexivity |].
  destruct (negb (html_truthy (cache_get mid st))); simpl.
  - destruct (negb (html_truthy _)); [reflexivity |].
    destruct (list_html_of _) as [pg|]; [|reflexivity].
    destruct (extract_latest_score pg _); reflexivity.
  - destruct (negb (html_truthy _)); [reflexivity |].
    destruct (cache_get mid st) as [pg|]; [|reflexivity].
    destruct (extract_latest_score pg _); reflexivity.
Qed.

(** Phase 1 records no winner for a match whose export has no result
    line. *)
Lemma detect_winners_no_result_line net G mid s :
  no_result_line net mid ->
  Dict.mem mid (finished_by_id s) = false ->
  Dict.mem mid (finished_by_id (detect_winners net G s)) = false.
Proof.
  intros Hno H0. unfold detect_winners.
  apply (for_each_preserves
           (fun st => Dict.mem mid (finished_by_id st) = false));
    [|exact H0].
  intros [k [p o]] st _ Hst. unfold detect_one.
  destruct (export_lines_of (export_page net (List.length (trace st)) k))
    as [text_lines|] eqn:He; [|exact Hst].
  destruct (winner_truthy (detect_winner p o text_lines)) as [w|] eqn:Hw;
    [|exact Hst].
  cbn [finished_by_id set_finished_by_id log_request].
  destruct (decide (mid = k)) as [->|Hne].
  - exfalso. specialize (Hno (List.length (trace st))). rewrite He in Hno.
    rewrite (detect_winner_none _ _ _ Hno) in Hw. discriminate Hw.
  - by rewrite dict_mem_set_ne.
Qed.

Lemma finalised_match_id r r' : finalised r r' -> match_id r' = match_id r.
Proof. intros [E _]. rewrite E. by destruct r. Qed.

(** In one run a record whose match has no result line in its export
    keeps its [finished] flag. *)
Lemma open_match_not_finished net G needs_refresh store mid i r' :
  no_result_line net mid ->
  db (sync_run net G needs_refresh store) !! i = Some r' ->
  match_id r' = Some mid ->
  exists r0, store !! i = Some r0 /\ finished r' = finished r0.
Proof.
  intros Hno Hi Hm. unfold sync_run, commit_final_results in Hi.
  cbn [db set_db] in Hi.
  set (s0 := fill_missing_match_ids net G needs_refresh (initial_state store))
    in *.
  set (s1 := set_match_id_to_db (build_match_id_to_db G (db s0)) s0) in *.
  set (s2 := check_existing_matches net s1) in *.
  set (s3 := detect_winners net G s2) in *.
  set (s4 := refresh_scores net G s3) in *.
  assert (Hfb : Dict.mem mid (finished_by_id s4) = false).
  { unfold s4. rewrite refresh_scores_finished_by_id.
    apply detect_winners_no_result_line; [exact Hno |].
    unfold s2. rewrite check_existing_finished_by_id.
    unfold s1. cbn [finished_by_id set_match_id_to_db].
    unfold s0. by rewrite fill_missing_finished_by_id. }
  assert (Hlen : finished <$> db s4 = finished <$> store).
  { apply (before_commit_keeps finished); intros v r; by destruct r. }
  destruct (db s4 !! i) as [r4|] eqn:H4.
  - destruct (final_results_row (finished_by_id s4) (db s4) i r4 H4)
      as (r'' & Hr'' & Hfin & Hsame).
    rewrite Hi in Hr''. inversion Hr''; subst r''.
    assert (Hm4 : match_id r4 = Some mid)
      by (rewrite <- (finalised_match_id _ _ Hfin); exact Hm).
    assert (r' = r4) as ->.
    { apply Hsame. apply dict_mem_false_keys in Hfb.
      eapply Forall_impl; [exact Hfb |].
      intros [k w] Hk. simpl in *. unfold has_match_id. rewrite Hm4. simpl.
      apply Z.eqb_neq. congruence. }
    assert (Hl : (finished <$> db s4) !! i = Some (finished r4))
      by (rewrite list_lookup_fmap, H4; reflexivity).
    rewrite Hlen, list_lookup_fmap in Hl.
    destruct (store !! i) as [r0|]; [|discriminate].
    exists r0. split; [reflexivity |]. simpl in Hl. congruence.
  - exfalso.
    destruct (final_results (finished_by_id s4) (db s4) !! i) eqn:Hf;
      [|congruence].
    apply lookup_lt_Some in Hf. apply lookup_ge_None in H4.
    assert (Hlf : forall fb d, List.length (final_results fb d) = List.length d).
    { unfold final_results. induction fb as [|[k w] fb IH]; intros d; simpl;
        [reflexivity |].
      rewrite IH. unfold final_result_step.
      destruct (record_of_match_id k d); [|reflexivity].
      destruct (winner_column _ _ _ _); [|reflexivity].
      apply update_length. }
    rewrite Hlf in Hf. lia.
Qed.

(** C8. Reading the export lines from bottom to top, the first line that
    contains both [and the match] and [Wins] decides: the winner is the
    record's player when [Wins] starts strictly left of column 24 and the
    opponent otherwise.  Without such a line no winner is returned, and
    the run then leaves the [finished] flag of the record as it was. *)
Theorem winner_from_last_result_line player opponent above line below :
  is_result_line line = true ->
  Forall (fun l => is_result_line l = false) below ->
  mid_threshold = 24
  /\ (PyStr.find "Wins" line < mid_threshold ->
      detect_winner player opponent (above ++ line :: below)%list
      = Some player)
  /\ (mid_threshold <= PyStr.find "Wins" line ->
      detect_winner player opponent (above ++ line :: below)%list
      = Some opponent)
  /\ (forall text_lines,
         Forall (fun l => is_result_line l = false) text_lines ->
         detect_winner player opponent text_lines = None)
  /\ (forall net G needs_refresh store mid i r',
         no_result_line net mid ->
         db (sync_run net G needs_refresh store) !! i = Some r' ->
         match_id r' = Some mid ->
         exists r0, store !! i = Some r0 /\ finished r' = finished r0).
Proof.
  intros Hl Hb. split; [reflexivity |].
  split; [|split; [|split]].
  - intros Hpos. rewrite (detect_winner_last _ _ _ _ _ Hl Hb).
    destruct (Z.ltb_spec (PyStr.find "Wins" line) mid_threshold);
      [reflexivity | lia].
  - intros Hpos. rewrite (detect_winner_last _ _ _ _ _ Hl Hb).
    destruct (Z.ltb_spec (PyStr.find "Wins" line) mid_threshold);
      [lia | reflexivity].
  - intros text_lines. apply detect_winner_none.
  - intros net G nr store mid i r'. apply open_match_not_finished.
Qed.

Lemma winner_from_last_result_line_witness :
  is_result_line " Wins 1 point and the match" = true
  /\ Forall (fun l => is_result_line l = false) [""]
  /\ PyStr.find "Wins" " Wins 1 point and the match" = 1
  /\ detect_winner "Alice" "Bob" Sample.won_export = Some "Alice".
Proof.
  assert (Hb : Forall (fun l => is_result_line l = false) [""])
    by (constructor; [reflexivity | constructor]).
  split; [reflexivity |]. split; [exact Hb |]. split; [reflexivity |].
  refine (proj1 (proj2 (winner_from_last_result_line "Alice" "Bob"
                          [" 11 point match"; " Game 9";
                           " Alice : 10    Bob : 7"]
                          " Wins 1 point and the match" [""] eq_refl Hb)) _).
  vm_compute. reflexivity.
Defined.

(* ===================================================================== *)
(** * Further properties *)
(* ===================================================================== *)

(** ** The league table *)

Lemma zsum_app l1 l2 :
  League.zsum (l1 ++ l2)%list = League.zsum l1 + League.zsum l2.
Proof.
  unfold League.zsum. induction l1 as [|x l1 IH]; simpl; [reflexivity |].
  rewrite IH. lia.
Qed.

Lemma zsum_map_add {A : Type} (f g : A -> Z) l :
  League.zsum (List.map (fun x => f x + g x) l)
  = League.zsum (List.map f l) + League.zsum (List.map g l).
Proof.
  unfold League.zsum. induction l as [|x l IH]; simpl; [reflexivity |].
  rewrite IH. lia.
Qed.

Lemma zsum_map_ext {A : Type} (f g : A -> Z) l :
  (forall x, f x = g x) ->
  League.zsum (List.map f l) = League.zsum (List.map g l).
Proof.
  intros H. induction l as [|x l IH]; simpl; [reflexivity |].
  unfold League.zsum in *. simpl. by rewrite H, IH.
Qed.

(** Summing a table by rows or by columns gives the same. *)
Lemma zsum_swap {A B : Type} (h : A -> B -> Z) (l1 : list A) (l2 : list B) :
  League.zsum (List.map (fun a => League.zsum (List.map (h a) l2)) l1)
  = League.zsum (List.map (fun b => League.zsum (List.map (fun a => h a b) l1)) l2).
Proof.
  induction l1 as [|a l1 IH].
  - simpl. induction l2 as [|b l2 IH2]; [reflexivity |].
    simpl. unfold League.zsum in *. simpl. by rewrite <- IH2.
  - cbn [List.map]. unfold League.zsum at 1. cbn [List.fold_right].
    fold (League.zsum
            (List.map (fun a0 => League.zsum (List.map (h a0) l2)) l1)).
    rewrite IH.
    rewrite <- zsum_map_add. apply zsum_map_ext. intros b.
    unfold League.zsum. reflexivity.
Qed.

(** What one opponent adds to the counters of a player. *)
Lemma visit_adds scores player t opponent :
  let c := League.visit scores player League.no_totals opponent in
  League.visit scores player t opponent
  = League.Totals
      (League.finished_matches t + League.finished_matches c)
      (League.all_plus t + League.all_plus c)
      (League.all_minus t + League.all_minus c)
      (League.all_total t + League.all_total c)
      (League.finished_plus t + League.finished_plus c)
      (League.finished_minus t + League.finished_minus c)
      (League.finished_total t + League.finished_total c).
Proof.
  cbn zeta. unfold League.visit.
  destruct (String.eqb player opponent).
  - destruct t; simpl. f_equal; lia.
  - destruct (League.get (player, opponent) scores) as [[a b]|];
      destruct (League.get (opponent, player) scores) as [[c d]|];
      unfold League.add_result;
      repeat match goal with
             | |- context [if ?x then _ else _] => destruct x
             end;
      destruct t; simpl; f_equal; lia.
Qed.

Lemma fold_visit_sum scores player players t (proj : League.totals -> Z) :
  (forall t o,
      proj (League.visit scores player t o)
      = proj t + proj (League.visit scores player League.no_totals o)) ->
  proj (List.fold_left (League.visit scores player) players t)
  = proj t
    + League.zsum
        (List.map
           (fun o => proj (League.visit scores player League.no_totals o))
           players).
Proof.
  intros Hadd. revert t.
  induction players as [|o players IH]; intros t; simpl.
  - unfold League.zsum. simpl. lia.
  - rewrite IH, Hadd. unfold League.zsum. simpl. lia.
Qed.

Lemma player_totals_sum scores players player (proj : League.totals -> Z) :
  proj League.no_totals = 0 ->
  (forall t o,
      proj (League.visit scores player t o)
      = proj t + proj (League.visit scores player League.no_totals o)) ->
  proj (League.player_totals scores players player)
  = League.zsum
      (List.map
         (fun o => proj (League.visit scores player League.no_totals o))
         players).
Proof.
  intros H0 Hadd. unfold League.player_totals.
  rewrite (fold_visit_sum _ _ _ _ proj Hadd). lia.
Qed.

Lemma visit_all_plus scores player t o :
  League.all_plus (League.visit scores player t o)
  = League.all_plus t
    + League.all_plus (League.visit scores player League.no_totals o).
Proof. by rewrite visit_adds. Qed.

Lemma visit_all_minus scores player t o :
  League.all_minus (League.visit scores player t o)
  = League.all_minus t
    + League.all_minus (League.visit scores player League.no_totals o).
Proof. by rewrite visit_adds. Qed.

Lemma visit_finished_plus scores player t o :
  League.finished_plus (League.visit scores player t o)
  = League.finished_plus t
    + League.finished_plus (League.visit scores player League.no_totals o).
Proof. by rewrite visit_adds. Qed.

Lemma visit_finished_minus scores player t o :
  League.finished_minus (League.visit scores player t o)
  = League.finished_minus t
    + League.finished_minus (League.visit scores player League.no_totals o).
Proof. by rewrite visit_adds. Qed.

Lemma visit_finished_matches scores player t o :
  League.finished_matches (League.visit scores player t o)
  = League.finished_matches t
    + League.finished_matches (League.visit scores player League.no_totals o).
Proof. by rewrite visit_adds. Qed.

(** What a player concedes against an opponent is what the opponent
    scores against the player. *)
Lemma visit_mirror scores a b :
  League.all_minus (League.visit scores a League.no_totals b)
  = League.all_plus (League.visit scores b League.no_totals a)
  /\ League.finished_minus (League.visit scores a League.no_totals b)
     = League.finished_plus (League.visit scores b League.no_totals a).
Proof.
  unfold League.visit. rewrite (String.eqb_sym b a).
  destruct (String.eqb a b); [split; reflexivity |].
  destruct (League.get (a, b) scores) as [[x y]|];
    destruct (League.get (b, a) scores) as [[u v]|];
    unfold League.add_result; simpl;
    repeat match goal with
           | |- context [if ?c then _ else _] => destruct c eqn:?
           end; simpl; split; try lia;
    repeat match goal with
           | H : (_ || _) = _ |- _ =>
               first [apply orb_true_iff in H | apply orb_false_iff in H]
           end; try lia.
Qed.

Lemma visit_consistent scores player t o :
  League.all_total t = League.all_plus t - League.all_minus t ->
  League.finished_total t = League.finished_plus t - League.finished_minus t ->
  0 <= League.finished_matches t ->
  let t' := League.visit scores player t o in
  League.all_total t' = League.all_plus t' - League.all_minus t'
  /\ League.finished_total t'
     = League.finished_plus t' - League.finished_minus t'
  /\ 0 <= League.finished_matches t'.
Proof.
  intros Ha Hf Hm. cbn zeta. unfold League.visit.
  destruct (String.eqb player o); [auto |].
  destruct (League.get (player, o) scores) as [[a b]|];
    destruct (League.get (o, player) scores) as [[c d]|];
    unfold League.add_result;
    repeat match goal with
           | |- context [if ?x then _ else _] => destruct x
           end; simpl; repeat split; lia.
Qed.

Lemma zsum_zero {A : Type} (l : list A) :
  League.zsum (List.map (fun _ => 0) l) = 0.
Proof. unfold League.zsum. induction l; simpl; lia. Qed.

Lemma league_totals_are_differences_aux scores players player :
  let t := League.player_totals scores players player in
  League.all_total t = League.all_plus t - League.all_minus t
  /\ League.finished_total t
     = League.finished_plus t - League.finished_minus t.
Proof.
  cbn zeta. unfold League.player_totals.
  assert (H : forall l t,
             League.all_total t = League.all_plus t - League.all_minus t ->
             League.finished_total t
             = League.finished_plus t - League.finished_minus t ->
             0 <= League.finished_matches t ->
             let t' := List.fold_left (League.visit scores player) l t in
             League.all_total t' = League.all_plus t' - League.all_minus t'
             /\ League.finished_total t'
                = League.finished_plus t' - League.finished_minus t'
             /\ 0 <= League.finished_matches t').
  { induction l as [|o l IH]; intros t Ha Hf Hm; simpl; [auto |].
    destruct (visit_consistent scores player t o Ha Hf Hm) as (A & B & C).
    by apply IH. }
  destruct (H players League.no_totals eq_refl eq_refl ltac:(simpl; lia))
    as (A & B & _).
  split; assumption.
Qed.

(** X1. In every row of the league table the total is the difference of
    the points scored and the points conceded, over all matches and over
    the finished matches alike, and the count of finished matches is not
    negative. *)
Theorem league_totals_are_differences scores players :
  Forall
    (fun row =>
       let t := League.st_totals row in
       League.all_total t = League.all_plus t - League.all_minus t
       /\ League.finished_total t
          = League.finished_plus t - League.finished_minus t
       /\ 0 <= League.finished_matches t)
    (League.stats scores players).
Proof.
  unfold League.stats. apply List.Forall_forall. intros row Hin.
  apply List.in_map_iff in Hin as (player & <- & _). cbn [League.st_totals].
  unfold League.player_totals.
  assert (H : forall l t,
             League.all_total t = League.all_plus t - League.all_minus t ->
             League.finished_total t
             = League.finished_plus t - League.finished_minus t ->
             0 <= League.finished_matches t ->
             let t' := List.fold_left (League.visit scores player) l t in
             League.all_total t' = League.all_plus t' - League.all_minus t'
             /\ League.finished_total t'
                = League.finished_plus t' - League.finished_minus t'
             /\ 0 <= League.finished_matches t').
  { induction l as [|o l IH]; intros t Ha Hf Hm; simpl; [auto |].
    destruct (visit_consistent scores player t o Ha Hf Hm) as (A & B & C).
    by apply IH. }
  apply H; simpl; lia.
Qed.

(** X2. Over the whole league table the points scored add up to the
    points conceded, so the totals add up to zero, over all matches and
    over the finished matches alike, whatever the scores and whoever is
    listed. *)
Theorem league_table_is_zero_sum scores players :
  let rows := League.stats scores players in
  let column (f : League.totals -> Z) :=
    League.zsum (List.map (fun row => f (League.st_totals row)) rows) in
  column League.all_plus = column League.all_minus
  /\ column League.finished_plus = column League.finished_minus
  /\ column League.all_total = 0
  /\ column League.finished_total = 0.
Proof.
  cbn zeta. unfold League.stats. rewrite !List.map_map. cbn [League.st_totals].
  assert (Hp : League.zsum
                 (List.map (fun p => League.all_plus
                                       (League.player_totals scores players p))
                    players)
               = League.zsum
                   (List.map (fun p => League.all_minus
                                         (League.player_totals scores players p))
                      players)).
  { rewrite (zsum_map_ext _
               (fun p => League.zsum
                  (List.map (fun o => League.all_plus
                     (League.visit scores p League.no_totals o)) players)));
      [|intros p; apply (player_totals_sum _ _ _ League.all_plus);
        [reflexivity | apply visit_all_plus]].
    rewrite (zsum_map_ext
               (fun p => League.all_minus
                           (League.player_totals scores players p))
               (fun p => League.zsum
                  (List.map (fun o => League.all_minus
                     (League.visit scores p League.no_totals o)) players)));
      [|intros p; apply (player_totals_sum _ _ _ League.all_minus);
        [reflexivity | apply visit_all_minus]].
    rewrite zsum_swap. apply zsum_map_ext. intros b.
    apply zsum_map_ext. intros a.
    symmetry. apply (proj1 (visit_mirror scores b a)). }
  assert (Hf : League.zsum
                 (List.map (fun p => League.finished_plus
                                       (League.player_totals scores players p))
                    players)
               = League.zsum
                   (List.map (fun p => League.finished_minus
                                         (League.player_totals scores players p))
                      players)).
  { rewrite (zsum_map_ext _
               (fun p => League.zsum
                  (List.map (fun o => League.finished_plus
                     (League.visit scores p League.no_totals o)) players)));
      [|intros p; apply (player_totals_sum _ _ _ League.finished_plus);
        [reflexivity | apply visit_finished_plus]].
    rewrite (zsum_map_ext
               (fun p => League.finished_minus
                           (League.player_totals scores players p))
               (fun p => League.zsum
                  (List.map (fun o => League.finished_minus
                     (League.visit scores p League.no_totals o)) players)));
      [|intros p; apply (player_totals_sum _ _ _ League.finished_minus);
        [reflexivity | apply visit_finished_minus]].
    rewrite zsum_swap. apply zsum_map_ext. intros b.
    apply zsum_map_ext. intros a.
    symmetry. apply (proj2 (visit_mirror scores b a)). }
  pose proof (league_totals_are_differences_aux scores players) as Hd.
  split; [exact Hp |]. split; [exact Hf |].
  split.
  - rewrite (zsum_map_ext _
               (fun p => League.all_plus (League.player_totals scores players p)
                         + - League.all_minus
                               (League.player_totals scores players p)));
      [|intros p; destruct (Hd p) as [H _]; rewrite H; lia].
    rewrite zsum_map_add, Hp.
    rewrite <- zsum_map_add. 
    rewrite (zsum_map_ext _ (fun _ => 0)); [|intros; lia].
    apply zsum_zero.
  - rewrite (zsum_map_ext _
               (fun p => League.finished_plus
                           (League.player_totals scores players p)
                         + - League.finished_minus
                               (League.player_totals scores players p)));
      [|intros p; destruct (Hd p) as [_ H]; rewrite H; lia].
    rewrite zsum_map_add, Hf.
    rewrite <- zsum_map_add.
    rewrite (zsum_map_ext _ (fun _ => 0)); [|intros; lia].
    apply zsum_zero.
Qed.

Lemma visit_finished_at_most_two scores player o :
  0 <= League.finished_matches (League.visit scores player League.no_totals o)
       <= 2
  /\ (o = player ->
      League.finished_matches (League.visit scores player League.no_totals o)
      = 0).
Proof.
  unfold League.visit. split.
  - destruct (String.eqb player o); [simpl; lia |].
    destruct (League.get (player, o) scores) as [[a b]|];
      destruct (League.get (o, player) scores) as [[c d]|];
      unfold League.add_result;
      repeat match goal with
             | |- context [if ?x then _ else _] => destruct x
             end; simpl; lia.
  - intros ->. by rewrite String.eqb_refl.
Qed.

Lemma zsum_bounded_with_gap {A : Type} (f : A -> Z) (l : list A) (x : A) :
  (forall y, 0 <= f y <= 2) -> f x = 0 -> In x l ->
  League.zsum (List.map f l) <= (Z.of_nat (List.length l) - 1) * 2.
Proof.
  intros Hb Hx Hin.
  assert (Hall : forall l', League.zsum (List.map f l')
                            <= Z.of_nat (List.length l') * 2).
  { induction l' as [|y l' IH]; unfold League.zsum in *; simpl; [lia |].
    specialize (Hb y). lia. }
  induction l as [|y l IH]; [destruct Hin |].
  unfold League.zsum in *. simpl List.map. simpl List.fold_right.
  simpl List.length.
  destruct Hin as [->|Hin].
  - specialize (Hall l). unfold League.zsum in Hall. lia.
  - specialize (IH Hin). specialize (Hb y). lia.
Qed.

(** X3. A listed player's count of finished matches never exceeds
    [total_matches_per_player], twice the number of other entries of the
    player list, whatever the scores are. *)
Theorem finished_matches_within_total scores players player :
  In player players ->
  0 <= League.finished_matches (League.player_totals scores players player)
       <= League.total_matches_per_player players.
Proof.
  intros Hin.
  rewrite (player_totals_sum _ _ _ League.finished_matches eq_refl
             (visit_finished_matches scores player)).
  split.
  - clear Hin. induction players as [|o l IH]; unfold League.zsum in *; simpl;
      [lia |].
    pose proof (proj1 (visit_finished_at_most_two scores player o)). lia.
  - unfold League.total_matches_per_player.
    apply (zsum_bounded_with_gap _ players player); [| |exact Hin].
    + intros o. apply visit_finished_at_most_two.
    + by apply visit_finished_at_most_two.
Qed.

Lemma finished_matches_within_total_witness :
  In "Alice" ["Alice"; "Bob"; "Carol"]
  /\ 0 <= League.finished_matches
            (League.player_totals
               [(("Alice", "Bob"), (11, 3)); (("Bob", "Alice"), (4, 11));
                (("Carol", "Alice"), (5, 2))]
               ["Alice"; "Bob"; "Carol"] "Alice")
       <= League.total_matches_per_player ["Alice"; "Bob"; "Carol"].
Proof.
  assert (Hin : In "Alice" ["Alice"; "Bob"; "Carol"]) by (left; reflexivity).
  split; [exact Hin |].
  exact (finished_matches_within_total
           [(("Alice", "Bob"), (11, 3)); (("Bob", "Alice"), (4, 11));
            (("Carol", "Alice"), (5, 2))]
           ["Alice"; "Bob"; "Carol"] "Alice" Hin).
Defined.

Lemma key_eqb_eq a b : League.key_eqb a b = true <-> a = b.
Proof.
  destruct a as [a1 a2], b as [b1 b2]. unfold League.key_eqb. simpl.
  rewrite andb_true_iff, !String.eqb_eq. split; [intros []|intros [=]]; subst; auto.
Qed.

Lemma league_get_none {V : Type} k (d : list ((string * string) * V)) :
  ~ In k (List.map fst d) -> League.get k d = None.
Proof.
  induction d as [|[k' v] d IH]; simpl; [reflexivity |].
  intros Hn. destruct (League.key_eqb k k') eqn:He.
  - apply key_eqb_eq in He. subst. exfalso. apply Hn. by left.
  - apply IH. intros H. apply Hn. by right.
Qed.

Lemma visit_finished_closed scores player o :
  League.finished_matches (League.visit scores player League.no_totals o)
  = if String.eqb player o then 0
    else LeagueFacts.shows_eleven (League.get (player, o) scores)
         + LeagueFacts.shows_eleven (League.get (o, player) scores).
Proof.
  unfold League.visit. destruct (String.eqb player o); [reflexivity |].
  destruct (League.get (player, o) scores) as [[a b]|];
    destruct (League.get (o, player) scores) as [[c d]|];
    unfold League.add_result, LeagueFacts.shows_eleven;
    repeat match goal with
           | |- context [if ?x then _ else _] => destruct x eqn:?
           end; simpl in *; try lia; try congruence;
    rewrite orb_comm in *; congruence.
Qed.

Lemma zsum_indicator_absent (x : string) (w : Z) (l : list string) :
  ~ In x l ->
  League.zsum (List.map (fun o => if String.eqb o x then w else 0) l) = 0.
Proof.
  induction l as [|y l IH]; intros Hn; unfold League.zsum in *; simpl;
    [reflexivity |].
  destruct (String.eqb_spec y x) as [->|Hne].
  - exfalso. apply Hn. by left.
  - rewrite IH; [lia |]. intros H. apply Hn. by right.
Qed.

(** In a list without repetition a listed name is met exactly once. *)
Lemma zsum_indicator (x : string) (w : Z) (l : list string) :
  NoDup l -> In x l ->
  League.zsum (List.map (fun o => if String.eqb o x then w else 0) l) = w.
Proof.
  intros Hnd Hin. induction Hnd as [|y l Hy Hnd IH]; [destruct Hin |].
  destruct (String.eqb_spec y x) as [->|Hne].
  - pose proof (zsum_indicator_absent x w l) as Hz.
    unfold League.zsum in *. simpl. rewrite String.eqb_refl.
    rewrite Hz; [lia |]. intros H. apply Hy. by apply list_elem_of_In.
  - destruct Hin as [->|Hin]; [contradiction |].
    unfold League.zsum in *. simpl.
    destruct (String.eqb_spec y x); [contradiction |].
    rewrite IH by exact Hin. lia.
Qed.

(** What a new entry of the scores adds to a player's finished count
    against one opponent. *)
Lemma visit_finished_cons scores p q a b player o :
  p <> q -> ~ In (p, q) (List.map fst scores) ->
  League.finished_matches
    (League.visit (((p, q), (a, b)) :: scores) player League.no_totals o)
  = League.finished_matches (League.visit scores player League.no_totals o)
    + (if String.eqb o (if String.eqb p player then q else p)
       then LeagueFacts.involves player ((p, q), (a, b)) else 0).
Proof.
  intros Hpq Hfresh. rewrite !visit_finished_closed.
  unfold LeagueFacts.involves. cbn [fst snd League.get].
  unfold League.key_eqb. cbn [fst snd].
  pose proof (league_get_none (p, q) scores Hfresh) as Hnone.
  destruct (String.eqb_spec player o); destruct (String.eqb_spec p player);
    destruct (String.eqb_spec q player); destruct (String.eqb_spec player p);
    destruct (String.eqb_spec player q); destruct (String.eqb_spec o p);
    destruct (String.eqb_spec o q); subst; try congruence;
    cbn [andb orb]; rewrite ?Hnone;
    unfold LeagueFacts.shows_eleven;
    repeat match goal with
           | |- context [match ?x with _ => _ end] => destruct x
           end; lia.
Qed.

Lemma finished_matches_counts_entries scores players player :
  NoDup players -> LeagueFacts.regular players scores ->
  League.finished_matches (League.player_totals scores players player)
  = League.zsum (List.map (LeagueFacts.involves player) scores).
Proof.
  intros Hnd [Hkeys Hall].
  rewrite (player_totals_sum _ _ _ League.finished_matches eq_refl
             (visit_finished_matches scores player)).
  induction scores as [|[[p q] [a b]] scores IH].
  - simpl. rewrite (zsum_map_ext _ (fun _ => 0)); [apply zsum_zero |].
    intros o. rewrite visit_finished_closed. simpl.
    by destruct (String.eqb player o).
  - inversion Hall as [|? ? (Hpq & Hp & Hq & _) Hall']; subst.
    cbn [fst snd] in *.
    apply NoDup_cons in Hkeys as [Hfresh Hkeys]. cbn [fst] in Hfresh.
    rewrite (zsum_map_ext _
               (fun o =>
                  League.finished_matches
                    (League.visit scores player League.no_totals o)
                  + (if String.eqb o (if String.eqb p player then q else p)
                     then LeagueFacts.involves player ((p, q), (a, b))
                     else 0))).
    2:{ intros o. apply visit_finished_cons; [exact Hpq |].
        intros H. apply Hfresh. by apply list_elem_of_In. }
    rewrite zsum_map_add, (IH Hkeys Hall').
    rewrite zsum_indicator;
      [| exact Hnd | by destruct (String.eqb p player)].
    unfold League.zsum. simpl. lia.
Qed.

Lemma win_or_loss_of_entry player item :
  fst (fst item) <> snd (fst item) ->
  ~ (fst (snd item) = 11 /\ snd (snd item) = 11) ->
  (if League.is_win player item then 1 else 0)
  + (if League.is_loss player item then 1 else 0)
  = LeagueFacts.involves player item.
Proof.
  destruct item as [[p q] [a b]]. cbn [fst snd]. intros Hpq Hno.
  unfold League.is_win, League.is_loss, LeagueFacts.involves,
    LeagueFacts.shows_eleven. cbn [fst snd].
  destruct (String.eqb_spec p player) as [->|Hp];
    destruct (String.eqb_spec q player) as [->|Hq]; try congruence;
    cbn [andb orb];
    destruct (Z.eqb_spec a 11); destruct (Z.eqb_spec b 11);
    destruct (Z.ltb_spec a b); destruct (Z.ltb_spec b a);
    cbn [andb orb]; try lia.
Qed.

Lemma filter_length_sum {A : Type} (f : A -> bool) (l : list A) :
  Z.of_nat (List.length (List.filter f l))
  = League.zsum (List.map (fun x => if f x then 1 else 0) l).
Proof.
  unfold League.zsum. induction l as [|x l IH]; simpl; [reflexivity |].
  destruct (f x); simpl; lia.
Qed.

(** X4. When the entries of [intermediate_scores] are between two
    different players of a player list without repetition and none reads
    11 : 11, every player's won and lost matches add up to the player's
    finished matches. *)
Theorem won_and_lost_are_the_finished scores players player :
  NoDup players -> LeagueFacts.regular players scores ->
  League.won scores player + League.lost scores player
  = League.finished_matches (League.player_totals scores players player).
Proof.
  intros Hnd Hreg.
  rewrite (finished_matches_counts_entries _ _ _ Hnd Hreg).
  unfold League.won, League.lost. rewrite !filter_length_sum.
  rewrite <- zsum_map_add.
  destruct Hreg as [_ Hall]. clear Hnd.
  induction Hall as [|item scores (Hpq & _ & _ & Hno) _ IH].
  - reflexivity.
  - cbn [List.map]. unfold League.zsum in *. cbn [List.fold_right].
    rewrite IH. rewrite (win_or_loss_of_entry player item Hpq Hno).
    reflexivity.
Qed.

Lemma won_and_lost_are_the_finished_witness :
  NoDup LeagueSample.players
  /\ LeagueFacts.regular LeagueSample.players LeagueSample.scores
  /\ League.won LeagueSample.scores "Alice"
     + League.lost LeagueSample.scores "Alice"
     = League.finished_matches
         (League.player_totals LeagueSample.scores LeagueSample.players
            "Alice").
Proof.
  assert (Hnd : NoDup LeagueSample.players).
  { apply (bool_decide_unpack _). vm_compute. exact I. }
  assert (Hreg : LeagueFacts.regular LeagueSample.players LeagueSample.scores).
  { split.
    - apply (bool_decide_unpack _). vm_compute. exact I.
    - repeat constructor; simpl; try discriminate; try tauto;
        intros [H1 H2]; discriminate. }
  split; [exact Hnd |]. split; [exact Hreg |].
  exact (won_and_lost_are_the_finished LeagueSample.scores
           LeagueSample.players "Alice" Hnd Hreg).
Defined.

(** ** The score dictionary of the league table *)

Lemma league_get_set {V : Type} k k' (v : V) d :
  League.get k (League.set k' v d)
  = if League.key_eqb k k' then Some v else League.get k d.
Proof.
  induction d as [|[k2 v2] d IH]; simpl; [reflexivity |].
  destruct (League.key_eqb k' k2) eqn:E2; simpl.
  - apply key_eqb_eq in E2. subst k2.
    destruct (League.key_eqb k k'); reflexivity.
  - rewrite IH. destruct (League.key_eqb k k') eqn:E1; [|reflexivity].
    apply key_eqb_eq in E1. subst k. by rewrite E2.
Qed.

Lemma league_set_keys {V : Type} k (v : V) d :
  NoDup (List.map fst d) -> NoDup (List.map fst (League.set k v d)).
Proof.
  intros Hnd. induction d as [|[k2 v2] d IH]; simpl.
  - apply NoDup_singleton.
  - apply NoDup_cons in Hnd as [Hfresh Hnd]. simpl in Hfresh.
    destruct (League.key_eqb k k2) eqn:E; simpl.
    + apply key_eqb_eq in E. subst. apply NoDup_cons. by split.
    + apply NoDup_cons. split; [|by apply IH].
      intros Hx. apply list_elem_of_In in Hx.
      assert (Hor : k2 = k \/ In k2 (List.map fst d)).
      { clear -Hx. induction d as [|[k3 v3] d IH]; simpl in *.
        - destruct Hx as [<-|[]]; auto.
        - destruct (League.key_eqb k k3) eqn:E3; simpl in Hx.
          + apply key_eqb_eq in E3. subst. destruct Hx; auto.
          + destruct Hx as [<-|Hx]; [auto |].
            destruct (IH Hx); auto. }
      destruct Hor as [->|Hor].
      * assert (League.key_eqb k k = true) by by apply key_eqb_eq.
        congruence.
      * apply Hfresh. by apply list_elem_of_In.
Qed.

Lemma find_app_last {A : Type} (f : A -> bool) (l : list A) (x : A) :
  List.find f (l ++ [x])%list
  = match List.find f l with
    | Some y => Some y
    | None => if f x then Some x else None
    end.
Proof.
  induction l as [|y l IH]; simpl; [reflexivity |].
  destruct (f y); [reflexivity | exact IH].
Qed.

Lemma fold_set_lookup {V : Type} (val : match_row -> V) k rows d :
  League.get k
    (List.fold_left
       (fun d r => League.set (player_name r, opponent_name r) (val r) d)
       rows d)
  = match last_row_of k rows with
    | Some r => Some (val r)
    | None => League.get k d
    end.
Proof.
  revert d. induction rows as [|r rows IH]; intros d; [reflexivity |].
  cbn [List.fold_left]. rewrite IH. unfold last_row_of. cbn [List.rev].
  rewrite find_app_last.
  destruct (List.find _ (List.rev rows)); [reflexivity |].
  rewrite league_get_set.
  by destruct (League.key_eqb k (player_name r, opponent_name r)).
Qed.

Lemma fold_set_keys {V : Type} (val : match_row -> V) rows d :
  NoDup (List.map fst d) ->
  NoDup (List.map fst
           (List.fold_left
              (fun d r => League.set (player_name r, opponent_name r) (val r) d)
              rows d)).
Proof.
  revert d. induction rows as [|r rows IH]; intros d Hd; [exact Hd |].
  cbn [List.fold_left]. apply IH. by apply league_set_keys.
Qed.

Lemma notna_keys (sm : list ((string * string) * (option Z * option Z))) k :
  In k (List.map fst
          (List.flat_map
             (fun kv => match snd kv with
                        | (Some l, Some r) => [(fst kv, (l, r))]
                        | _ => []
                        end) sm)) ->
  In k (List.map fst sm).
Proof.
  induction sm as [|[k2 [[l|] [r|]]] sm IH]; simpl; intros H; auto.
  destruct H as [<-|H]; auto.
Qed.

Lemma notna_lookup (sm : list ((string * string) * (option Z * option Z))) k :
  NoDup (List.map fst sm) ->
  League.get k
    (List.flat_map
       (fun kv => match snd kv with
                  | (Some l, Some r) => [(fst kv, (l, r))]
                  | _ => []
                  end) sm)
  = match League.get k sm with
    | Some (Some l, Some r) => Some (l, r)
    | _ => None
    end.
Proof.
  induction sm as [|[k2 v2] sm IH]; intros Hnd; [reflexivity |].
  apply NoDup_cons in Hnd as [Hfresh Hnd]. cbn [List.map fst] in Hfresh.
  cbn [List.flat_map League.get fst snd].
  destruct (League.key_eqb k k2) eqn:E.
  - apply key_eqb_eq in E. subst k2.
    assert (Hnone : League.get k
                      (List.flat_map
                         (fun kv => match snd kv with
                                    | (Some l, Some r) => [(fst kv, (l, r))]
                                    | _ => []
                                    end) sm) = None).
    { apply league_get_none. intros H. apply notna_keys in H.
      apply Hfresh. by apply list_elem_of_In. }
    destruct v2 as [[l|] [r|]]; simpl; rewrite ?Hnone; try reflexivity.
    assert (E : League.key_eqb k k = true) by by apply key_eqb_eq.
    by rewrite E.
  - destruct v2 as [[l|] [r|]]; simpl; rewrite ?E; by apply IH.
Qed.

Lemma notna_keys_unique (sm : list ((string * string) * (option Z * option Z))) :
  NoDup (List.map fst sm) ->
  NoDup (List.map fst
           (List.flat_map
              (fun kv => match snd kv with
                         | (Some l, Some r) => [(fst kv, (l, r))]
                         | _ => []
                         end) sm)).
Proof.
  induction sm as [|[k2 v2] sm IH]; intros Hnd; [exact Hnd |].
  apply NoDup_cons in Hnd as [Hfresh Hnd].
  destruct v2 as [[l|] [r|]]; simpl; try by apply IH.
  apply NoDup_cons. split; [|by apply IH].
  intros H. apply Hfresh. apply list_elem_of_In, notna_keys.
  by apply list_elem_of_In.
Qed.

(** X5. Both league tables keep one entry per pairing, and looking a
    pairing up gives the scores of its last row: the first table reads a
    [NULL] score as 0, the second leaves a pairing out as long as either
    score of that row is [NULL]. *)
Theorem intermediate_scores_of_last_row rows k :
  League.get k (League.intermediate_scores_with_zero rows)
  = match last_row_of k rows with
    | Some r =>
        Some (League.null_to_zero (left_score r),
              League.null_to_zero (right_score r))
    | None => None
    end
  /\ League.get k (League.intermediate_scores_notna rows)
     = match last_row_of k rows with
       | Some r =>
           match left_score r, right_score r with
           | Some l, Some rs => Some (l, rs)
           | _, _ => None
           end
       | None => None
       end
  /\ NoDup (List.map fst (League.intermediate_scores_with_zero rows))
  /\ NoDup (List.map fst (League.intermediate_scores_notna rows)).
Proof.
  unfold League.intermediate_scores_with_zero,
    League.intermediate_scores_notna, League.score_map.
  split; [|split; [|split]].
  - rewrite (fold_set_lookup
               (fun r => (League.null_to_zero (left_score r),
                          League.null_to_zero (right_score r)))).
    by destruct (last_row_of k rows).
  - rewrite notna_lookup by (apply fold_set_keys; constructor).
    rewrite (fold_set_lookup (fun r => (left_score r, right_score r))).
    destruct (last_row_of k rows) as [r|]; [|reflexivity].
    by destruct (left_score r), (right_score r).
  - apply fold_set_keys. constructor.
  - apply notna_keys_unique. apply fold_set_keys. constructor.
Qed.

(** ** Fixture generation *)

Lemma pair_with_length g p later :
  List.length (Fixtures.pair_with g p later) = (2 * List.length later)%nat.
Proof. induction later as [|o l IH]; simpl; [reflexivity | lia]. Qed.

Lemma pair_with_in g p later a b g' :
  In (a, b, g') (Fixtures.pair_with g p later)
  <-> g' = g /\ ((a = p /\ In b later) \/ (b = p /\ In a later)).
Proof.
  induction later as [|o l IH]; simpl.
  - split; [intros [] | intros (_ & [[_ []]|[_ []]])].
  - rewrite IH. split.
    + intros [H|[H|(Hg & H)]].
      * inversion H; subst. auto.
      * inversion H; subst. auto.
      * split; [exact Hg |]. destruct H as [[-> H]|[-> H]]; auto.
    + intros (-> & [[-> [->|H]]|[-> [->|H]]]); auto 6.
Qed.

Lemma group_matches_in g players a b g' :
  In (a, b, g') (Fixtures.group_matches g players) ->
  g' = g /\ In a players /\ In b players.
Proof.
  induction players as [|p later IH]; simpl; [intros [] |].
  intros H. apply in_app_or in H as [H|H].
  - apply pair_with_in in H as (-> & [[-> H]|[-> H]]); auto.
  - destruct (IH H) as (-> & Ha & Hb). auto.
Qed.

(** X6. A group of n players gets n (n - 1) fixtures. *)
Theorem group_matches_count g players :
  Z.of_nat (List.length (Fixtures.group_matches g players))
  = Z.of_nat (List.length players) * (Z.of_nat (List.length players) - 1).
Proof.
  induction players as [|p later IH]; [reflexivity |].
  cbn [Fixtures.group_matches]. rewrite length_app, pair_with_length.
  cbn [List.length]. nia.
Qed.

Lemma group_matches_pairs g players :
  NoDup players ->
  NoDup (Fixtures.group_matches g players)
  /\ (forall a b g',
         In (a, b, g') (Fixtures.group_matches g players)
         <-> g' = g /\ In a players /\ In b players /\ a <> b).
Proof.
  intros Hnd. induction Hnd as [|p later Hp Hnd [IHnd IHin]].
  - split; [constructor |]. simpl. intros a b g'. split; [intros [] | tauto].
  - assert (Hp' : ~ In p later) by (intros H; apply Hp; by apply list_elem_of_In).
    split.
    + cbn [Fixtures.group_matches]. apply NoDup_app. split; [|split].
      * clear IHnd IHin Hp. induction Hnd as [|o l Ho Hnd IH]; simpl;
          [constructor |].
        assert (Ho' : ~ In o l) by (intros H; apply Ho; by apply list_elem_of_In).
        assert (Hpo : p <> o) by (intros ->; apply Hp'; by left).
        apply NoDup_cons. split.
        { intros H. apply list_elem_of_In in H. destruct H as [H|H].
          - inversion H; subst. congruence.
          - apply pair_with_in in H as (_ & [[_ H]|[H _]]); congruence. }
        apply NoDup_cons. split.
        { intros H. apply list_elem_of_In, pair_with_in in H
            as (_ & [[H _]|[_ H]]); congruence. }
        apply IH. intros H. apply Hp'. by right.
      * intros [[a b] g'] H1 H2. apply list_elem_of_In in H1, H2.
        apply pair_with_in in H1 as (-> & [[-> H1]|[-> H1]]);
          apply group_matches_in in H2 as (_ & Ha & Hb); contradiction.
      * exact IHnd.
    + intros a b g'. cbn [Fixtures.group_matches]. rewrite in_app_iff.
      rewrite pair_with_in, IHin. simpl. split.
      * intros [(-> & [[-> H]|[-> H]])|(-> & Ha & Hb & Hab)].
        -- repeat split; auto. intros ->. contradiction.
        -- repeat split; auto. intros ->. contradiction.
        -- repeat split; auto.
      * intros (-> & [<-|Ha] & [<-|Hb] & Hab).
        -- congruence.
        -- left. auto.
        -- left. auto.
        -- right. auto.
Qed.

(** X7. For a group whose players are listed once each, the fixtures are
    exactly the ordered pairs of two different players of the group, each
    once: nobody is paired with themselves and no pairing is generated
    twice. *)
Theorem group_matches_are_the_ordered_pairs g players :
  NoDup players ->
  NoDup (Fixtures.group_matches g players)
  /\ (forall a b g',
         In (a, b, g') (Fixtures.group_matches g players)
         <-> g' = g /\ In a players /\ In b players /\ a <> b).
Proof. exact (group_matches_pairs g players). Qed.

Lemma group_matches_are_the_ordered_pairs_witness :
  NoDup [1; 2; 3]
  /\ NoDup (Fixtures.group_matches 7 [1; 2; 3])
  /\ Fixtures.group_matches 7 [1; 2; 3]
     = [(1, 2, 7); (2, 1, 7); (1, 3, 7); (3, 1, 7); (2, 3, 7); (3, 2, 7)].
Proof.
  assert (Hnd : NoDup [1; 2; 3])
    by (apply (bool_decide_unpack _); vm_compute; exact I).
  split; [exact Hnd |].
  split; [exact (proj1 (group_matches_are_the_ordered_pairs 7 [1; 2; 3] Hnd)) |].
  reflexivity.
Defined.

Lemma matches_of_absent g players p :
  ~ In p players -> Fixtures.matches_of p (Fixtures.group_matches g players) = [].
Proof.
  intros Hn. unfold Fixtures.matches_of.
  assert (H : forall m, In m (Fixtures.group_matches g players) ->
                        (fst (fst m) =? p) || (snd (fst m) =? p) = false).
  { intros [[a b] g'] Hm. apply group_matches_in in Hm as (_ & Ha & Hb).
    simpl. destruct (Z.eqb_spec a p); [subst; contradiction |].
    destruct (Z.eqb_spec b p); [subst; contradiction | reflexivity]. }
  induction (Fixtures.group_matches g players) as [|m ms IH];
    [reflexivity |].
  simpl. rewrite (H m (or_introl eq_refl)). apply IH.
  intros m' Hm'. apply H. by right.
Qed.

Lemma matches_of_pair_with_own g p later :
  List.length (Fixtures.matches_of p (Fixtures.pair_with g p later))
  = (2 * List.length later)%nat.
Proof.
  unfold Fixtures.matches_of. induction later as [|o l IH]; [reflexivity |].
  simpl. rewrite Z.eqb_refl. simpl. rewrite orb_true_r. simpl. lia.
Qed.

Lemma matches_of_pair_with_other g x p later :
  x <> p -> NoDup later ->
  List.length (Fixtures.matches_of p (Fixtures.pair_with g x later))
  = if bool_decide (p ∈ later) then 2%nat else 0%nat.
Proof.
  intros Hx Hnd. unfold Fixtures.matches_of.
  induction Hnd as [|o l Ho Hnd IH].
  - cbn [Fixtures.pair_with List.filter List.length].
    rewrite bool_decide_eq_false_2; [reflexivity |].
    apply not_elem_of_nil.
  - cbn [Fixtures.pair_with List.filter fst snd].
    destruct (Z.eqb_spec x p); [contradiction |]. cbn [orb].
    destruct (Z.eqb_spec o p) as [->|Hop]; cbn [orb List.length].
    + rewrite bool_decide_eq_true_2 by (by left).
      rewrite IH. by rewrite bool_decide_eq_false_2.
    + rewrite IH. destruct (decide (p ∈ l)) as [Hin|Hin].
      * rewrite !bool_decide_eq_true_2; auto. by right.
      * rewrite !bool_decide_eq_false_2; auto.
        intros H. apply elem_of_cons in H as [H|H]; congruence.
Qed.

(** X8. In a group whose players are listed once each, every player has
    2 (n - 1) fixtures, a home and an away match against every other
    player: the number the dashboard shows as
    [total_matches_per_player]. *)
Theorem each_player_meets_all_others_twice g players p :
  NoDup players -> In p players ->
  Z.of_nat (List.length
              (Fixtures.matches_of p (Fixtures.group_matches g players)))
  = (Z.of_nat (List.length players) - 1) * 2.
Proof.
  intros Hnd. induction Hnd as [|x later Hx Hnd IH]; [intros [] |].
  assert (Hx' : ~ In x later) by (intros H; apply Hx; by apply list_elem_of_In).
  intros Hin. cbn [Fixtures.group_matches]. unfold Fixtures.matches_of in *.
  rewrite List.filter_app, length_app.
  fold (Fixtures.matches_of p (Fixtures.pair_with g x later)).
  fold (Fixtures.matches_of p (Fixtures.group_matches g later)).
  destruct (Z.eq_dec x p) as [->|Hne].
  - rewrite matches_of_pair_with_own, matches_of_absent by exact Hx'.
    cbn [List.length]. lia.
  - destruct Hin as [->|Hin]; [congruence |].
    rewrite (matches_of_pair_with_other g x p later Hne Hnd).
    rewrite bool_decide_eq_true_2 by (by apply list_elem_of_In).
    unfold Fixtures.matches_of. specialize (IH Hin).
    cbn [List.length]. lia.
Qed.

Lemma each_player_meets_all_others_twice_witness :
  NoDup [1; 2; 3] /\ In 2 [1; 2; 3]
  /\ Z.of_nat (List.length
                 (Fixtures.matches_of 2 (Fixtures.group_matches 7 [1; 2; 3])))
     = (Z.of_nat (List.length [1; 2; 3]) - 1) * 2.
Proof.
  assert (Hnd : NoDup [1; 2; 3])
    by (apply (bool_decide_unpack _); vm_compute; exact I).
  assert (Hin : In 2 [1; 2; 3]) by (right; left; reflexivity).
  split; [exact Hnd |]. split; [exact Hin |].
  exact (each_player_meets_all_others_twice 7 [1; 2; 3] 2 Hnd Hin).
Defined.

Lemma dict_set_keys {V : Type} k (v : V) d :
  NoDup (Dict.keys d) -> NoDup (Dict.keys (Dict.set k v d)).
Proof.
  unfold Dict.keys.
  assert (Hin : forall x, x ∈ List.map fst (Dict.set k v d) ->
                          x = k \/ x ∈ List.map fst d).
  { induction d as [|[k2 v2] d IH]; simpl; intros x Hx.
    - apply list_elem_of_singleton in Hx. auto.
    - destruct (k =? k2) eqn:E; simpl in Hx.
      + apply Z.eqb_eq in E. subst.
        apply elem_of_cons in Hx as [->|Hx]; [auto |].
        right. by right.
      + apply elem_of_cons in Hx as [->|Hx]; [right; by left |].
        destruct (IH x Hx); [auto |]. right. by right. }
  clear Hin. induction d as [|[k2 v2] d IH]; simpl; intros Hnd.
  - apply NoDup_singleton.
  - apply NoDup_cons in Hnd as [Hfresh Hnd].
    destruct (Z.eqb_spec k k2) as [->|Hne]; simpl.
    + apply NoDup_cons. by split.
    + apply NoDup_cons. split; [|by apply IH].
      intros Hx.
      assert (Hor : k2 = k \/ k2 ∈ List.map fst d).
      { clear -Hx. induction d as [|[k3 v3] d IH]; simpl in *.
        - apply list_elem_of_singleton in Hx. auto.
        - destruct (k =? k3) eqn:E3; simpl in Hx.
          + apply Z.eqb_eq in E3. subst.
            apply elem_of_cons in Hx as [->|Hx]; [auto |].
            right. by right.
          + apply elem_of_cons in Hx as [->|Hx]; [right; by left |].
            destruct (IH Hx); [auto |]. right. by right. }
      destruct Hor as [->|Hor]; [congruence | contradiction].
Qed.

Lemma dict_get_in {V : Type} k (v : V) d :
  Dict.get k d = Some v -> In (k, v) d.
Proof.
  induction d as [|[k2 v2] d IH]; simpl; [discriminate |].
  destruct (Z.eqb_spec k k2) as [->|Hne].
  - intros [= ->]. by left.
  - intros H. right. by apply IH.
Qed.

Lemma dict_in_get {V : Type} k (v : V) d :
  NoDup (Dict.keys d) -> In (k, v) d -> Dict.get k d = Some v.
Proof.
  unfold Dict.keys. induction d as [|[k2 v2] d IH]; simpl; [intros _ [] |].
  intros Hnd Hin. apply NoDup_cons in Hnd as [Hfresh Hnd].
  destruct Hin as [[= -> ->]|Hin].
  - by rewrite Z.eqb_refl.
  - destruct (Z.eqb_spec k k2) as [->|Hne]; [|by apply IH].
    exfalso. apply Hfresh. apply list_elem_of_In.
    apply List.in_map_iff. exists (k2, v). auto.
Qed.

Lemma members_of_app g rows1 rows2 :
  members_of g (rows1 ++ rows2)%list
  = (members_of g rows1 ++ members_of g rows2)%list.
Proof. unfold members_of. by rewrite List.filter_app, List.map_app. Qed.

(** The dictionary built from the first rows knows each group by its
    members so far. *)
Lemma group_to_players_fold rows seen d :
  NoDup (Dict.keys d) ->
  (forall g, Dict.get g d
             = match members_of g seen with [] => None | l => Some l end) ->
  let d' :=
    List.fold_left
      (fun d row =>
         let members :=
           match Dict.get (fst row) d with Some l => l | None => [] end in
         Dict.set (fst row) (members ++ [snd row])%list d)
      rows d in
  NoDup (Dict.keys d')
  /\ (forall g, Dict.get g d'
                = match members_of g (seen ++ rows)%list with
                  | [] => None
                  | l => Some l
                  end).
Proof.
  revert seen d. induction rows as [|[g0 p0] rows IH]; intros seen d Hnd Hget.
  - cbn zeta. simpl. rewrite app_nil_r. auto.
  - cbn zeta. cbn [List.fold_left fst snd].
    replace (seen ++ (g0, p0) :: rows)%list
      with ((seen ++ [(g0, p0)]) ++ rows)%list
      by (by rewrite <- app_assoc).
    apply IH.
    + by apply dict_set_keys.
    + intros g. rewrite members_of_app.
      destruct (Z.eq_dec g g0) as [->|Hne].
      * rewrite dict_get_set_eq, Hget.
        assert (E : members_of g0 [(g0, p0)] = [p0]).
        { unfold members_of. cbn [List.filter fst]. rewrite Z.eqb_refl.
          reflexivity. }
        rewrite E. destruct (members_of g0 seen); reflexivity.
      * rewrite dict_get_set_ne by exact Hne. rewrite Hget.
        assert (E : members_of g [(g0, p0)] = []).
        { unfold members_of. cbn [List.filter fst].
          destruct (Z.eqb_spec g0 g); [congruence | reflexivity]. }
        rewrite E. by rewrite app_nil_r.
Qed.

Lemma group_to_players_lookup rows :
  NoDup (Dict.keys (Fixtures.group_to_players rows))
  /\ (forall g, Dict.get g (Fixtures.group_to_players rows)
                = match members_of g rows with [] => None | l => Some l end).
Proof.
  unfold Fixtures.group_to_players.
  apply (group_to_players_fold rows [] []); [constructor | reflexivity].
Qed.

Lemma members_of_in g rows p : In p (members_of g rows) <-> In (g, p) rows.
Proof.
  unfold members_of. rewrite List.in_map_iff. split.
  - intros ([g' p'] & <- & H). apply List.filter_In in H as [H E].
    simpl in *. apply Z.eqb_eq in E. by subst.
  - intros H. exists (g, p). split; [reflexivity |].
    apply List.filter_In. split; [exact H | apply Z.eqb_refl].
Qed.

Lemma members_of_nodup g rows : NoDup rows -> NoDup (members_of g rows).
Proof.
  unfold members_of. induction 1 as [|[g0 p0] rows Hx Hnd IH]; simpl;
    [constructor |].
  destruct (Z.eqb_spec g0 g) as [->|Hne]; [|exact IH].
  simpl. apply NoDup_cons. split; [|exact IH].
  intros H. apply Hx. apply list_elem_of_In.
  apply list_elem_of_In in H.
  by apply (proj1 (members_of_in g rows p0)).
Qed.

(** X9. The fixtures prepared from the table [player_groups] pair two
    players only inside a group both belong to; when no (group, player)
    row is repeated they are exactly the ordered pairs of two different
    players of one group. *)
Theorem fixtures_stay_inside_groups rows a b g :
  (In (a, b, g) (Fixtures.matches_to_insert rows) ->
   In (g, a) rows /\ In (g, b) rows)
  /\ (NoDup rows ->
      (In (a, b, g) (Fixtures.matches_to_insert rows)
       <-> In (g, a) rows /\ In (g, b) rows /\ a <> b)).
Proof.
  destruct (group_to_players_lookup rows) as [Hkeys Hget].
  assert (Hentry : forall g' l,
             In (g', l) (Fixtures.group_to_players rows) ->
             l = members_of g' rows).
  { intros g' l Hin. apply (dict_in_get _ _ _ Hkeys) in Hin.
    rewrite Hget in Hin. destruct (members_of g' rows); congruence. }
  unfold Fixtures.matches_to_insert. split.
  - intros H. apply List.in_flat_map in H as ([g' l] & Hd & Hm).
    simpl in Hm. apply group_matches_in in Hm as (-> & Ha & Hb).
    rewrite (Hentry _ _ Hd) in Ha, Hb.
    split; by apply members_of_in.
  - intros Hnd. split.
    + intros H. apply List.in_flat_map in H as ([g' l] & Hd & Hm).
      simpl in Hm. pose proof (Hentry _ _ Hd) as ->.
      apply (group_matches_pairs g' _
               (members_of_nodup g' rows Hnd)) in Hm as (-> & Ha & Hb & Hab).
      repeat split; [by apply members_of_in | by apply members_of_in | exact Hab].
    + intros (Ha & Hb & Hab). apply List.in_flat_map.
      exists (g, members_of g rows). split.
      * apply dict_get_in. rewrite Hget.
        apply members_of_in in Ha. destruct (members_of g rows); [destruct Ha |].
        reflexivity.
      * simpl. apply (group_matches_pairs g _
               (members_of_nodup g rows Hnd)).
        repeat split; [by apply members_of_in | by apply members_of_in | exact Hab].
Qed.

Lemma fixtures_stay_inside_groups_witness :
  In (10, 20, 1) (Fixtures.matches_to_insert [(1, 10); (1, 20); (2, 30)])
  /\ ~ In (10, 30, 1)
       (Fixtures.matches_to_insert [(1, 10); (1, 20); (2, 30)]).
Proof.
  assert (Hnd : NoDup [(1, 10); (1, 20); (2, 30)])
    by (apply (bool_decide_unpack _); vm_compute; exact I).
  split.
  - apply (proj2 (fixtures_stay_inside_groups
                    [(1, 10); (1, 20); (2, 30)] 10 20 1) Hnd).
    split; [by left | split; [right; by left | discriminate]].
  - intros H.
    apply (proj1 (fixtures_stay_inside_groups
                    [(1, 10); (1, 20); (2, 30)] 10 30 1)) in H
      as [_ [H|[H|[H|[]]]]]; discriminate.
Defined.

(** ** The player's page *)

Lemma take_digits_all_digits s : all_digits (Re.take_digits s) = true.
Proof.
  induction s as [|c t IH]; simpl; [reflexivity |].
  destruct (Re.is_digit c) eqn:E; simpl; [|reflexivity].
  by rewrite E, IH.
Qed.

Lemma int_digits_of_digits s acc :
  all_digits s = true -> 0 <= acc ->
  exists n, Re.int_digits acc s = Some n /\ acc <= n.
Proof.
  revert acc. induction s as [|c t IH]; intros acc Hd Hacc; simpl.
  - exists acc. split; [reflexivity | lia].
  - simpl in Hd. apply andb_prop in Hd as [Hc Ht]. rewrite Hc.
    assert (Hv : 48 <= Z.of_N (N_of_ascii c)).
    { unfold Re.is_digit in Hc. apply andb_prop in Hc as [H1 _].
      apply N.leb_le in H1. lia. }
    destruct (IH (10 * acc + (Z.of_N (N_of_ascii c) - 48)) Ht ltac:(lia))
      as (n & Hn & Hle).
    exists n. split; [exact Hn | lia].
Qed.

Lemma py_int_of_digits s :
  s <> EmptyString -> all_digits s = true ->
  exists n, Re.py_int s = Some n /\ 0 <= n.
Proof.
  intros Hne Hd. unfold Re.py_int. destruct s as [|c t]; [congruence |].
  apply int_digits_of_digits; [exact Hd | lia].
Qed.

Lemma game_id_here_digits s d :
  UserPage.game_id_here s = Some d -> d <> EmptyString /\ all_digits d = true.
Proof.
  unfold UserPage.game_id_here.
  destruct (UserPage.drop_prefix "/bg/game/" s) as [rest|]; [|discriminate].
  pose proof (take_digits_all_digits rest) as Hd.
  destruct (Re.take_digits rest) as [|c t] eqn:E; [discriminate |].
  destruct (UserPage.drop_prefix "/0/" (UserPage.drop_digits rest));
    [|discriminate].
  intros [= <-]. split; [discriminate | exact Hd].
Qed.

Lemma search_game_id_digits s d :
  UserPage.search_game_id s = Some d -> d <> EmptyString /\ all_digits d = true.
Proof.
  induction s as [|c t IH]; cbn [UserPage.search_game_id].
  - destruct (UserPage.game_id_here "") eqn:E; [|discriminate].
    intros [= <-]. by apply game_id_here_digits in E.
  - destruct (UserPage.game_id_here (String c t)) eqn:E.
    + intros [= <-]. by apply game_id_here_digits in E.
    + exact IH.
Qed.

(** X10. Every match id [get_player_matches] returns is a non-empty run
    of decimal digits, so [int()] of it succeeds with a value that is not
    negative: the discovery loops never meet an id that does not parse.
    A failed request and an error status yield no candidates. *)
Theorem player_matches_ids_parse answer season :
  Forall
    (fun cand => exists n, Re.py_int (snd cand) = Some n /\ 0 <= n)
    (UserPage.get_player_matches answer season)
  /\ UserPage.get_player_matches RequestException season = []
  /\ (forall trs, UserPage.get_player_matches (Response false trs) season = []).
Proof.
  split; [|split; reflexivity].
  apply List.Forall_forall. intros [name id] Hin.
  destruct answer as [|[] trs]; simpl in Hin; try contradiction.
  unfold UserPage.parse_player_matches in Hin.
  apply List.in_flat_map in Hin as (row & _ & Hin).
  unfold UserPage.candidate_of_row in Hin.
  destruct (UserPage.other_season season row); [destruct Hin |].
  destruct (List.find _ (UserPage.anchors row)) as [opp|]; [|destruct Hin].
  destruct (List.find UserPage.is_game_link (UserPage.anchors row)) as [ml|];
    [|destruct Hin].
  destruct (UserPage.search_game_id (UserPage.href ml)) as [d|] eqn:E;
    [|destruct Hin].
  destruct Hin as [[= <- <-]|[]]. cbn [snd].
  apply search_game_id_digits in E as [Hne Hd].
  by apply py_int_of_digits.
Qed.

Lemma lower_char_idempotent c :
  PyStr.lower_char (PyStr.lower_char c) = PyStr.lower_char c.
Proof.
  unfold PyStr.lower_char.
  destruct ((65 <=? N_of_ascii c) && (N_of_ascii c <=? 90))%N eqn:E;
    [|by rewrite E].
  apply andb_prop in E as [H1 H2]. apply N.leb_le in H1, H2.
  rewrite N_ascii_embedding by lia.
  destruct ((65 <=? N_of_ascii c + 32) && (N_of_ascii c + 32 <=? 90))%N eqn:E2;
    [|reflexivity].
  apply andb_prop in E2 as [H3 H4]. apply N.leb_le in H3, H4. lia.
Qed.

Lemma lower_idempotent s : PyStr.lower (PyStr.lower s) = PyStr.lower s.
Proof.
  induction s as [|c t IH]; simpl; [reflexivity |].
  by rewrite lower_char_idempotent, IH.
Qed.

(** X11. With a non-empty season string [get_player_matches] returns, in
    page order, what it returns without a season for the rows whose text
    mentions the season; the comparison ignores the letter case of the
    season string, and without a season string no row is left out. *)
Theorem season_filter_selects_rows season trs :
  (PyStr.truthy season = true ->
   UserPage.parse_player_matches season trs
   = UserPage.parse_player_matches EmptyString
       (List.filter (mentions_season season) trs))
  /\ UserPage.parse_player_matches (PyStr.lower season) trs
     = UserPage.parse_player_matches season trs
  /\ (forall row,
         UserPage.other_season EmptyString row = false).
Proof.
  split; [|split; [|reflexivity]].
  - intros Ht. unfold UserPage.parse_player_matches.
    induction trs as [|r trs IH]; [reflexivity |].
    cbn [List.filter].
    destruct (List.existsb UserPage.is_game_link (UserPage.anchors r)) eqn:G;
      destruct (mentions_season season r) eqn:M; cbn [List.filter];
      rewrite ?G; cbn [List.flat_map]; rewrite IH; try reflexivity.
    + f_equal. unfold UserPage.candidate_of_row, UserPage.other_season.
      unfold mentions_season in M. by rewrite Ht, M.
    + unfold UserPage.candidate_of_row, UserPage.other_season.
      unfold mentions_season in M. by rewrite Ht, M.
  - unfold UserPage.parse_player_matches.
    assert (H : forall row, UserPage.candidate_of_row (PyStr.lower season) row
                            = UserPage.candidate_of_row season row).
    { intros row. unfold UserPage.candidate_of_row, UserPage.other_season.
      rewrite lower_idempotent.
      replace (PyStr.truthy (PyStr.lower season)) with (PyStr.truthy season)
        by (by destruct season).
      reflexivity. }
    induction (List.filter
                 (fun tr => List.existsb UserPage.is_game_link
                              (UserPage.anchors tr)) trs) as [|r l IH];
      [reflexivity |].
    simpl. by rewrite H, IH.
Qed.

Lemma season_filter_selects_rows_witness :
  PyStr.truthy " 34TH-season-2a " = true
  /\ UserPage.parse_player_matches " 34TH-season-2a "
       [UserPage.LinkRow "Bob 34th-Season-2A"
          [UserPage.Anchor "/bg/user/5" "Bob";
           UserPage.Anchor "/bg/game/123/0/" "Review"];
        UserPage.LinkRow "Carol 33th-season-2a"
          [UserPage.Anchor "/bg/user/6" "Carol";
           UserPage.Anchor "/bg/game/124/0/" "Review"]]
     = UserPage.parse_player_matches EmptyString
         (List.filter (mentions_season " 34TH-season-2a ")
            [UserPage.LinkRow "Bob 34th-Season-2A"
               [UserPage.Anchor "/bg/user/5" "Bob";
                UserPage.Anchor "/bg/game/123/0/" "Review"];
             UserPage.LinkRow "Carol 33th-season-2a"
               [UserPage.Anchor "/bg/user/6" "Carol";
                UserPage.Anchor "/bg/game/124/0/" "Review"]]).
Proof.
  split; [reflexivity |].
  exact (proj1 (season_filter_selects_rows " 34TH-season-2a " _) eq_refl).
Defined.

(** ** Score cells *)

Lemma append_cons c s t : (String c s ++ t)%string = String c (s ++ t).
Proof. reflexivity. Qed.

Lemma append_nil t : (EmptyString ++ t)%string = t.
Proof. reflexivity. Qed.

Lemma append_nil_r s : (s ++ EmptyString)%string = s.
Proof. induction s as [|c s IH]; [reflexivity |]. by rewrite append_cons, IH. Qed.

Lemma append_assoc_cons acc c t :
  ((acc ++ String c EmptyString) ++ t)%string = (acc ++ String c t)%string.
Proof.
  induction acc as [|a acc IH]; [reflexivity |].
  by rewrite !append_cons, IH.
Qed.

Lemma lstrip_all_space ws s :
  all_space ws = true -> PyStr.lstrip (ws ++ s) = PyStr.lstrip s.
Proof.
  induction ws as [|c t IH]; [reflexivity |].
  intros H. cbn [all_space] in H. apply andb_prop in H as [Hc Ht].
  rewrite append_cons. cbn [PyStr.lstrip]. rewrite Hc. by apply IH.
Qed.

Lemma take_digits_app digits tail :
  all_digits digits = true -> no_leading_digit tail = true ->
  Re.take_digits (digits ++ tail) = digits.
Proof.
  intros Hd Ht. induction digits as [|c t IH].
  - rewrite append_nil. destruct tail as [|c t]; [reflexivity |].
    cbn [no_leading_digit Re.take_digits] in *.
    by destruct (Re.is_digit c).
  - cbn [all_digits] in Hd. apply andb_prop in Hd as [Hc Hd].
    rewrite append_cons. cbn [Re.take_digits]. rewrite Hc.
    by rewrite IH.
Qed.

Lemma digit_not_space c : Re.is_digit c = true -> PyStr.is_space c = false.
Proof.
  unfold Re.is_digit, PyStr.is_space. cbv zeta. intros H.
  apply andb_prop in H as [H1 H2]. apply N.leb_le in H1, H2.
  apply orb_false_iff. split; apply andb_false_iff.
  - right. apply N.leb_gt. lia.
  - right. apply N.leb_gt. lia.
Qed.

Lemma lstrip_digits digits tail :
  all_digits digits = true ->
  PyStr.lstrip (digits ++ tail) = (digits ++ tail)%string
  \/ digits = EmptyString.
Proof.
  destruct digits as [|c t]; [by right |]. intros H. left.
  cbn [all_digits] in H. apply andb_prop in H as [Hc _].
  rewrite append_cons. cbn [PyStr.lstrip].
  by rewrite (digit_not_space c Hc).
Qed.

(** The part of a score cell behind the name. *)
Lemma colon_score_of_shape ws1 ws2 digits tail n :
  all_space ws1 = true -> all_space ws2 = true ->
  all_digits digits = true -> no_leading_digit tail = true ->
  Re.py_int digits = Some n ->
  Re.colon_score (ws1 ++ ":" ++ ws2 ++ digits ++ tail) = Some n.
Proof.
  intros H1 H2 Hd Ht Hn. unfold Re.colon_score.
  rewrite (lstrip_all_space ws1 _ H1).
  replace (PyStr.lstrip (":" ++ ws2 ++ digits ++ tail))
    with (String ":" (ws2 ++ digits ++ tail)) by reflexivity.
  cbv beta iota.
  rewrite (lstrip_all_space ws2 _ H2).
  destruct (lstrip_digits digits tail Hd) as [->| ->].
  - by rewrite take_digits_app.
  - discriminate Hn.
Qed.

Lemma colon_score_inside_name u rest :
  u <> EmptyString -> no_trailing_space u = true -> plain_name u = true ->
  Re.colon_score (u ++ rest) = None.
Proof.
  induction u as [|c t IH]; [congruence |]. intros _ Hts Hp.
  cbn [plain_name] in Hp. apply andb_prop in Hp as [Hc Hp].
  apply andb_prop in Hc as [Hcolon _].
  unfold Re.colon_score in *. rewrite append_cons. cbn [PyStr.lstrip].
  destruct (PyStr.is_space c) eqn:Hs.
  - destruct t as [|c2 t2];
      [cbn [no_trailing_space] in Hts; by rewrite Hs in Hts |].
    apply IH; [discriminate | exact Hts | exact Hp].
  - destruct (Ascii.eqb_spec c ":") as [->|Hne]; [discriminate |].
    destruct c as [[] [] [] [] [] [] [] []]; try reflexivity.
    congruence.
Qed.

Lemma lazy_name_of_shape acc u rest n :
  no_trailing_space u = true -> plain_name u = true ->
  Re.colon_score rest = Some n ->
  Re.lazy_name acc (u ++ rest) = Some ((acc ++ u)%string, n).
Proof.
  revert acc. induction u as [|c t IH]; intros acc Hts Hp Hn.
  - rewrite append_nil, append_nil_r.
    destruct rest; cbn [Re.lazy_name]; by rewrite Hn.
  - rewrite append_cons. cbn [Re.lazy_name]. rewrite <- append_cons.
    rewrite (colon_score_inside_name (String c t) rest ltac:(discriminate)
               Hts Hp).
    cbn [plain_name] in Hp. apply andb_prop in Hp as [Hc Hp].
    apply andb_prop in Hc as [_ Hnl]. apply negb_true_iff in Hnl.
    rewrite Hnl.
    rewrite IH; [| by destruct t | exact Hp | exact Hn].
    by rewrite append_assoc_cons.
Qed.

(** X12. A cell of the form name, optional white space, a colon,
    optional white space, a run of digits parses back to that name and
    that number, when the name is not empty, has no colon or line feed,
    does not end in white space, and the digits are not followed by
    another digit. *)
Theorem score_cell_round_trip name ws1 ws2 digits tail n :
  name <> EmptyString ->
  plain_name name = true -> no_trailing_space name = true ->
  all_space ws1 = true -> all_space ws2 = true ->
  all_digits digits = true -> no_leading_digit tail = true ->
  Re.py_int digits = Some n ->
  Re.name_colon_score (name ++ ws1 ++ ":" ++ ws2 ++ digits ++ tail)
  = Some (name, n).
Proof.
  intros Hne Hp Hts H1 H2 Hd Ht Hn.
  destruct name as [|c t]; [congruence |].
  rewrite append_cons. cbn [Re.name_colon_score].
  pose proof Hp as Hp'. cbn [plain_name] in Hp'.
  apply andb_prop in Hp' as [Hc Hpt]. apply andb_prop in Hc as [_ Hnl].
  apply negb_true_iff in Hnl. rewrite Hnl.
  rewrite (lazy_name_of_shape (String c EmptyString) t _ n);
    [reflexivity | by destruct t | exact Hpt |].
  by apply colon_score_of_shape.
Qed.

Lemma score_cell_round_trip_witness :
  Re.py_int "10" = Some 10
  /\ Re.name_colon_score ("Jean Luc" ++ "  " ++ ":" ++ " " ++ "10" ++ " pts")
     = Some ("Jean Luc", 10).
Proof.
  split; [reflexivity |].
  exact (score_cell_round_trip "Jean Luc" "  " " " "10" " pts" 10
           ltac:(discriminate) eq_refl eq_refl eq_refl eq_refl eq_refl
           eq_refl eq_refl).
Defined.

Lemma colon_score_nonneg rest n : Re.colon_score rest = Some n -> 0 <= n.
Proof.
  unfold Re.colon_score.
  destruct (PyStr.lstrip rest) as [|c r]; [discriminate |].
  destruct (Ascii.eqb_spec c ":") as [->|Hne].
  - intros H.
    destruct (Re.take_digits (PyStr.lstrip r)) as [|d ds] eqn:E;
      [discriminate |].
    destruct (py_int_of_digits (String d ds) ltac:(discriminate)
                ltac:(rewrite <- E; apply take_digits_all_digits))
      as (n' & Hn' & Hpos).
    congruence.
  - destruct c as [[] [] [] [] [] [] [] []]; try discriminate.
    congruence.
Qed.

Lemma lazy_name_sound acc s name n :
  Re.lazy_name acc s = Some (name, n) ->
  exists u rest,
    s = (u ++ rest)%string /\ name = (acc ++ u)%string
    /\ Re.colon_score rest = Some n.
Proof.
  revert acc. induction s as [|c t IH]; intros acc; cbn [Re.lazy_name].
  - destruct (Re.colon_score "") as [m|] eqn:E; [|discriminate].
    intros [= <- <-]. exists EmptyString, EmptyString.
    by rewrite append_nil_r.
  - destruct (Re.colon_score (String c t)) as [m|] eqn:E.
    + intros [= <- <-]. exists EmptyString, (String c t).
      by rewrite append_nil_r.
    + destruct (Re.is_newline c); [discriminate |].
      intros H. destruct (IH _ H) as (u & rest & -> & -> & Hr).
      exists (String c u), rest. rewrite append_cons.
      by rewrite append_assoc_cons.
Qed.

(** X13. When a cell parses as a score, the name is a non-empty start of
    the cell text, what follows it is white space, a colon, white space
    and the digits of the score, and the score is not negative. *)
Theorem score_cell_parse_is_sound s name n :
  Re.name_colon_score s = Some (name, n) ->
  name <> EmptyString /\ 0 <= n
  /\ exists rest, s = (name ++ rest)%string /\ Re.colon_score rest = Some n.
Proof.
  unfold Re.name_colon_score. destruct s as [|c t]; [discriminate |].
  destruct (Re.is_newline c); [discriminate |].
  intros H. apply lazy_name_sound in H as (u & rest & -> & -> & Hr).
  split; [discriminate |]. split; [by eapply colon_score_nonneg |].
  exists rest. by rewrite !append_cons.
Qed.

Lemma score_cell_parse_is_sound_witness :
  Re.name_colon_score "Al:ice  :  17 x" = Some ("Al:ice", 17)
  /\ "Al:ice" <> EmptyString /\ 0 <= 17.
Proof.
  split; [reflexivity |].
  destruct (score_cell_parse_is_sound "Al:ice  :  17 x" "Al:ice" 17 eq_refl)
    as (H1 & H2 & _).
  exact (conj H1 H2).
Defined.

(** ** [strip] *)

Lemma lstrip_fixed s : PyStr.lstrip (PyStr.lstrip s) = PyStr.lstrip s.
Proof.
  induction s as [|c t IH]; [reflexivity |]. cbn [PyStr.lstrip].
  destruct (PyStr.is_space c) eqn:E; [exact IH |].
  cbn [PyStr.lstrip]. by rewrite E.
Qed.

Lemma rstrip_keeps_lstrip_fixed t :
  PyStr.lstrip t = t -> PyStr.lstrip (PyStr.rstrip t) = PyStr.rstrip t.
Proof.
  destruct t as [|c t]; [reflexivity |]. cbn [PyStr.lstrip PyStr.rstrip].
  destruct (PyStr.is_space c) eqn:E.
  - intros H. exfalso.
    assert (Hlen : forall s,
               (String.length (PyStr.lstrip s) <= String.length s)%nat).
    { clear. induction s as [|a s IH]; simpl; [lia |].
      destruct (PyStr.is_space a); simpl; lia. }
    specialize (Hlen t). rewrite H in Hlen. simpl in Hlen. lia.
  - intros _. destruct (PyStr.rstrip t); cbn [PyStr.lstrip]; by rewrite E.
Qed.

Lemma rstrip_cons c t :
  PyStr.rstrip (String c t)
  = match PyStr.rstrip t with
    | EmptyString =>
        if PyStr.is_space c then EmptyString else String c EmptyString
    | String a s => String c (String a s)
    end.
Proof. reflexivity. Qed.

Lemma rstrip_fixed t : PyStr.rstrip (PyStr.rstrip t) = PyStr.rstrip t.
Proof.
  induction t as [|c t IH]; [reflexivity |]. rewrite rstrip_cons.
  destruct (PyStr.rstrip t) as [|c2 r] eqn:E.
  - destruct (PyStr.is_space c) eqn:Ec; [reflexivity |].
    rewrite rstrip_cons. cbn [PyStr.rstrip]. by rewrite Ec.
  - rewrite rstrip_cons. by rewrite IH.
Qed.

(** [strip] leaves a stripped string as it is. *)
Lemma strip_idempotent s : PyStr.strip (PyStr.strip s) = PyStr.strip s.
Proof.
  unfold PyStr.strip.
  rewrite (rstrip_keeps_lstrip_fixed (PyStr.lstrip s) (lstrip_fixed s)).
  apply rstrip_fixed.
Qed.

(** ** The latest score row *)

Lemma first_some_spec {A B : Type} (f : A -> option B) (l : list A) (y : B) :
  first_some f l = Some y
  <-> exists l1 x l2,
      l = (l1 ++ x :: l2)%list
      /\ Forall (fun a => f a = None) l1 /\ f x = Some y.
Proof.
  split.
  - induction l as [|a l IH]; simpl; [discriminate |].
    destruct (f a) as [b|] eqn:E.
    + intros [= ->]. exists [], a, l. repeat split; auto.
    + intros H. destruct (IH H) as (l1 & x & l2 & -> & Hall & Hx).
      exists (a :: l1), x, l2. repeat split; auto.
  - intros (l1 & x & l2 & -> & Hall & Hx).
    induction Hall as [|a l1 Ha _ IH]; simpl; [by rewrite Hx |].
    by rewrite Ha.
Qed.

Lemma first_some_none {A B : Type} (f : A -> option B) (l : list A) :
  first_some f l = None <-> Forall (fun a => f a = None) l.
Proof.
  induction l as [|a l IH]; simpl; [split; auto; constructor |].
  destruct (f a) eqn:E.
  - split; [discriminate |]. intros H. inversion H; congruence.
  - rewrite IH. split; [by constructor | intros H; by inversion H].
Qed.

Lemma score_cell_parse_is_sound_aux s name n :
  Re.name_colon_score s = Some (name, n) -> 0 <= n.
Proof.
  unfold Re.name_colon_score. destruct s as [|c t]; [discriminate |].
  destruct (Re.is_newline c); [discriminate |].
  intros H. apply lazy_name_sound in H as (u & rest & _ & _ & Hr).
  by eapply colon_score_nonneg.
Qed.

Lemma score_of_row_sound players row obs :
  score_of_row players row = Some obs ->
  mentions_any players (tr_text row) = true
  /\ PyStr.strip (left_name obs) = left_name obs
  /\ PyStr.strip (right_name obs) = right_name obs
  /\ 0 <= obs_left_score obs /\ 0 <= obs_right_score obs.
Proof.
  unfold score_of_row.
  destruct (mentions_any players (tr_text row)); [|discriminate].
  cbn [negb].
  destruct (td_texts row) as [|c0 [|c1 [|c2 cs]]]; try discriminate.
  destruct (Re.name_colon_score c1) as [[ln ls]|] eqn:E1; [|discriminate].
  destruct (Re.name_colon_score c2) as [[rn rs]|] eqn:E2; [|discriminate].
  intros [= <-]. cbn [left_name right_name obs_left_score obs_right_score].
  apply score_cell_parse_is_sound_aux in E1, E2.
  repeat split; auto using strip_idempotent.
Qed.

(** X14. [extract_latest_score] returns the observation of the row
    nearest to the bottom of the page that mentions a known player and
    has a score in its second and third cell; without such a row, and so
    on an empty page or with no known player, it returns nothing.  The
    names it returns are stripped and the scores are not negative. *)
Theorem latest_score_is_the_lowest_row html players :
  (forall obs,
      extract_latest_score html players = Some obs
      <-> exists above row below,
          page_trs html = (above ++ row :: below)%list
          /\ score_of_row players row = Some obs
          /\ Forall (fun r => score_of_row players r = None) below)
  /\ (extract_latest_score html players = None
      <-> Forall (fun r => score_of_row players r = None) (page_trs html))
  /\ extract_latest_score html [] = None
  /\ (forall obs,
         extract_latest_score html players = Some obs ->
         PyStr.strip (left_name obs) = left_name obs
         /\ PyStr.strip (right_name obs) = right_name obs
         /\ 0 <= obs_left_score obs /\ 0 <= obs_right_score obs).
Proof.
  unfold extract_latest_score. split; [|split; [|split]].
  - intros obs. rewrite first_some_spec. split.
    + intros (l1 & x & l2 & Hrev & Hall & Hx).
      exists (List.rev l2), x, (List.rev l1). split; [|split].
      * rewrite <- (List.rev_involutive (page_trs html)), Hrev.
        rewrite List.rev_app_distr. simpl. by rewrite <- app_assoc.
      * exact Hx.
      * apply List.Forall_forall. intros r Hr. apply List.in_rev in Hr.
        rewrite List.Forall_forall in Hall. by apply Hall.
    + intros (above & row & below & Heq & Hx & Hall).
      exists (List.rev below), row, (List.rev above). split; [|split].
      * rewrite Heq, List.rev_app_distr. simpl. by rewrite <- app_assoc.
      * apply List.Forall_forall. intros r Hr. apply List.in_rev in Hr.
        rewrite List.Forall_forall in Hall. by apply Hall.
      * exact Hx.
  - rewrite first_some_none. split; intros H; apply List.Forall_forall;
      intros r Hr; rewrite List.Forall_forall in H; apply H.
    + by apply List.in_rev in Hr.
    + by apply List.in_rev.
  - apply first_some_none. apply List.Forall_forall. intros r _.
    reflexivity.
  - intros obs H. apply first_some_spec in H as (l1 & x & l2 & _ & _ & Hx).
    apply score_of_row_sound in Hx. tauto.
Qed.

(** ** Step 1 and [map_scores] together *)

(** X15. When the record's names and the observed names carry no outer
    white space, the flag Step 1 resolves from an observation makes
    [map_scores] return for that observation what it returns without any
    flag: with the two steps reading the same score row, the scores are
    aligned by the names alone. *)
Theorem resolved_flag_agrees_with_names player opponent obs :
  PyStr.strip player = player -> PyStr.strip opponent = opponent ->
  PyStr.strip (left_name obs) = left_name obs ->
  PyStr.strip (right_name obs) = right_name obs ->
  map_scores player opponent (left_name obs) (right_name obs)
    (obs_left_score obs) (obs_right_score obs)
    (resolve_switched player opponent obs)
  = name_based_resolution player opponent (left_name obs) (right_name obs)
      (obs_left_score obs) (obs_right_score obs).
Proof.
  intros Hp Ho Hl Hr. unfold resolve_switched.
  destruct (String.eqb (PyStr.lower (left_name obs)) (PyStr.lower player)
            && String.eqb (PyStr.lower (right_name obs)) (PyStr.lower opponent))
    eqn:E1.
  - apply map_scores_by_names.
  - destruct (String.eqb (PyStr.lower (left_name obs)) (PyStr.lower opponent)
              && String.eqb (PyStr.lower (right_name obs)) (PyStr.lower player))
      eqn:E2.
    + unfold name_based_resolution. rewrite Hp, Ho, Hl, Hr, E1, E2.
      reflexivity.
    + apply map_scores_by_names.
Qed.

Lemma resolved_flag_agrees_with_names_witness :
  PyStr.strip "Alice" = "Alice" /\ PyStr.strip "Bob" = "Bob"
  /\ resolve_switched "Alice" "Bob" (Observation "bob" "ALICE" 7 4) = true
  /\ map_scores "Alice" "Bob" "bob" "ALICE" 7 4
       (resolve_switched "Alice" "Bob" (Observation "bob" "ALICE" 7 4))
     = name_based_resolution "Alice" "Bob" "bob" "ALICE" 7 4.
Proof.
  do 3 (split; [reflexivity |]).
  exact (resolved_flag_agrees_with_names "Alice" "Bob"
           (Observation "bob" "ALICE" 7 4) eq_refl eq_refl eq_refl eq_refl).
Defined.

(** ** Requests of a run *)

Lemma count_requests_snoc p t r :
  count_requests p (t ++ [r])%list
  = (count_requests p t + (if p r then 1 else 0))%nat.
Proof.
  unfold count_requests. rewrite List.filter_app, length_app. simpl.
  destruct (p r); simpl; lia.
Qed.

Lemma build_match_id_to_db_keys G store :
  NoDup (Dict.keys (build_match_id_to_db G store)).
Proof.
  unfold build_match_id_to_db.
  generalize (Sql.select (in_group G) store). intros rows.
  assert (H : forall d : list (Z * (string * string * bool)),
             NoDup (Dict.keys d) ->
             NoDup (Dict.keys
                      (List.fold_left
                         (fun d r =>
                            match match_id r with
                            | Some mid =>
                                Dict.set mid
                                  (player_name r, opponent_name r,
                                   switched_flag r) d
                            | None => d
                            end) rows d))).
  { induction rows as [|r rows IH]; intros d Hd; [exact Hd |].
    cbn [List.fold_left]. apply IH.
    destruct (match_id r); [by apply dict_set_keys | exact Hd]. }
  apply H. constructor.
Qed.

Lemma build_all_match_ids_keys G store :
  NoDup (Dict.keys (build_all_match_ids G store)).
Proof.
  unfold build_all_match_ids.
  generalize (Sql.select (in_group G) store). intros rows.
  assert (H : forall d : list (Z * (string * string)),
             NoDup (Dict.keys d) ->
             NoDup (Dict.keys
                      (List.fold_left
                         (fun d r =>
                            match match_id r with
                            | Some mid =>
                                Dict.set mid (player_name r, opponent_name r) d
                            | None => d
                            end) rows d))).
  { induction rows as [|r rows IH]; intros d Hd; [exact Hd |].
    cbn [List.fold_left]. apply IH.
    destruct (match_id r); [by apply dict_set_keys | exact Hd]. }
  apply H. constructor.
Qed.

(** A loop whose iteration for an entry sends at most one request that
    [p] counts, and none unless the entry has the key [mid], sends at
    most one such request when the keys are without repetition. *)
Lemma for_each_count_at_most_one {A : Type} (key : A -> Z) (mid : Z)
    (p : request -> bool) (body : A -> state -> state) (l : list A) (s : state) :
  NoDup (List.map key l) ->
  (forall x st,
      (count_requests p (trace (body x st))
       <= count_requests p (trace st)
          + (if Z.eqb (key x) mid then 1 else 0))%nat) ->
  (count_requests p (trace (for_each l body s))
   <= count_requests p (trace s) + 1)%nat
  /\ (~ In mid (List.map key l) ->
      (count_requests p (trace (for_each l body s))
       <= count_requests p (trace s))%nat).
Proof.
  intros Hnd Hbody. unfold for_each.
  assert (Habs : forall l' st,
             ~ In mid (List.map key l') ->
             (count_requests p
                (trace (List.fold_left (fun st x => body x st) l' st))
              <= count_requests p (trace st))%nat).
  { induction l' as [|x l' IH]; intros st Hn; simpl; [lia |].
    etransitivity; [apply IH; intros H; apply Hn; by right |].
    specialize (Hbody x st).
    destruct (Z.eqb_spec (key x) mid) as [E|E]; [|lia].
    exfalso. apply Hn. left. exact E. }
  split; [|apply Habs].
  revert s. induction l as [|x l IH]; intros s; simpl; [lia |].
  apply NoDup_cons in Hnd as [Hx Hnd]. specialize (IH Hnd).
  specialize (Hbody x s).
  destruct (Z.eqb_spec (key x) mid) as [E|E].
  - etransitivity; [apply Habs |].
    + rewrite <- E. intros H. apply Hx. by apply list_elem_of_In.
    + lia.
  - etransitivity; [apply IH |]. lia.
Qed.

Lemma prefetch_one_trace net k s :
  trace (prefetch_one net k s) = (trace s ++ [GetList k])%list.
Proof. reflexivity. Qed.

Lemma evaluate_one_trace entry s : trace (evaluate_one entry s) = trace s.
Proof.
  destruct entry as [mid [[p o] sw]]. unfold evaluate_one.
  destruct (Dict.mem mid (finished_by_id s)); [reflexivity |].
  destruct (negb (html_truthy (cache_get mid s))); [reflexivity |].
  destruct (cache_get mid s) as [pg|]; [|reflexivity].
  destruct (extract_latest_score pg [p; o]); reflexivity.
Qed.

Lemma detect_one_trace net k v s :
  trace (detect_one net (k, v) s) = (trace s ++ [GetExport k])%list.
Proof.
  destruct v as [p o]. unfold detect_one.
  destruct (export_lines_of _); [|reflexivity].
  destruct (winner_truthy _); reflexivity.
Qed.

Lemma refresh_one_trace net G players k v s :
  trace (refresh_one net G players (k, v) s) = trace s
  \/ (html_truthy (cache_get k s) = false
      /\ trace (refresh_one net G players (k, v) s)
         = (trace s ++ [GetList k])%list).
Proof.
  destruct v as [[p o] sw]. unfold refresh_one.
  destruct (match Sql.fetchone _ with Some r => has_eleven r | None => false end);
    [by left |].
  destruct (html_truthy (cache_get k s)) eqn:Hc; cbn [negb].
  - left. rewrite Hc. cbn [negb].
    destruct (cache_get k s) as [pg|]; [|reflexivity].
    destruct (extract_latest_score pg players); reflexivity.
  - right. split; [reflexivity |]. cbn [fetch_list_html].
    destruct (negb (html_truthy _)); [reflexivity |].
    destruct (list_html_of _) as [pg|]; [|reflexivity].
    destruct (extract_latest_score pg players); reflexivity.
Qed.

Lemma fill_missing_trace_counts net G needs_refresh s p :
  (forall u, p (GetUser u) = false) ->
  count_requests p (trace (fill_missing_match_ids net G needs_refresh s))
  = count_requests p (trace s).
Proof.
  intros Hp. unfold fill_missing_match_ids.
  destruct needs_refresh; simpl; [|reflexivity].
  generalize (load_existing_match_ids (db s)).
  generalize (Sql.select
                (fun r => in_group G r && is_null (match_id r)) (db s)).
  intros rows. revert s.
  induction rows as [|row rows IH]; intros s e; cbn [List.fold_left];
    [reflexivity |].
  unfold fill_missing_one at 2.
  destruct (DashboardStep2.candidate_loop _ _ _ _ _) as [e' d'].
  rewrite IH. cbn [trace set_db log_request].
  rewrite count_requests_snoc, Hp. lia.
Qed.

Lemma nodup_list_filter {A : Type} (f : A -> bool) (l : list A) :
  NoDup l -> NoDup (List.filter f l).
Proof.
  induction l as [|x l IH]; intros H; [exact H |].
  apply NoDup_cons in H as [Hx Hl]. cbn [List.filter].
  destruct (f x); [|exact (IH Hl)].
  apply NoDup_cons. split; [|exact (IH Hl)].
  rewrite list_elem_of_In, List.filter_In. intros [Hin _].
  apply Hx. by apply list_elem_of_In.
Qed.

Lemma evaluate_one_keys entry s :
  In (fst entry) (Dict.keys (match_id_to_db s)) ->
  Dict.keys (match_id_to_db (evaluate_one entry s))
  = Dict.keys (match_id_to_db s).
Proof.
  destruct entry as [mid [[p o] sw]]. cbn [fst]. intros Hin.
  unfold evaluate_one.
  destruct (Dict.mem mid (finished_by_id s)); [reflexivity |].
  destruct (negb (html_truthy (cache_get mid s))); [reflexivity |].
  destruct (cache_get mid s) as [pg|]; [|reflexivity].
  destruct (extract_latest_score pg [p; o]) as [obs|]; [|reflexivity].
  cbn [match_id_to_db set_match_id_to_db].
  generalize (p, o, resolve_switched p o obs). intros v.
  unfold Dict.keys in *.
  induction (match_id_to_db s) as [|[k2 v2] d IH]; [destruct Hin |].
  simpl in *. destruct (Z.eqb_spec mid k2) as [->|Hne]; [reflexivity |].
  simpl. f_equal. apply IH. destruct Hin; [congruence | assumption].
Qed.

Lemma prefetch_loop_dict net ids s :
  match_id_to_db (for_each ids (prefetch_one net) s) = match_id_to_db s.
Proof.
  apply (for_each_preserves (fun st => match_id_to_db st = match_id_to_db s));
    [|reflexivity].
  intros x st _ H. exact H.
Qed.

(** Step 1 keeps the keys of [match_id_to_db]. *)
Lemma check_existing_keys net s :
  Dict.keys (match_id_to_db (check_existing_matches net s))
  = Dict.keys (match_id_to_db s).
Proof.
  unfold check_existing_matches.
  set (s1 := for_each (to_fetch_ids s) (prefetch_one net) s).
  assert (H1 : match_id_to_db s1 = match_id_to_db s)
    by apply prefetch_loop_dict.
  rewrite <- H1.
  apply (for_each_preserves
           (fun st => Dict.keys (match_id_to_db st)
                      = Dict.keys (match_id_to_db s1))); [|reflexivity].
  intros entry st Hin Hst. rewrite evaluate_one_keys; [exact Hst |].
  rewrite Hst. unfold Dict.keys. apply List.in_map. exact Hin.
Qed.

Lemma check_existing_count net s p mid :
  NoDup (Dict.keys (match_id_to_db s)) ->
  (forall k, p (GetList k) = (k =? mid)) ->
  (count_requests p (trace (check_existing_matches net s))
   <= count_requests p (trace s) + 1)%nat.
Proof.
  intros Hnd Hp. unfold check_existing_matches.
  set (s1 := for_each (to_fetch_ids s) (prefetch_one net) s).
  assert (H1 : (count_requests p (trace s1)
                <= count_requests p (trace s) + 1)%nat).
  { unfold s1.
    apply (for_each_count_at_most_one (fun k => k) mid p).
    - rewrite List.map_id. unfold to_fetch_ids.
      apply nodup_list_filter. exact Hnd.
    - intros k st. rewrite prefetch_one_trace, count_requests_snoc, Hp.
      lia. }
  assert (H2 : count_requests p
                 (trace (for_each (match_id_to_db s1) evaluate_one s1))
               = count_requests p (trace s1)).
  { apply (for_each_preserves
             (fun st => count_requests p (trace st)
                        = count_requests p (trace s1))); [|reflexivity].
    intros x st _ H. by rewrite evaluate_one_trace. }
  lia.
Qed.

Lemma check_existing_count_other net s p :
  (forall k, p (GetList k) = false) ->
  count_requests p (trace (check_existing_matches net s))
  = count_requests p (trace s).
Proof.
  intros Hp. unfold check_existing_matches.
  apply (for_each_preserves
           (fun st => count_requests p (trace st)
                      = count_requests p (trace s))).
  - intros x st _ H. by rewrite evaluate_one_trace.
  - apply (for_each_preserves
             (fun st => count_requests p (trace st)
                        = count_requests p (trace s))); [|reflexivity].
    intros k st _ H.
    rewrite prefetch_one_trace, count_requests_snoc, Hp. lia.
Qed.

Lemma detect_winners_count net G s p mid :
  (forall k, p (GetExport k) = (k =? mid)) ->
  (count_requests p (trace (detect_winners net G s))
   <= count_requests p (trace s) + 1)%nat.
Proof.
  intros Hp. unfold detect_winners.
  apply (for_each_count_at_most_one fst mid p).
  - apply build_all_match_ids_keys.
  - intros [k v] st. rewrite detect_one_trace, count_requests_snoc, Hp.
    cbn [fst]. lia.
Qed.

Lemma detect_winners_count_other net G s p :
  (forall k, p (GetExport k) = false) ->
  count_requests p (trace (detect_winners net G s))
  = count_requests p (trace s).
Proof.
  intros Hp. unfold detect_winners.
  apply (for_each_preserves
           (fun st => count_requests p (trace st)
                      = count_requests p (trace s))); [|reflexivity].
  intros [k v] st _ H.
  rewrite detect_one_trace, count_requests_snoc, Hp. lia.
Qed.

Lemma detect_winners_dict net G s :
  match_id_to_db (detect_winners net G s) = match_id_to_db s.
Proof.
  unfold detect_winners.
  apply (for_each_preserves (fun st => match_id_to_db st = match_id_to_db s));
    [|reflexivity].
  intros [k [p o]] st _ H. rewrite <- H. unfold detect_one.
  destruct (export_lines_of _); [|reflexivity].
  destruct (winner_truthy _); reflexivity.
Qed.

Lemma refresh_scores_count net G s p mid :
  NoDup (Dict.keys (match_id_to_db s)) ->
  (forall k, p (GetList k) = (k =? mid)) ->
  (count_requests p (trace (refresh_scores net G s))
   <= count_requests p (trace s) + 1)%nat.
Proof.
  intros Hnd Hp. unfold refresh_scores.
  apply (for_each_count_at_most_one fst mid p); [exact Hnd |].
  intros [k v] st. cbn [fst].
  destruct (refresh_one_trace net G (players_in_matches G (db s)) k v st)
    as [->|[_ ->]]; [lia |].
  rewrite count_requests_snoc, Hp. lia.
Qed.

Lemma refresh_scores_count_other net G s p :
  (forall k, p (GetList k) = false) ->
  count_requests p (trace (refresh_scores net G s))
  = count_requests p (trace s).
Proof.
  intros Hp. unfold refresh_scores.
  apply (for_each_preserves
           (fun st => count_requests p (trace st)
                      = count_requests p (trace s))); [|reflexivity].
  intros [k v] st _ H.
  destruct (refresh_one_trace net G (players_in_matches G (db s)) k v st)
    as [->|[_ ->]]; [exact H |].
  rewrite count_requests_snoc, Hp. lia.
Qed.

(** X16. Whatever the store and the server, one run of the dashboard
    script sends at most one export request and at most two match-page
    requests for any match id. *)
Theorem requests_per_match_id_bounded net G needs_refresh store mid :
  (count_requests (is_export_request mid)
     (trace (sync_run net G needs_refresh store)) <= 1)%nat
  /\ (count_requests (is_list_request mid)
        (trace (sync_run net G needs_refresh store)) <= 2)%nat.
Proof.
  unfold sync_run, commit_final_results. cbn [trace set_db].
  set (s0 := fill_missing_match_ids net G needs_refresh (initial_state store)).
  set (s1 := set_match_id_to_db (build_match_id_to_db G (db s0)) s0).
  set (s2 := check_existing_matches net s1).
  set (s3 := detect_winners net G s2).
  assert (Hk1 : NoDup (Dict.keys (match_id_to_db s1)))
    by apply build_match_id_to_db_keys.
  assert (Hk3 : NoDup (Dict.keys (match_id_to_db s3))).
  { unfold s3. rewrite detect_winners_dict. unfold s2.
    by rewrite check_existing_keys. }
  split.
  - rewrite refresh_scores_count_other by reflexivity.
    etransitivity; [apply (detect_winners_count net G s2 _ mid) |].
    { intros k. reflexivity. }
    unfold s2. rewrite check_existing_count_other by reflexivity.
    unfold s1. cbn [trace set_match_id_to_db]. unfold s0.
    rewrite fill_missing_trace_counts by reflexivity.
    simpl. lia.
  - etransitivity; [apply (refresh_scores_count net G s3 _ mid Hk3) |].
    { intros k. reflexivity. }
    unfold s3. rewrite detect_winners_count_other by reflexivity.
    assert (H2 : (count_requests (is_list_request mid) (trace s2)
                  <= count_requests (is_list_request mid) (trace s1) + 1)%nat).
    { apply (check_existing_count net s1 _ mid Hk1).
      intros k. reflexivity. }
    assert (H1 : count_requests (is_list_request mid) (trace s1) = 0%nat).
    { unfold s1. cbn [trace set_match_id_to_db]. unfold s0.
      rewrite fill_missing_trace_counts by reflexivity. reflexivity. }
    lia.
Qed.

Lemma fill_missing_html_cache net G needs_refresh s :
  html_cache (fill_missing_match_ids net G needs_refresh s) = html_cache s.
Proof.
  unfold fill_missing_match_ids.
  destruct needs_refresh; simpl; [|reflexivity].
  generalize (load_existing_match_ids (db s)).
  generalize (Sql.select
                (fun r => in_group G r && is_null (match_id r)) (db s)).
  intros rows. revert s.
  induction rows as [|row rows IH]; intros s e; cbn [List.fold_left];
    [reflexivity |].
  unfold fill_missing_one at 2.
  destruct (DashboardStep2.candidate_loop _ _ _ _ _) as [e' d'].
  by rewrite IH.
Qed.

Lemma cache_get_insert_eq k v (s s1 : state) :
  cache_get k (set_html_cache (<[k := v]> (html_cache s1)) s) = v.
Proof.
  unfold cache_get. cbn [html_cache set_html_cache].
  by rewrite lookup_insert_eq.
Qed.

Lemma cache_get_insert_ne k mid v (s s1 : state) :
  k <> mid ->
  cache_get mid (set_html_cache (<[k := v]> (html_cache s1)) s)
  = cache_get mid s1.
Proof.
  intros Hne. unfold cache_get. cbn [html_cache set_html_cache].
  by rewrite lookup_insert_ne.
Qed.

Section UsablePage.

Variable net : remote.
Variable mid : Z.
Hypothesis usable :
  forall n, html_truthy (list_html_of (list_page net n mid)) = true.

Lemma prefetch_one_usable k s :
  k = mid \/ html_truthy (cache_get mid s) = true ->
  html_truthy (cache_get mid (prefetch_one net k s)) = true.
Proof.
  intros H. unfold prefetch_one, fetch_list_html.
  destruct (Z.eq_dec k mid) as [->|Hne].
  - rewrite cache_get_insert_eq. apply usable.
  - rewrite cache_get_insert_ne by exact Hne.
    destruct H as [H|H]; [contradiction | exact H].
Qed.

Lemma prefetch_loop_usable ids s :
  In mid ids \/ html_truthy (cache_get mid s) = true ->
  html_truthy (cache_get mid (for_each ids (prefetch_one net) s)) = true.
Proof.
  unfold for_each. revert s.
  induction ids as [|k ids IH]; intros s H; cbn [List.fold_left].
  - destruct H as [[]|H]. exact H.
  - apply IH. destruct H as [[->|H]|H].
    + right. apply prefetch_one_usable. by left.
    + by left.
    + right. apply prefetch_one_usable. by right.
Qed.

Lemma evaluate_one_cache entry s :
  html_cache (evaluate_one entry s) = html_cache s.
Proof.
  destruct entry as [k [[p o] sw]]. unfold evaluate_one.
  destruct (Dict.mem k (finished_by_id s)); [reflexivity |].
  destruct (negb (html_truthy (cache_get k s))); [reflexivity |].
  destruct (cache_get k s) as [pg|]; [|reflexivity].
  destruct (extract_latest_score pg [p; o]); reflexivity.
Qed.

Lemma detect_one_cache entry s :
  html_cache (detect_one net entry s) = html_cache s.
Proof.
  destruct entry as [k [p o]]. unfold detect_one.
  destruct (export_lines_of _); [|reflexivity].
  destruct (winner_truthy _); reflexivity.
Qed.

Lemma cache_get_ext s s' :
  html_cache s' = html_cache s -> cache_get mid s' = cache_get mid s.
Proof. unfold cache_get. by intros ->. Qed.

(** One iteration of the score loop with a usable page of [mid] in the
    cache keeps it there and sends no request for [mid]. *)
Lemma refresh_one_usable G players entry s p :
  (forall k, p (GetList k) = (k =? mid)) ->
  html_truthy (cache_get mid s) = true ->
  html_truthy (cache_get mid (refresh_one net G players entry s)) = true
  /\ count_requests p (trace (refresh_one net G players entry s))
     = count_requests p (trace s).
Proof.
  intros Hp Hc. destruct entry as [k [[pl op] sw]].
  unfold refresh_one.
  destruct (match Sql.fetchone _ with Some r => has_eleven r | None => false end);
    [by split |].
  destruct (html_truthy (cache_get k s)) eqn:Hk; cbn [negb].
  - rewrite Hk. cbn [negb].
    destruct (cache_get k s) as [pg|]; [|by split].
    destruct (extract_latest_score pg players); by split.
  - assert (Hne : k <> mid) by (intros ->; congruence).
    cbn [fetch_list_html].
    set (s1 := set_html_cache _ _).
    assert (H1 : html_truthy (cache_get mid s1) = true).
    { unfold s1. rewrite cache_get_insert_ne by exact Hne. exact Hc. }
    assert (H2 : count_requests p (trace s1) = count_requests p (trace s)).
    { unfold s1. cbn [trace set_html_cache log_request].
      rewrite count_requests_snoc, Hp.
      destruct (Z.eqb_spec k mid); [contradiction | lia]. }
    destruct (negb (html_truthy _)); [by split |].
    destruct (list_html_of _) as [pg|]; [|by split].
    destruct (extract_latest_score pg players); by split.
Qed.

End UsablePage.

(** X17. When the server answers every request for the match page of
    [mid] with a usable page, one run of the dashboard script requests
    that page at most once. *)
Theorem usable_page_requested_once net G needs_refresh store mid :
  (forall n, html_truthy (list_html_of (list_page net n mid)) = true) ->
  (count_requests (is_list_request mid)
     (trace (sync_run net G needs_refresh store)) <= 1)%nat.
Proof.
  intros usable.
  unfold sync_run, commit_final_results. cbn [trace set_db].
  set (s0 := fill_missing_match_ids net G needs_refresh (initial_state store)).
  set (s1 := set_match_id_to_db (build_match_id_to_db G (db s0)) s0).
  set (s2 := check_existing_matches net s1).
  set (s3 := detect_winners net G s2).
  set (p := is_list_request mid).
  assert (Hp : forall k, p (GetList k) = (k =? mid)) by reflexivity.
  assert (Hk1 : NoDup (Dict.keys (match_id_to_db s1)))
    by apply build_match_id_to_db_keys.
  assert (Hkeys3 : Dict.keys (match_id_to_db s3)
                   = Dict.keys (match_id_to_db s1)).
  { unfold s3. rewrite detect_winners_dict. unfold s2.
    apply check_existing_keys. }
  assert (H1 : count_requests p (trace s1) = 0%nat).
  { unfold s1. cbn [trace set_match_id_to_db]. unfold s0.
    rewrite fill_missing_trace_counts by reflexivity. reflexivity. }
  assert (H2 : (count_requests p (trace s2) <= 1)%nat).
  { pose proof (check_existing_count net s1 p mid Hk1 Hp) as H.
    fold s2 in H. lia. }
  assert (H3 : count_requests p (trace s3) = count_requests p (trace s2)).
  { unfold s3. by apply detect_winners_count_other. }
  destruct (List.in_dec Z.eq_dec mid (Dict.keys (match_id_to_db s1)))
    as [Hin|Hout].
  - (* the page of [mid] is in the cache from the prefetch on *)
    assert (Hc3 : html_truthy (cache_get mid s3) = true).
    { assert (Hc1 : html_cache s1 = ∅).
      { unfold s1. cbn [html_cache set_match_id_to_db]. unfold s0.
        by rewrite fill_missing_html_cache. }
      assert (Hf1 : finished_by_id s1 = []).
      { unfold s1. cbn [finished_by_id set_match_id_to_db]. unfold s0.
        by rewrite fill_missing_finished_by_id. }
      assert (Hfetch : In mid (to_fetch_ids s1)).
      { unfold to_fetch_ids. apply List.filter_In. split; [exact Hin |].
        rewrite Hc1, Hf1, lookup_empty. reflexivity. }
      unfold s3, detect_winners.
      apply (for_each_preserves
               (fun st => html_truthy (cache_get mid st) = true)).
      { intros x st _ H.
        by rewrite (cache_get_ext mid _ _ (detect_one_cache net x st)). }
      unfold s2, check_existing_matches.
      apply (for_each_preserves
               (fun st => html_truthy (cache_get mid st) = true)).
      { intros x st _ H.
        by rewrite (cache_get_ext mid _ _ (evaluate_one_cache x st)). }
      apply (prefetch_loop_usable net mid usable). by left. }
    unfold refresh_scores.
    enough (H : html_truthy
                  (cache_get mid
                     (for_each (match_id_to_db s3)
                        (refresh_one net G (players_in_matches G (db s3))) s3))
                = true
                /\ count_requests p
                     (trace
                        (for_each (match_id_to_db s3)
                           (refresh_one net G (players_in_matches G (db s3)))
                           s3))
                   = count_requests p (trace s3)).
    { destruct H as [_ H]. rewrite H. lia. }
    apply (for_each_preserves
             (fun st => html_truthy (cache_get mid st) = true
                        /\ count_requests p (trace st)
                           = count_requests p (trace s3))); [|by split].
    intros x st _ [Hc Hn].
    destruct (refresh_one_usable net mid G
                (players_in_matches G (db s3)) x st p Hp Hc) as [Hc' Hn'].
    split; [exact Hc' | by rewrite Hn'].
  - (* [mid] is no key of [match_id_to_db]: no request for it at all *)
    assert (Hk3 : NoDup (Dict.keys (match_id_to_db s3)))
      by (by rewrite Hkeys3).
    unfold refresh_scores.
    etransitivity.
    { apply (for_each_count_at_most_one fst mid p
               (refresh_one net G (players_in_matches G (db s3)))
               (match_id_to_db s3) s3 Hk3).
      - intros [k v] st. cbn [fst].
        destruct (refresh_one_trace net G (players_in_matches G (db s3))
                    k v st) as [->|[_ ->]]; [lia |].
        rewrite count_requests_snoc, Hp. lia.
      - fold (Dict.keys (match_id_to_db s3)). by rewrite Hkeys3. }
    lia.
Qed.

(** The answering server always returns a usable page, so the page of
    match 1 is requested once in a run over the plain record. *)
Lemma usable_page_requested_once_witness :
  (count_requests (is_list_request 1)
     (trace (sync_run Sample.answering_server 1 true [Sample.plain_row]))
   <= 1)%nat.
Proof.
  apply usable_page_requested_once.
  intros n. reflexivity.
Defined.

(** ** What a run of the dashboard script leaves alone *)

Lemma write_final_keeps {A : Type} (proj : match_row -> A) col mid store :
  (forall v r, proj (set_left_score v r) = proj r) ->
  (forall v r, proj (set_right_score v r) = proj r) ->
  (forall v r, proj (set_finished v r) = proj r) ->
  proj <$> write_final col mid store = proj <$> store.
Proof.
  intros Hl Hr Hf. unfold write_final. apply update_keeps.
  intros r. rewrite Hf. destruct col; [apply Hl | apply Hr].
Qed.

Lemma final_results_keeps {A : Type} (proj : match_row -> A) fb store :
  (forall v r, proj (set_left_score v r) = proj r) ->
  (forall v r, proj (set_right_score v r) = proj r) ->
  (forall v r, proj (set_finished v r) = proj r) ->
  proj <$> final_results fb store = proj <$> store.
Proof.
  intros Hl Hr Hf. unfold final_results. revert store.
  induction fb as [|[mid w] fb IH]; intros store; cbn [List.fold_left];
    [reflexivity |].
  rewrite IH. cbn [fst snd]. unfold final_result_step.
  destruct (record_of_match_id mid store) as [row|]; [|reflexivity].
  destruct (winner_column _ _ _ _) as [col|]; [|reflexivity].
  by apply write_final_keeps.
Qed.

(** X18. One run of the dashboard script neither adds, removes nor
    reorders records, and leaves the key, the group, the player id, both
    names and the stored switched flag of every record as they were. *)
Theorem run_keeps_identity_columns net G needs_refresh store :
  identity_of <$> db (sync_run net G needs_refresh store)
  = identity_of <$> store.
Proof.
  unfold sync_run, commit_final_results. cbn [db set_db].
  rewrite final_results_keeps by reflexivity.
  apply before_commit_keeps; reflexivity.
Qed.

(** X19. A record that is marked finished before a run of the dashboard
    script is marked finished after it. *)
Theorem finished_flag_never_cleared net G needs_refresh store i r :
  store !! i = Some r -> finished r = true ->
  exists r', db (sync_run net G needs_refresh store) !! i = Some r'
             /\ finished r' = true.
Proof.
  intros Hi Hf. unfold sync_run, commit_final_results. cbn [db set_db].
  set (s4 := refresh_scores _ _ _).
  assert (Hkeep : finished <$> db s4 = finished <$> store).
  { unfold s4. apply before_commit_keeps; reflexivity. }
  destruct (kept_column_lookup finished (db s4) store i r Hkeep Hi)
    as (r4 & H4 & E4).
  destruct (final_results_row (finished_by_id s4) (db s4) i r4 H4)
    as (r' & H' & (_ & _ & _ & Hfin) & _).
  exists r'. split; [exact H' |].
  destruct Hfin as [E|E]; [|exact E]. by rewrite E, E4.
Qed.

Lemma finished_flag_never_cleared_witness :
  exists r',
    db (sync_run Sample.answering_server 1 true [StoreSample.finished_row])
      !! 0%nat = Some r'
    /\ finished r' = true.
Proof.
  exact (finished_flag_never_cleared Sample.answering_server 1 true
           [StoreSample.finished_row] 0 StoreSample.finished_row
           eq_refl eq_refl).
Defined.

Section Unreachable.

Variable net : remote.
Hypothesis down : unreachable net.

Lemma fill_missing_unreachable G needs_refresh s :
  db (fill_missing_match_ids net G needs_refresh s) = db s.
Proof.
  destruct down as (Hfeed & _ & _).
  unfold fill_missing_match_ids.
  destruct needs_refresh; simpl; [|reflexivity].
  generalize (load_existing_match_ids (db s)).
  generalize (Sql.select
                (fun r => in_group G r && is_null (match_id r)) (db s)).
  intros rows. revert s.
  induction rows as [|row rows IH]; intros s e; cbn [List.fold_left];
    [reflexivity |].
  unfold fill_missing_one at 2. rewrite Hfeed.
  cbn [DashboardStep2.candidate_loop]. by rewrite IH.
Qed.

Lemma cache_unusable_insert k (s s1 : state) :
  cache_unusable s1 ->
  cache_unusable (set_html_cache (<[k := None]> (html_cache s1)) s).
Proof.
  intros H m. destruct (Z.eq_dec k m) as [->|Hne].
  - apply cache_get_insert_eq.
  - rewrite cache_get_insert_ne by exact Hne. apply H.
Qed.

Lemma prefetch_one_unreachable k s :
  cache_unusable s -> cache_unusable (prefetch_one net k s).
Proof.
  destruct down as (_ & Hlist & _). intros H.
  unfold prefetch_one, fetch_list_html. rewrite Hlist.
  apply cache_unusable_insert. exact H.
Qed.

Lemma refresh_one_unreachable G players entry s :
  cache_unusable s ->
  cache_unusable (refresh_one net G players entry s)
  /\ db (refresh_one net G players entry s) = db s.
Proof.
  destruct down as (_ & Hlist & _). intros H.
  destruct entry as [k [[p o] sw]]. unfold refresh_one.
  destruct (match Sql.fetchone _ with Some r => has_eleven r | None => false end);
    [by split |].
  rewrite (H k). cbn [html_truthy negb fetch_list_html].
  rewrite Hlist. cbn [html_truthy negb].
  split; [|reflexivity].
  apply cache_unusable_insert. exact H.
Qed.

Lemma detect_one_unreachable entry s :
  finished_by_id (detect_one net entry s) = finished_by_id s.
Proof.
  destruct down as (_ & _ & Hexp).
  destruct entry as [k [p o]]. unfold detect_one. by rewrite Hexp.
Qed.

End Unreachable.

(** X20. When the server cannot be reached, one run of the dashboard
    script leaves the store exactly as it was. *)
Theorem unreachable_server_leaves_store net G needs_refresh store :
  unreachable net ->
  db (sync_run net G needs_refresh store) = store.
Proof.
  intros down. unfold sync_run, commit_final_results. cbn [db set_db].
  set (s0 := fill_missing_match_ids net G needs_refresh (initial_state store)).
  set (s1 := set_match_id_to_db (build_match_id_to_db G (db s0)) s0).
  set (s2 := check_existing_matches net s1).
  set (s3 := detect_winners net G s2).
  set (s4 := refresh_scores net G s3).
  assert (Hdb0 : db s0 = store)
    by apply (fill_missing_unreachable net down G needs_refresh
                (initial_state store)).
  assert (Hdb3 : db s3 = store).
  { unfold s3. rewrite detect_winners_db. unfold s2.
    rewrite check_existing_matches_db. exact Hdb0. }
  assert (Hfin : finished_by_id s4 = []).
  { unfold s4. rewrite refresh_scores_finished_by_id. unfold s3, detect_winners.
    apply (for_each_preserves (fun st => finished_by_id st = [])).
    { intros x st _ H. by rewrite (detect_one_unreachable net down). }
    unfold s2. rewrite check_existing_finished_by_id. unfold s1.
    cbn [finished_by_id set_match_id_to_db]. unfold s0.
    by rewrite fill_missing_finished_by_id. }
  assert (Hc3 : cache_unusable s3).
  { unfold s3, detect_winners.
    apply (for_each_preserves cache_unusable).
    { intros x st _ H k.
      rewrite (cache_get_ext k _ _ (detect_one_cache net x st)). apply H. }
    unfold s2, check_existing_matches.
    apply (for_each_preserves cache_unusable).
    { intros x st _ H k.
      rewrite (cache_get_ext k _ _ (evaluate_one_cache x st)). apply H. }
    apply (for_each_preserves cache_unusable).
    { intros k st _ H. by apply prefetch_one_unreachable. }
    intros k. unfold cache_get, s1. cbn [html_cache set_match_id_to_db].
    unfold s0. rewrite fill_missing_html_cache. cbn [html_cache initial_state].
    by rewrite lookup_empty. }
  assert (Hdb4 : db s4 = store).
  { unfold s4, refresh_scores.
    enough (H : cache_unusable
                  (for_each (match_id_to_db s3)
                     (refresh_one net G (players_in_matches G (db s3))) s3)
                /\ db (for_each (match_id_to_db s3)
                         (refresh_one net G (players_in_matches G (db s3))) s3)
                   = store) by apply H.
    apply (for_each_preserves
             (fun st => cache_unusable st /\ db st = store)); [|by split].
    intros x st _ [Hc Hd].
    destruct (refresh_one_unreachable net down G
                (players_in_matches G (db s3)) x st Hc) as [Hc' Hd'].
    split; [exact Hc' | by rewrite Hd']. }
  rewrite Hfin, Hdb4. reflexivity.
Qed.

Lemma unreachable_server_leaves_store_witness :
  db (sync_run StoreSample.down_server 1 true
        [Sample.unmatched_row; Sample.attached_row])
  = [Sample.unmatched_row; Sample.attached_row].
Proof.
  apply unreachable_server_leaves_store.
  repeat split; intros; reflexivity.
Defined.

(** ** Invariants of identifier discovery *)

Lemma pk_unique_lookup store i j r r' :
  pk_unique store -> store !! i = Some r -> store !! j = Some r' ->
  match_pk r = match_pk r' -> i = j.
Proof.
  intros Hu Hi Hj E.
  apply (NoDup_lookup (match_pk <$> store) i j (match_pk r) Hu).
  - by rewrite list_lookup_fmap, Hi.
  - by rewrite list_lookup_fmap, Hj, E.
Qed.

Lemma pk_unique_update cond f store :
  (forall r, match_pk (f r) = match_pk r) ->
  pk_unique store -> pk_unique (Sql.update cond f store).
Proof.
  intros Hf Hu. unfold pk_unique. by rewrite (update_keeps match_pk).
Qed.

(** Attaching an id no record carries to the record of one key keeps the
    ids unique. *)
Lemma ids_unique_attach pk f mid existing store :
  pk_unique store -> ids_unique store -> covers existing store ->
  mid ∉ existing ->
  (forall r, match_id (f r) = Some mid) ->
  ids_unique (Sql.update (fun r => match_pk r =? pk) f store).
Proof.
  intros Hu Hids Hc Hnin Hf i j r r' m Hi Hj Hm Hm'.
  rewrite update_lookup in Hi, Hj.
  destruct (store !! i) as [a|] eqn:Ha; [|discriminate].
  destruct (store !! j) as [b|] eqn:Hb; [|discriminate].
  cbn [fmap option_fmap option_map] in Hi, Hj.
  injection Hi as <-. injection Hj as <-.
  assert (Hfresh : forall x, x ∈ store -> match_id x <> Some mid).
  { intros x Hx E. apply Hnin. exact (Hc x mid Hx E). }
  destruct (Z.eqb_spec (match_pk a) pk) as [Ea|Ea];
    destruct (Z.eqb_spec (match_pk b) pk) as [Eb|Eb].
  - apply (pk_unique_lookup store i j a b Hu Ha Hb). congruence.
  - exfalso. rewrite Hf in Hm. injection Hm as <-.
    apply (Hfresh b); [by eapply list_elem_of_lookup_2 | exact Hm'].
  - exfalso. rewrite Hf in Hm'. injection Hm' as <-.
    apply (Hfresh a); [by eapply list_elem_of_lookup_2 | exact Hm].
  - exact (Hids i j a b m Ha Hb Hm Hm').
Qed.

Lemma attached_once_attach pk f mid existing store :
  attached_once existing store -> mid ∉ existing ->
  (forall r, match_id (f r) = Some mid) ->
  (forall r, match_pk (f r) = match_pk r) ->
  attached_once ({[mid]} ∪ existing)
    (Sql.update (fun r => match_pk r =? pk) f store).
Proof.
  intros (Hu & Hids & Hc) Hnin Hf Hpk. split; [|split].
  - by apply pk_unique_update.
  - by apply (ids_unique_attach pk f mid existing).
  - by apply covers_attach.
Qed.

Lemma find_loop_attached_once do_commit pk p o cands existing store :
  attached_once existing store ->
  attached_once
    (snd (fst (FindMatchIds.candidate_loop do_commit pk p o cands
                 existing store)))
    (snd (FindMatchIds.candidate_loop do_commit pk p o cands existing store)).
Proof.
  intros Hok. induction cands as [|[name ids] cands IH]; simpl; [exact Hok |].
  destruct (Re.py_int ids) as [mid|]; [|exact IH].
  destruct (decide (mid ∈ existing)) as [Hin|Hnin].
  { by rewrite bool_decide_eq_true_2. }
  rewrite bool_decide_eq_false_2 by done.
  destruct (if same_name name o then Some false
            else if same_name name p then Some true else None) as [sw|];
    [|exact IH].
  destruct do_commit; simpl; [|exact Hok].
  apply attached_once_attach; [exact Hok | exact Hnin | |];
    intros r; by destruct r.
Qed.

Lemma process_missing_attached_once net do_commit acc row :
  attached_once (fst (fst acc)) (snd (fst acc)) ->
  attached_once
    (fst (fst (FindMatchIds.process_missing net do_commit acc row)))
    (snd (fst (FindMatchIds.process_missing net do_commit acc row))).
Proof.
  destruct acc as [[existing store] sent]. cbn [fst snd]. intros Hok.
  unfold FindMatchIds.process_missing.
  destruct (dg_player_id row) as [pid|]; [|exact Hok].
  pose proof (find_loop_attached_once do_commit (match_pk row)
                (player_name row) (opponent_name row)
                (user_matches net (List.length sent) (Some pid))
                existing store Hok) as H.
  destruct (FindMatchIds.candidate_loop _ _ _ _ _ _ _) as [[saved e'] st'].
  exact H.
Qed.

Lemma process_missing_fold_attached_once net do_commit rows acc :
  attached_once (fst (fst acc)) (snd (fst acc)) ->
  attached_once
    (fst (fst (List.fold_left (FindMatchIds.process_missing net do_commit)
                 rows acc)))
    (snd (fst (List.fold_left (FindMatchIds.process_missing net do_commit)
                 rows acc))).
Proof.
  revert acc. induction rows as [|row rows IH]; intros acc Hok;
    cbn [List.fold_left]; [exact Hok |].
  apply IH. by apply process_missing_attached_once.
Qed.

Lemma process_groups_fold_attached_once net do_commit groups acc :
  attached_once (fst (fst acc)) (snd (fst acc)) ->
  attached_once
    (fst (fst (List.fold_left (FindMatchIds.process_group net do_commit)
                 groups acc)))
    (snd (fst (List.fold_left (FindMatchIds.process_group net do_commit)
                 groups acc))).
Proof.
  revert acc. induction groups as [|g groups IH]; intros acc Hok;
    cbn [List.fold_left]; [exact Hok |].
  apply IH. unfold FindMatchIds.process_group.
  by apply process_missing_fold_attached_once.
Qed.

(** X21. [process_groups] never attaches a remote id to two records: on
    a store with unique keys in which no two records share a remote id,
    no two records share one afterwards. *)
Theorem discovery_keeps_ids_unique net do_commit groups store :
  pk_unique store -> ids_unique store ->
  ids_unique
    (snd (fst (FindMatchIds.process_groups net do_commit groups store))).
Proof.
  intros Hu Hids. unfold FindMatchIds.process_groups.
  apply (process_groups_fold_attached_once net do_commit groups
           (load_existing_match_ids store, store, [])).
  cbn [fst snd]. split; [exact Hu | split; [exact Hids |]].
  apply load_existing_covers.
Qed.

Lemma sample_ids_unique :
  ids_unique [Sample.plain_row; StoreSample.carol_row].
Proof.
  intros i j r r' m Hi Hj Hm Hm'.
  destruct i as [|[|i]]; destruct j as [|[|j]]; simpl in Hi, Hj;
    try discriminate; try reflexivity;
    injection Hi as <-; injection Hj as <-; discriminate.
Qed.

Lemma sample_pk_unique :
  pk_unique [Sample.plain_row; StoreSample.carol_row].
Proof. apply (bool_decide_unpack _). vm_compute. exact I. Qed.

Lemma discovery_keeps_ids_unique_witness :
  ids_unique
    (snd (fst (FindMatchIds.process_groups StoreSample.carol_feed_server
                 true [1] [Sample.plain_row; StoreSample.carol_row]))).
Proof.
  exact (discovery_keeps_ids_unique StoreSample.carol_feed_server true [1]
           [Sample.plain_row; StoreSample.carol_row]
           sample_pk_unique sample_ids_unique).
Defined.

Lemma update_other_pk pk f store i r :
  store !! i = Some r -> match_pk r <> pk ->
  Sql.update (fun r' => match_pk r' =? pk) f store !! i = Some r.
Proof.
  intros Hi Hne. rewrite update_lookup, Hi. simpl.
  destruct (Z.eqb_spec (match_pk r) pk); [contradiction | reflexivity].
Qed.

(** A record selected as missing has another key than a record that
    carries a remote id. *)
Lemma missing_row_other_pk cond store i r m x :
  pk_unique store -> store !! i = Some r -> match_id r = Some m ->
  In x (Sql.select (fun r' => cond r' && is_null (match_id r')) store) ->
  match_pk x <> match_pk r.
Proof.
  intros Hu Hi Hm Hx E. unfold Sql.select in Hx.
  apply List.filter_In in Hx as [Hin Hc].
  apply andb_true_iff in Hc as [_ Hnull].
  destruct (in_lookup store x Hin) as [j Hj].
  assert (j = i) as -> by exact (pk_unique_lookup store j i x r Hu Hj Hi E).
  rewrite Hi in Hj. injection Hj as <-. rewrite Hm in Hnull. discriminate.
Qed.

Lemma find_loop_other_pk do_commit pk p o cands existing store i r :
  store !! i = Some r -> match_pk r <> pk ->
  snd (FindMatchIds.candidate_loop do_commit pk p o cands existing store) !! i
  = Some r.
Proof.
  intros Hi Hne. induction cands as [|[name ids] cands IH]; simpl;
    [exact Hi |].
  destruct (Re.py_int ids) as [mid|]; [|exact IH].
  destruct (bool_decide (mid ∈ existing)); [exact IH |].
  destruct (if same_name name o then Some false
            else if same_name name p then Some true else None) as [sw|];
    [|exact IH].
  destruct do_commit; simpl; [|exact Hi].
  by apply update_other_pk.
Qed.

Lemma find_loop_pks do_commit pk p o cands existing store :
  match_pk <$>
    snd (FindMatchIds.candidate_loop do_commit pk p o cands existing store)
  = match_pk <$> store.
Proof.
  induction cands as [|[name ids] cands IH]; simpl; [reflexivity |].
  destruct (Re.py_int ids) as [mid|]; [|exact IH].
  destruct (bool_decide (mid ∈ existing)); [exact IH |].
  destruct (if same_name name o then Some false
            else if same_name name p then Some true else None) as [sw|];
    [|exact IH].
  destruct do_commit; simpl; [|reflexivity].
  apply update_keeps. intros r. by destruct r.
Qed.

Lemma process_missing_fold_keeps_row net do_commit rows acc i r :
  (forall x, In x rows -> match_pk x <> match_pk r) ->
  snd (fst acc) !! i = Some r ->
  snd (fst (List.fold_left (FindMatchIds.process_missing net do_commit)
              rows acc)) !! i = Some r
  /\ match_pk <$>
       snd (fst (List.fold_left (FindMatchIds.process_missing net do_commit)
                   rows acc))
     = match_pk <$> snd (fst acc).
Proof.
  revert acc. induction rows as [|row rows IH]; intros acc Hrows Hi;
    cbn [List.fold_left]; [by split |].
  assert (Hstep :
            snd (fst (FindMatchIds.process_missing net do_commit acc row)) !! i
            = Some r
            /\ match_pk <$>
                 snd (fst (FindMatchIds.process_missing net do_commit acc row))
               = match_pk <$> snd (fst acc)).
  { destruct acc as [[existing store] sent]. cbn [fst snd] in *.
    unfold FindMatchIds.process_missing.
    destruct (dg_player_id row) as [pid|]; [|by split].
    pose proof (find_loop_other_pk do_commit (match_pk row)
                  (player_name row) (opponent_name row)
                  (user_matches net (List.length sent) (Some pid))
                  existing store i r Hi) as H1.
    pose proof (find_loop_pks do_commit (match_pk row)
                  (player_name row) (opponent_name row)
                  (user_matches net (List.length sent) (Some pid))
                  existing store) as H2.
    destruct (FindMatchIds.candidate_loop _ _ _ _ _ _ _) as [[saved e'] st'].
    cbn [fst snd] in *. split; [|exact H2].
    apply H1. intros E. apply (Hrows row); [by left | by symmetry]. }
  destruct Hstep as [Hi' Hpk'].
  destruct (IH (FindMatchIds.process_missing net do_commit acc row))
    as [Hi'' Hpk'']; [intros x Hx; apply Hrows; by right | exact Hi' |].
  split; [exact Hi'' | by rewrite Hpk'', Hpk'].
Qed.

(** X22. [process_groups] never replaces a remote id: on a store with
    unique keys, a record that already carries a remote id comes out of
    the search unchanged. *)
Theorem discovery_keeps_attached_records net do_commit groups store i r m :
  pk_unique store -> store !! i = Some r -> match_id r = Some m ->
  snd (fst (FindMatchIds.process_groups net do_commit groups store)) !! i
  = Some r.
Proof.
  intros Hu Hi Hm. unfold FindMatchIds.process_groups.
  assert (Hgen : forall acc : gset Z * list match_row * list request,
             pk_unique (snd (fst acc)) -> snd (fst acc) !! i = Some r ->
             snd (fst (List.fold_left
                         (FindMatchIds.process_group net do_commit)
                         groups acc)) !! i = Some r).
  { induction groups as [|g groups IH]; intros acc Hu' Hi';
      cbn [List.fold_left]; [exact Hi' |].
    unfold FindMatchIds.process_group at 2.
    destruct (process_missing_fold_keeps_row net do_commit
                (Sql.select (fun r' => (group_id r' =? g)
                                       && is_null (match_id r'))
                   (snd (fst acc)))
                acc i r) as [Hi'' Hpk''].
    { intros x Hx.
      exact (missing_row_other_pk _ (snd (fst acc)) i r m x Hu' Hi' Hm Hx). }
    { exact Hi'. }
    apply IH; [|exact Hi''].
    unfold pk_unique. rewrite Hpk''. exact Hu'. }
  apply (Hgen (load_existing_match_ids store, store, [])); assumption.
Qed.

Lemma discovery_keeps_attached_records_witness :
  snd (fst (FindMatchIds.process_groups StoreSample.carol_feed_server
              true [1] [Sample.plain_row; StoreSample.carol_row])) !! 0%nat
  = Some Sample.plain_row.
Proof.
  exact (discovery_keeps_attached_records StoreSample.carol_feed_server
           true [1] [Sample.plain_row; StoreSample.carol_row] 0
           Sample.plain_row 1 sample_pk_unique eq_refl eq_refl).
Defined.

Lemma find_loop_dry_run pk p o cands existing store :
  snd (fst (FindMatchIds.candidate_loop false pk p o cands existing store))
  = existing
  /\ snd (FindMatchIds.candidate_loop false pk p o cands existing store)
     = store.
Proof.
  induction cands as [|[name ids] cands IH]; simpl; [by split |].
  destruct (Re.py_int ids) as [mid|]; [|exact IH].
  destruct (bool_decide (mid ∈ existing)); [exact IH |].
  destruct (if same_name name o then Some false
            else if same_name name p then Some true else None) as [sw|];
    [by split | exact IH].
Qed.

Lemma process_missing_fold_dry_run net rows acc :
  fst (List.fold_left (FindMatchIds.process_missing net false) rows acc)
  = fst acc.
Proof.
  revert acc. induction rows as [|row rows IH]; intros acc;
    cbn [List.fold_left]; [reflexivity |].
  rewrite IH. destruct acc as [[existing store] sent].
  unfold FindMatchIds.process_missing.
  destruct (dg_player_id row) as [pid|]; [|reflexivity].
  destruct (find_loop_dry_run (match_pk row) (player_name row)
              (opponent_name row)
              (user_matches net (List.length sent) (Some pid))
              existing store) as [He Hs].
  destruct (FindMatchIds.candidate_loop _ _ _ _ _ _ _) as [[saved e'] st'].
  cbn [fst snd] in *. by rewrite He, Hs.
Qed.

(** X23. A dry run of [process_groups] ([do_commit = False]) writes
    nothing: the store and the set of attached ids come out as they went
    in, whatever the server offers. *)
Theorem dry_run_writes_nothing net groups store :
  fst (FindMatchIds.process_groups net false groups store)
  = (load_existing_match_ids store, store).
Proof.
  unfold FindMatchIds.process_groups.
  generalize (@nil request). generalize (load_existing_match_ids store).
  revert store.
  induction groups as [|g groups IH]; intros store e sent;
    cbn [List.fold_left]; [reflexivity |].
  unfold FindMatchIds.process_group at 2.
  pose proof (process_missing_fold_dry_run net
                (Sql.select (fun r => (group_id r =? g)
                                      && is_null (match_id r))
                   (snd (fst (e, store, sent))))
                (e, store, sent)) as H.
  destruct (List.fold_left (FindMatchIds.process_missing net false) _ _)
    as [[e' st'] sent'].
  cbn [fst] in H. injection H as -> ->. apply IH.
Qed.

(** ** The same invariants for Step 2 of the dashboard script *)

Lemma step2_loop_attached_once pk o cands existing store :
  attached_once existing store ->
  attached_once
    (fst (DashboardStep2.candidate_loop pk o cands existing store))
    (snd (DashboardStep2.candidate_loop pk o cands existing store)).
Proof.
  intros Hok. induction cands as [|[name ids] cands IH]; simpl; [exact Hok |].
  destruct (negb (same_name name o)); [exact IH |].
  destruct (Re.py_int ids) as [mid|]; [|exact IH].
  destruct (decide (mid ∈ existing)) as [Hin|Hnin].
  { by rewrite bool_decide_eq_true_2. }
  rewrite bool_decide_eq_false_2 by done. simpl.
  apply attached_once_attach; [exact Hok | exact Hnin | |];
    intros r; by destruct r.
Qed.

Lemma step2_loop_other_pk pk o cands existing store i r :
  store !! i = Some r -> match_pk r <> pk ->
  snd (DashboardStep2.candidate_loop pk o cands existing store) !! i = Some r.
Proof.
  intros Hi Hne. induction cands as [|[name ids] cands IH]; simpl;
    [exact Hi |].
  destruct (negb (same_name name o)); [exact IH |].
  destruct (Re.py_int ids) as [mid|]; [|exact IH].
  destruct (bool_decide (mid ∈ existing)); [exact IH |].
  simpl. by apply update_other_pk.
Qed.

Lemma fill_missing_one_attached_once net es row :
  attached_once (fst es) (db (snd es)) ->
  attached_once (fst (fill_missing_one net es row))
    (db (snd (fill_missing_one net es row))).
Proof.
  destruct es as [existing s]. cbn [fst snd]. intros Hok.
  unfold fill_missing_one.
  pose proof (step2_loop_attached_once (match_pk row) (opponent_name row)
                (user_matches net (List.length (trace s)) (dg_player_id row))
                existing (db (log_request (GetUser (dg_player_id row)) s))
                Hok) as H.
  destruct (DashboardStep2.candidate_loop _ _ _ _ _) as [e' d'].
  exact H.
Qed.

Lemma fill_missing_one_other_pk net es row i r :
  db (snd es) !! i = Some r -> match_pk r <> match_pk row ->
  db (snd (fill_missing_one net es row)) !! i = Some r.
Proof.
  destruct es as [existing s]. cbn [fst snd]. intros Hi Hne.
  unfold fill_missing_one.
  pose proof (step2_loop_other_pk (match_pk row) (opponent_name row)
                (user_matches net (List.length (trace s)) (dg_player_id row))
                existing (db (log_request (GetUser (dg_player_id row)) s))
                i r Hi Hne) as H.
  destruct (DashboardStep2.candidate_loop _ _ _ _ _) as [e' d'].
  exact H.
Qed.

Lemma fill_missing_ids_unique net G needs_refresh s :
  pk_unique (db s) -> ids_unique (db s) ->
  ids_unique (db (fill_missing_match_ids net G needs_refresh s)).
Proof.
  intros Hu Hids. unfold fill_missing_match_ids.
  destruct needs_refresh; cbn [negb]; [|exact Hids].
  assert (Hgen : forall rows es,
             attached_once (fst es) (db (snd es)) ->
             attached_once
               (fst (List.fold_left (fill_missing_one net) rows es))
               (db (snd (List.fold_left (fill_missing_one net) rows es)))).
  { induction rows as [|row rows IH]; intros es Hok; cbn [List.fold_left];
      [exact Hok |].
    apply IH. by apply fill_missing_one_attached_once. }
  apply (Hgen _ (load_existing_match_ids (db s), s)).
  cbn [fst snd]. split; [exact Hu | split; [exact Hids |]].
  apply load_existing_covers.
Qed.

Lemma fill_missing_keeps_attached net G needs_refresh s i r m :
  pk_unique (db s) -> db s !! i = Some r -> match_id r = Some m ->
  db (fill_missing_match_ids net G needs_refresh s) !! i = Some r.
Proof.
  intros Hu Hi Hm. unfold fill_missing_match_ids.
  destruct needs_refresh; cbn [negb]; [|exact Hi].
  assert (Hgen : forall rows es,
             (forall x, In x rows -> match_pk x <> match_pk r) ->
             db (snd es) !! i = Some r ->
             db (snd (List.fold_left (fill_missing_one net) rows es)) !! i
             = Some r).
  { induction rows as [|row rows IH]; intros es Hrows Hi';
      cbn [List.fold_left]; [exact Hi' |].
    apply IH; [intros x Hx; apply Hrows; by right |].
    apply fill_missing_one_other_pk; [exact Hi' |].
    intros E. apply (Hrows row); [by left | by symmetry]. }
  apply (Hgen _ (load_existing_match_ids (db s), s)); [|exact Hi].
  intros x Hx.
  exact (missing_row_other_pk (in_group G) (db s) i r m x Hu Hi Hm Hx).
Qed.

Lemma ids_unique_ext (a b : list match_row) :
  match_id <$> a = match_id <$> b -> ids_unique b -> ids_unique a.
Proof.
  intros E Hb i j r r' m Hi Hj Hm Hm'.
  destruct (kept_column_lookup match_id b a i r (eq_sym E) Hi)
    as (rb & Hbi & Ebi).
  destruct (kept_column_lookup match_id b a j r' (eq_sym E) Hj)
    as (rb' & Hbj & Ebj).
  apply (Hb i j rb rb' m Hbi Hbj); congruence.
Qed.

(** From Step 1 on a run leaves the column [match_id] alone. *)
Lemma after_step2_keeps_match_id net G (s0 : state) d :
  match_id <$>
    final_results
      (finished_by_id
         (refresh_scores net G
            (detect_winners net G
               (check_existing_matches net (set_match_id_to_db d s0)))))
      (db (refresh_scores net G
             (detect_winners net G
                (check_existing_matches net (set_match_id_to_db d s0)))))
  = match_id <$> db s0.
Proof.
  rewrite final_results_keeps by reflexivity.
  rewrite refresh_scores_keeps by reflexivity.
  by rewrite detect_winners_db, check_existing_matches_db.
Qed.

(** X24. One run of the dashboard script never attaches a remote id to
    two records: on a store with unique keys in which no two records
    share a remote id, no two records share one after the run. *)
Theorem run_keeps_ids_unique net G needs_refresh store :
  pk_unique store -> ids_unique store ->
  ids_unique (db (sync_run net G needs_refresh store)).
Proof.
  intros Hu Hids. unfold sync_run, commit_final_results. cbn [db set_db].
  eapply ids_unique_ext; [apply after_step2_keeps_match_id |].
  by apply (fill_missing_ids_unique net G needs_refresh (initial_state store)).
Qed.

Lemma run_keeps_ids_unique_witness :
  ids_unique
    (db (sync_run StoreSample.carol_feed_server 1 true
           [Sample.plain_row; StoreSample.carol_row])).
Proof.
  exact (run_keeps_ids_unique StoreSample.carol_feed_server 1 true
           [Sample.plain_row; StoreSample.carol_row]
           sample_pk_unique sample_ids_unique).
Defined.

(** X25. One run of the dashboard script never replaces a remote id: on
    a store with unique keys, a record that carries a remote id carries
    the same id after the run. *)
Theorem run_keeps_attached_ids net G needs_refresh store i r m :
  pk_unique store -> store !! i = Some r -> match_id r = Some m ->
  exists r', db (sync_run net G needs_refresh store) !! i = Some r'
             /\ match_id r' = Some m.
Proof.
  intros Hu Hi Hm. unfold sync_run, commit_final_results. cbn [db set_db].
  pose proof (fill_missing_keeps_attached net G needs_refresh
                (initial_state store) i r m Hu Hi Hm) as H0.
  destruct (kept_column_lookup match_id _ _ i r
              (after_step2_keeps_match_id net G
                 (fill_missing_match_ids net G needs_refresh
                    (initial_state store))
                 (build_match_id_to_db G
                    (db (fill_missing_match_ids net G needs_refresh
                           (initial_state store)))))
              H0) as (r' & Hr' & E).
  exists r'. split; [exact Hr' | congruence].
Qed.

Lemma run_keeps_attached_ids_witness :
  exists r',
    db (sync_run StoreSample.carol_feed_server 1 true
          [Sample.plain_row; StoreSample.carol_row]) !! 0%nat = Some r'
    /\ match_id r' = Some 1.
Proof.
  exact (run_keeps_attached_ids StoreSample.carol_feed_server 1 true
           [Sample.plain_row; StoreSample.carol_row] 0 Sample.plain_row 1
           sample_pk_unique eq_refl eq_refl).
Defined.

(** ** Repeating a write *)

Lemma find_update c cond f db :
  (forall r, c (f r) = c r) ->
  List.find c (Sql.update cond f db)
  = (fun r => if cond r then f r else r) <$> List.find c db.
Proof.
  intros Hc. unfold Sql.update.
  induction db as [|r db IH]; [reflexivity |].
  cbn [fmap list_fmap List.find].
  replace (c (if cond r then f r else r)) with (c r)
    by (destruct (cond r); [by rewrite Hc | reflexivity]).
  destruct (c r); [reflexivity | exact IH].
Qed.

Lemma update_update cond f db :
  (forall r, cond (f r) = cond r) -> (forall r, f (f r) = f r) ->
  Sql.update cond f (Sql.update cond f db) = Sql.update cond f db.
Proof.
  intros Hc Hf. unfold Sql.update. rewrite <- list_fmap_compose.
  apply list_fmap_ext. intros _ r _. cbn [compose].
  destruct (cond r) eqn:E; [|by rewrite E].
  by rewrite Hc, E, Hf.
Qed.

(** X26. Writing the same intermediate score a second time changes
    nothing: [update_score_in_db] applied twice with the same arguments
    leaves the store as one application does. *)
Theorem update_score_in_db_idempotent G p o ps os sw store :
  snd (update_score_in_db G p o ps os sw
         (snd (update_score_in_db G p o ps os sw store)))
  = snd (update_score_in_db G p o ps os sw store).
Proof.
  destruct (record_of_pairing G p o store) as [row|] eqn:Hrow.
  2:{ assert (E : update_score_in_db G p o ps os sw store = (false, store))
        by (unfold update_score_in_db; by rewrite Hrow).
      rewrite E. cbn [snd]. by rewrite E. }
  destruct (is_val (left_score row) 11 || is_val (right_score row) 11)
    eqn:H11.
  { assert (E : update_score_in_db G p o ps os sw store = (false, store))
      by (unfold update_score_in_db; by rewrite Hrow, H11).
    rewrite E. cbn [snd]. by rewrite E. }
  set (f := fun r => set_right_score (Some os) (set_left_score (Some ps) r)).
  assert (E : update_score_in_db G p o ps os sw store
              = (true,
                 Sql.update (fun r => match_pk r =? match_pk row) f store))
    by (unfold update_score_in_db; by rewrite Hrow, H11).
  rewrite E. cbn [snd].
  assert (Hrow' : record_of_pairing G p o
                    (Sql.update (fun r => match_pk r =? match_pk row) f store)
                  = Some (f row)).
  { unfold record_of_pairing in *. rewrite fetchone_select_find in *.
    rewrite find_update by (intros r; by destruct r).
    rewrite Hrow. cbn [fmap option_fmap option_map].
    by rewrite Z.eqb_refl. }
  unfold update_score_in_db. rewrite Hrow'.
  destruct (is_val (left_score (f row)) 11 || is_val (right_score (f row)) 11);
    [reflexivity |].
  cbn [snd]. replace (match_pk (f row)) with (match_pk row) by (by destruct row).
  apply update_update; intros r; by destruct r.
Qed.

(** X27. Recording the same final result a second time changes nothing:
    [update_match_score_in_db] applied twice with the same arguments
    leaves the store as one application does. *)
Theorem update_match_score_in_db_idempotent mid w group store :
  update_match_score_in_db mid w group
    (update_match_score_in_db mid w group store)
  = update_match_score_in_db mid w group store.
Proof.
  assert (Hfound : forall c,
             (forall r col, c (set_finished true (set_score col (Some 11) r))
                            = c r) ->
             forall col,
               Sql.fetchone (Sql.select c (write_final col mid store))
               = (fun r => if has_match_id mid r
                           then set_finished true (set_score col (Some 11) r)
                           else r)
                 <$> Sql.fetchone (Sql.select c store)).
  { intros c Hc col. rewrite !fetchone_select_find. unfold write_final.
    apply find_update. intros r. apply Hc. }
  assert (Hagain : forall col,
             write_final col mid (write_final col mid store)
             = write_final col mid store).
  { intros col. unfold write_final.
    apply update_update; intros r; destruct r, col; reflexivity. }
  assert (Hnames : forall row col,
             winner_column w
               (player_name
                  (if has_match_id mid row
                   then set_finished true (set_score col (Some 11) row)
                   else row))
               (opponent_name
                  (if has_match_id mid row
                   then set_finished true (set_score col (Some 11) row)
                   else row))
               (switched_flag
                  (if has_match_id mid row
                   then set_finished true (set_score col (Some 11) row)
                   else row))
             = winner_column w (player_name row) (opponent_name row)
                 (switched_flag row)).
  { intros row col. destruct (has_match_id mid row); [|reflexivity].
    destruct row, col; reflexivity. }
  unfold update_match_score_in_db at 2 3.
  destruct group as [g|].
  - destruct (Sql.fetchone (Sql.select _ store)) as [row|] eqn:Hrow.
    2:{ unfold update_match_score_in_db. by rewrite Hrow. }
    destruct (winner_column w (player_name row) (opponent_name row)
                (switched_flag row)) as [col|] eqn:Hcol.
    2:{ unfold update_match_score_in_db. by rewrite Hrow, Hcol. }
    unfold update_match_score_in_db.
    rewrite (Hfound (fun r => has_match_id mid r && (group_id r =? g)))
      by (intros r c; destruct r, c; reflexivity).
    rewrite Hrow. cbn [fmap option_fmap option_map].
    rewrite Hnames, Hcol. apply Hagain.
  - destruct (record_of_match_id mid store) as [row|] eqn:Hrow.
    2:{ unfold update_match_score_in_db. by rewrite Hrow. }
    destruct (winner_column w (player_name row) (opponent_name row)
                (switched_flag row)) as [col|] eqn:Hcol.
    2:{ unfold update_match_score_in_db. by rewrite Hrow, Hcol. }
    unfold update_match_score_in_db, record_of_match_id.
    unfold record_of_match_id in Hrow.
    rewrite (Hfound (has_match_id mid))
      by (intros r c; destruct r, c; reflexivity).
    rewrite Hrow. cbn [fmap option_fmap option_map].
    rewrite Hnames, Hcol. apply Hagain.
Qed.

(** * One record through a run *)

(** ** The logged iteration is the iteration *)

Lemma refresh_one_logged_state net G players entry s :
  snd (refresh_one_logged net G players entry s)
  = refresh_one net G players entry s.
Proof.
  destruct entry as [mid [[p o] sw]].
  unfold refresh_one_logged, refresh_one.
  destruct (match Sql.fetchone _ with Some r => has_eleven r | None => false end);
    [reflexivity |].
  destruct (negb (html_truthy (cache_get mid s))); cbn [fetch_list_html].
  - destruct (negb (html_truthy _)); [reflexivity |].
    destruct (list_html_of _) as [pg|]; [|reflexivity].
    destruct (extract_latest_score pg players) as [obs|]; [|reflexivity].
    unfold store_observation.
    destruct (map_scores _ _ _ _ _ _ _) as [[ps os]|]; [|by destruct s].
    destruct (update_score_in_db _ _ _ _ _ _ _) as [issued store'].
    reflexivity.
  - destruct (negb (html_truthy _)); [reflexivity |].
    destruct (cache_get mid s) as [pg|]; [|reflexivity].
    destruct (extract_latest_score pg players) as [obs|]; [|reflexivity].
    unfold store_observation.
    destruct (map_scores _ _ _ _ _ _ _) as [[ps os]|]; [|by destruct s].
    destruct (update_score_in_db _ _ _ _ _ _ _) as [issued store'].
    reflexivity.
Qed.

(** ** Columns and the facts they carry *)

Lemma column_of_identity {A : Type}
    (g : Z * Z * option Z * string * string * bool -> A)
    (d d' : list match_row) :
  identity_of <$> d = identity_of <$> d' ->
  (fun r => g (identity_of r)) <$> d = (fun r => g (identity_of r)) <$> d'.
Proof.
  intros E.
  change ((g ∘ identity_of) <$> d = (g ∘ identity_of) <$> d').
  by rewrite !list_fmap_compose, E.
Qed.

Lemma pk_unique_identity d d' :
  identity_of <$> d = identity_of <$> d' -> pk_unique d' -> pk_unique d.
Proof.
  intros E Hu. unfold pk_unique in *.
  replace (match_pk <$> d) with (match_pk <$> d'); [exact Hu |].
  symmetry.
  exact (column_of_identity (fun t => fst (fst (fst (fst (fst t))))) d d' E).
Qed.

Lemma identity_lookup (d d' : list match_row) (i : nat) (r : match_row) :
  identity_of <$> d = identity_of <$> d' -> d' !! i = Some r ->
  exists r1, d !! i = Some r1 /\ identity_of r1 = identity_of r.
Proof. apply kept_column_lookup. Qed.

Lemma pairings_unique_identity G d d' :
  identity_of <$> d = identity_of <$> d' ->
  pairings_unique G d' -> pairings_unique G d.
Proof.
  intros E Hp i j r r' Hi Hj Hg Hg' Hn Ho.
  destruct (identity_lookup d' d i r (eq_sym E) Hi) as (a & Ha & Ea).
  destruct (identity_lookup d' d j r' (eq_sym E) Hj) as (b & Hb & Eb).
  unfold identity_of in Ea, Eb.
  injection Ea as Ea1 Ea2 Ea3 Ea4 Ea5 Ea6.
  injection Eb as Eb1 Eb2 Eb3 Eb4 Eb5 Eb6.
  apply (Hp i j a b Ha Hb); congruence.
Qed.

Lemma players_in_matches_identity G d d' :
  identity_of <$> d = identity_of <$> d' ->
  players_in_matches G d = players_in_matches G d'.
Proof.
  unfold players_in_matches, Sql.select, in_group. revert d'.
  induction d as [|r d IH]; intros [|r' d'] E; try discriminate;
    [reflexivity |].
  cbn [fmap list_fmap] in E. unfold identity_of at 1 3 in E.
  injection E as E1 E2 E3 E4 E5 E6 Ed.
  cbn [List.filter]. rewrite E2.
  destruct (group_id r' =? G); cbn [List.flat_map];
    rewrite ?E4, ?E5, (IH d' Ed); reflexivity.
Qed.

Lemma find_unique (c : match_row -> bool) (d : list match_row) i r :
  d !! i = Some r -> c r = true ->
  (forall j x, d !! j = Some x -> c x = true -> j = i) ->
  List.find c d = Some r.
Proof.
  revert i. induction d as [|x d IH]; intros i Hi Hc Hu; [discriminate |].
  cbn [List.find]. destruct (c x) eqn:Hx.
  - assert (0%nat = i) as <- by exact (Hu 0%nat x eq_refl Hx).
    simpl in Hi. congruence.
  - destruct i as [|i]; [simpl in Hi; congruence |].
    apply (IH i); [exact Hi | exact Hc |].
    intros j y Hj Hy. specialize (Hu (S j) y Hj Hy). congruence.
Qed.

(** With one row per pairing, the [SELECT] of [update_score_in_db]
    returns the record of the pairing. *)
Lemma record_of_pairing_unique G d i r :
  pairings_unique G d -> d !! i = Some r -> group_id r = G ->
  record_of_pairing G (player_name r) (opponent_name r) d = Some r.
Proof.
  intros Hp Hi Hg. unfold record_of_pairing.
  rewrite fetchone_select_find.
  apply (find_unique _ d i r Hi).
  - unfold is_pairing. rewrite !String.eqb_refl, Hg, Z.eqb_refl. reflexivity.
  - intros j x Hj Hx.
    apply andb_true_iff in Hx as [Hx Hgx].
    apply andb_true_iff in Hx as [Hpx Hox].
    apply String.eqb_eq in Hpx, Hox. apply Z.eqb_eq in Hgx.
    apply (Hp j i x r Hj Hi); congruence.
Qed.

(** A record of another pairing is not what that [SELECT] returns. *)
Lemma record_of_pairing_names G p o d x :
  record_of_pairing G p o d = Some x ->
  player_name x = p /\ opponent_name x = o /\ group_id x = G.
Proof.
  intros H. apply fetchone_select_some in H as [H _].
  apply andb_true_iff in H as [H Hg].
  apply andb_true_iff in H as [Hp Ho].
  apply String.eqb_eq in Hp, Ho. apply Z.eqb_eq in Hg. auto.
Qed.

(** ** The mapping [match_id_to_db] *)

Lemma dict_in_set {V : Type} k (v : V) k' v' d :
  In (k', v') (Dict.set k v d) -> (k', v') = (k, v) \/ In (k', v') d.
Proof.
  induction d as [|[k2 v2] d IH]; simpl.
  - intros [H|[]]. by left.
  - destruct (k =? k2); simpl.
    + intros [H|H]; [by left | right; by right].
    + intros [H|H]; [right; by left |].
      destruct (IH H); [by left | right; by right].
Qed.

Lemma build_match_id_to_db_from G store :
  entries_from G store (build_match_id_to_db G store).
Proof.
  unfold build_match_id_to_db.
  assert (Hgen : forall rows d,
             (forall x, In x rows -> In x store /\ group_id x = G) ->
             entries_from G store d ->
             entries_from G store
               (List.fold_left
                  (fun d r =>
                     match match_id r with
                     | Some mid =>
                         Dict.set mid
                           (player_name r, opponent_name r, switched_flag r) d
                     | None => d
                     end) rows d)).
  { induction rows as [|x rows IH]; intros d Hrows Hd; cbn [List.fold_left];
      [exact Hd |].
    apply IH; [intros y Hy; apply Hrows; by right |].
    destruct (match_id x) as [m|] eqn:Hm; [|exact Hd].
    intros k p o sw Hin. apply dict_in_set in Hin as [E|Hin]; [|by eapply Hd].
    injection E as -> -> -> ->.
    destruct (Hrows x (or_introl eq_refl)) as [Hx Hg].
    destruct (in_lookup store x Hx) as [j Hj].
    exists j, x. auto. }
  apply Hgen.
  - intros x Hx. unfold Sql.select in Hx. apply List.filter_In in Hx as [Hx Hg].
    split; [exact Hx |]. unfold in_group in Hg. by apply Z.eqb_eq.
  - intros k p o sw [].
Qed.

(** The entry of a match id that one record of the group carries is
    built from that record. *)
Lemma build_match_id_to_db_get G store i r mid :
  ids_unique store -> store !! i = Some r ->
  group_id r = G -> match_id r = Some mid ->
  Dict.get mid (build_match_id_to_db G store)
  = Some (player_name r, opponent_name r, switched_flag r).
Proof.
  intros Hids Hi Hg Hm. unfold build_match_id_to_db.
  assert (Hin : In r (Sql.select (in_group G) store)).
  { unfold Sql.select. apply List.filter_In. split.
    - apply list_elem_of_In. by eapply list_elem_of_lookup_2.
    - unfold in_group. by apply Z.eqb_eq. }
  assert (Honly : forall x, In x (Sql.select (in_group G) store) ->
                            match_id x = Some mid -> x = r).
  { intros x Hx Hxm. unfold Sql.select in Hx.
    apply List.filter_In in Hx as [Hx _].
    destruct (in_lookup store x Hx) as [j Hj].
    assert (j = i) as -> by exact (Hids j i x r mid Hj Hi Hxm Hm).
    congruence. }
  revert Hin Honly. generalize (Sql.select (in_group G) store).
  intros rows. induction rows as [|x rows IH] using rev_ind;
    intros Hin Honly; [destruct Hin |].
  rewrite List.fold_left_app. cbn [List.fold_left].
  destruct (match_id x) as [k|] eqn:Hk.
  - destruct (Z.eq_dec k mid) as [->|Hne].
    + rewrite (Honly x) by (rewrite ?in_app_iff; simpl; auto).
      apply dict_get_set_eq.
    + rewrite dict_get_set_ne by congruence.
      apply IH.
      * apply in_app_iff in Hin as [Hin|[->|[]]]; [exact Hin | congruence].
      * intros y Hy. apply Honly. apply in_app_iff. by left.
  - apply IH.
    + apply in_app_iff in Hin as [Hin|[->|[]]]; [exact Hin | congruence].
    + intros y Hy. apply Honly. apply in_app_iff. by left.
Qed.

(** ** A loop over the items of a dictionary, seen from one key *)

Lemma for_each_at_key {A : Type} (key : A -> Z) (mid : Z)
    (before after : state -> Prop) (body : A -> state -> state)
    (l : list A) (s : state) :
  NoDup (List.map key l) -> In mid (List.map key l) ->
  (forall x st, In x l -> key x <> mid -> before st -> before (body x st)) ->
  (forall x st, In x l -> key x <> mid -> after st -> after (body x st)) ->
  (forall x st, In x l -> key x = mid -> before st -> after (body x st)) ->
  before s -> after (for_each l body s).
Proof.
  unfold for_each. revert s.
  induction l as [|x l IH]; intros s Hnd Hin Hb Ha Hat Hs; [destruct Hin |].
  cbn [List.fold_left]. cbn [List.map] in Hnd, Hin.
  apply NoDup_cons in Hnd as [Hx Hnd].
  destruct (Z.eq_dec (key x) mid) as [E|E].
  - assert (Hafter : after (body x s)) by (apply Hat; [by left | exact E | exact Hs]).
    assert (Hrest : forall y, In y l -> key y <> mid).
    { intros y Hy Ey. apply Hx. rewrite E, <- Ey.
      apply list_elem_of_In. by apply List.in_map. }
    change (after (for_each l body (body x s))).
    apply for_each_preserves; [|exact Hafter].
    intros y st Hy Hst. apply Ha; [by right | by apply Hrest | exact Hst].
  - apply IH.
    + exact Hnd.
    + destruct Hin as [Hin|Hin]; [contradiction | exact Hin].
    + intros y st Hy. apply Hb. by right.
    + intros y st Hy. apply Ha. by right.
    + intros y st Hy. apply Hat. by right.
    + apply Hb; [by left | exact E | exact Hs].
Qed.

(** ** Step 1 for one match id *)

Lemma evaluate_one_finished entry s :
  finished_by_id (evaluate_one entry s) = finished_by_id s.
Proof.
  destruct entry as [k [[p o] sw]]. unfold evaluate_one.
  destruct (Dict.mem k (finished_by_id s)); [reflexivity |].
  destruct (negb (html_truthy (cache_get k s))); [reflexivity |].
  destruct (cache_get k s) as [pg|]; [|reflexivity].
  destruct (extract_latest_score pg [p; o]); reflexivity.
Qed.

Lemma evaluate_one_get_other k v mid s :
  k <> mid ->
  Dict.get mid (match_id_to_db (evaluate_one (k, v) s))
  = Dict.get mid (match_id_to_db s).
Proof.
  intros Hne. destruct v as [[p o] sw]. unfold evaluate_one.
  destruct (Dict.mem k (finished_by_id s)); [reflexivity |].
  destruct (negb (html_truthy (cache_get k s))); [reflexivity |].
  destruct (cache_get k s) as [pg|]; [|reflexivity].
  destruct (extract_latest_score pg [p; o]); [|reflexivity].
  cbn [match_id_to_db set_match_id_to_db].
  apply dict_get_set_ne. congruence.
Qed.

(** Step 1 on the entry built from the record [r]: it leaves the flag
    [step1_flag] in [match_id_to_db]. *)
Lemma evaluate_one_get_at mid r s :
  finished_by_id s = [] ->
  Dict.get mid (match_id_to_db s)
  = Some (player_name r, opponent_name r, switched_flag r) ->
  Dict.get mid
    (match_id_to_db
       (evaluate_one (mid, (player_name r, opponent_name r, switched_flag r))
          s))
  = Some (player_name r, opponent_name r, step1_flag (cache_get mid s) r).
Proof.
  intros Hfin Hget. unfold evaluate_one, step1_flag. rewrite Hfin.
  cbn [Dict.mem Dict.get].
  destruct (html_truthy (cache_get mid s)) eqn:Ht; cbn [negb];
    [|exact Hget].
  destruct (cache_get mid s) as [pg|]; [|exact Hget].
  destruct (extract_latest_score pg [player_name r; opponent_name r])
    as [obs|]; [|exact Hget].
  cbn [match_id_to_db set_match_id_to_db]. apply dict_get_set_eq.
Qed.

Lemma evaluate_one_entries_from G store k p o sw s :
  (exists j row,
      store !! j = Some row /\ group_id row = G /\ match_id row = Some k
      /\ player_name row = p /\ opponent_name row = o) ->
  entries_from G store (match_id_to_db s) ->
  entries_from G store (match_id_to_db (evaluate_one (k, (p, o, sw)) s)).
Proof.
  intros Hrow Hd. unfold evaluate_one.
  destruct (Dict.mem k (finished_by_id s)); [exact Hd |].
  destruct (negb (html_truthy (cache_get k s))); [exact Hd |].
  destruct (cache_get k s) as [pg|]; [|exact Hd].
  destruct (extract_latest_score pg [p; o]); [|exact Hd].
  cbn [match_id_to_db set_match_id_to_db].
  intros k' p' o' sw' Hin. apply dict_in_set in Hin as [E|Hin].
  - injection E as -> -> -> ->. exact Hrow.
  - by eapply Hd.
Qed.

Lemma prefetch_loop_finished net ids s :
  finished_by_id (for_each ids (prefetch_one net) s) = finished_by_id s.
Proof.
  apply (for_each_preserves
           (fun st => finished_by_id st = finished_by_id s)); [|reflexivity].
  intros x st _ H. exact H.
Qed.

Section ConstantPage.

Variable net : remote.
Variable mid : Z.
Variable html : option page.
Hypothesis answer :
  forall n, list_html_of (list_page net n mid) = html.

Lemma prefetch_loop_cached ids s :
  In mid ids \/ cache_get mid s = html ->
  cache_get mid (for_each ids (prefetch_one net) s) = html.
Proof.
  unfold for_each. revert s.
  induction ids as [|k ids IH]; intros s H; cbn [List.fold_left].
  - destruct H as [[]|H]. exact H.
  - assert (Hone : k = mid \/ cache_get mid s = html ->
                   cache_get mid (prefetch_one net k s) = html).
    { intros Hk. unfold prefetch_one, fetch_list_html.
      destruct (Z.eq_dec k mid) as [->|Hne].
      - rewrite cache_get_insert_eq. apply answer.
      - rewrite cache_get_insert_ne by exact Hne.
        destruct Hk as [Hk|Hk]; [contradiction | exact Hk]. }
    apply IH. destruct H as [[->|H]|H].
    + right. apply Hone. by left.
    + by left.
    + right. apply Hone. by right.
Qed.

(** Step 1 of a run that starts it with empty dictionaries: the page of
    [mid] is in the cache and the entry of [mid] holds [step1_flag]. *)
Lemma check_existing_at_record G store r s :
  html_cache s = ∅ -> finished_by_id s = [] ->
  NoDup (Dict.keys (match_id_to_db s)) ->
  entries_from G store (match_id_to_db s) ->
  Dict.get mid (match_id_to_db s)
  = Some (player_name r, opponent_name r, switched_flag r) ->
  cache_get mid (check_existing_matches net s) = html
  /\ Dict.get mid (match_id_to_db (check_existing_matches net s))
     = Some (player_name r, opponent_name r, step1_flag html r)
  /\ entries_from G store (match_id_to_db (check_existing_matches net s)).
Proof.
  intros Hcache Hfin Hkeys Hfrom Hget.
  unfold check_existing_matches.
  set (s1 := for_each (to_fetch_ids s) (prefetch_one net) s).
  assert (Hin : In (mid, (player_name r, opponent_name r, switched_flag r))
                  (match_id_to_db s)) by (by apply dict_get_in).
  assert (Hfetch : In mid (to_fetch_ids s)).
  { unfold to_fetch_ids. apply List.filter_In. split.
    - unfold Dict.keys. apply List.in_map_iff. eexists. split; [|exact Hin].
      reflexivity.
    - rewrite Hcache, Hfin, lookup_empty. reflexivity. }
  assert (Hc1 : cache_get mid s1 = html)
    by (apply prefetch_loop_cached; by left).
  assert (Hd1 : match_id_to_db s1 = match_id_to_db s)
    by apply prefetch_loop_dict.
  assert (Hf1 : finished_by_id s1 = [])
    by (unfold s1; by rewrite prefetch_loop_finished).
  rewrite Hd1.
  split; [|split].
  - apply (for_each_preserves (fun st => cache_get mid st = html));
      [|exact Hc1].
    intros x st _ H.
    by rewrite (cache_get_ext mid _ _ (evaluate_one_cache x st)).
  - enough (H : finished_by_id
                  (for_each (match_id_to_db s) evaluate_one s1) = []
                /\ cache_get mid (for_each (match_id_to_db s) evaluate_one s1)
                   = html
                /\ Dict.get mid
                     (match_id_to_db
                        (for_each (match_id_to_db s) evaluate_one s1))
                   = Some (player_name r, opponent_name r,
                           step1_flag html r)) by apply H.
    apply (for_each_at_key fst mid
             (fun st => finished_by_id st = []
                        /\ cache_get mid st = html
                        /\ Dict.get mid (match_id_to_db st)
                           = Some (player_name r, opponent_name r,
                                   switched_flag r))).
    + exact Hkeys.
    + unfold Dict.keys in *. apply List.in_map_iff. eexists.
      split; [|exact Hin]. reflexivity.
    + intros [k v] st _ Hk (Hf & Hc & Hg). cbn [fst] in Hk.
      rewrite evaluate_one_finished,
        (cache_get_ext mid _ _ (evaluate_one_cache (k, v) st)),
        evaluate_one_get_other by exact Hk. auto.
    + intros [k v] st _ Hk (Hf & Hc & Hg). cbn [fst] in Hk.
      rewrite evaluate_one_finished,
        (cache_get_ext mid _ _ (evaluate_one_cache (k, v) st)),
        evaluate_one_get_other by exact Hk. auto.
    + intros [k v] st Hx Hk (Hf & Hc & Hg). cbn [fst] in Hk. subst k.
      assert (v = (player_name r, opponent_name r, switched_flag r)) as ->.
      { pose proof (dict_in_get _ _ _ Hkeys Hx) as H1.
        pose proof (dict_in_get _ _ _ Hkeys Hin) as H2. congruence. }
      rewrite evaluate_one_finished,
        (cache_get_ext mid _ _ (evaluate_one_cache _ st)).
      split; [exact Hf | split; [exact Hc |]].
      rewrite evaluate_one_get_at by assumption. by rewrite Hc.
    + rewrite Hd1. auto.
  - apply (for_each_preserves
             (fun st => entries_from G store (match_id_to_db st)));
      [|by rewrite Hd1].
    intros [k [[p o] sw]] st Hx Hst.
    apply evaluate_one_entries_from; [|exact Hst].
    by eapply Hfrom.
Qed.

End ConstantPage.

(** ** The score loop for one record *)

Lemma refresh_one_cache_other net G players k v mid s :
  k <> mid ->
  cache_get mid (refresh_one net G players (k, v) s) = cache_get mid s.
Proof.
  intros Hne. destruct v as [[p o] sw]. unfold refresh_one.
  destruct (match Sql.fetchone _ with Some r => has_eleven r | None => false end);
    [reflexivity |].
  destruct (negb (html_truthy (cache_get k s))); cbn [fetch_list_html].
  - set (s1 := set_html_cache _ _).
    assert (H1 : cache_get mid s1 = cache_get mid s)
      by (unfold s1; by rewrite cache_get_insert_ne).
    destruct (negb (html_truthy _)); [exact H1 |].
    destruct (list_html_of _) as [pg|]; [|exact H1].
    destruct (extract_latest_score pg players); exact H1.
  - destruct (negb (html_truthy _)); [reflexivity |].
    destruct (cache_get k s) as [pg|]; [|reflexivity].
    destruct (extract_latest_score pg players); reflexivity.
Qed.

(** A write for one pairing leaves the records of the other pairings as
    they are. *)
Lemma store_observation_row_kept G p o sw obs d j x :
  pk_unique d -> d !! j = Some x ->
  record_of_pairing G p o d <> Some x ->
  store_observation G p o sw obs d !! j = Some x.
Proof.
  intros Hu Hj Hne. unfold store_observation.
  destruct (map_scores _ _ _ _ _ _ _) as [[ps os]|]; [|exact Hj].
  unfold update_score_in_db.
  destruct (record_of_pairing G p o d) as [y|] eqn:Hy; [|exact Hj].
  destruct (is_val (left_score y) 11 || is_val (right_score y) 11);
    [exact Hj |].
  cbn [snd]. apply update_other_pk; [exact Hj |].
  intros E. apply Hne. f_equal.
  destruct (record_of_pairing_in _ _ _ _ _ Hy) as [j' Hj'].
  assert (j = j') as -> by exact (pk_unique_lookup d j j' x y Hu Hj Hj' E).
  congruence.
Qed.

Lemma refresh_one_row_kept net G players k p o sw s j x :
  pk_unique (db s) -> db s !! j = Some x ->
  record_of_pairing G p o (db s) <> Some x ->
  db (refresh_one net G players (k, (p, o, sw)) s) !! j = Some x.
Proof.
  intros Hu Hj Hne. unfold refresh_one.
  destruct (match Sql.fetchone _ with Some r => has_eleven r | None => false end);
    [exact Hj |].
  destruct (negb (html_truthy (cache_get k s))); cbn [fetch_list_html].
  - destruct (negb (html_truthy _)); [exact Hj |].
    destruct (list_html_of _) as [pg|]; [|exact Hj].
    destruct (extract_latest_score pg players); [|exact Hj].
    cbn [db set_db set_html_cache log_request].
    by apply store_observation_row_kept.
  - destruct (negb (html_truthy _)); [exact Hj |].
    destruct (cache_get k s) as [pg|]; [|exact Hj].
    destruct (extract_latest_score pg players); [|exact Hj].
    cbn [db set_db]. by apply store_observation_row_kept.
Qed.

(** The write for the open record [r] of a pairing puts the mapped
    scores on [r]. *)
Lemma store_observation_at_record G sw obs d i r :
  pk_unique d -> pairings_unique G d -> d !! i = Some r ->
  group_id r = G -> has_eleven r = false ->
  store_observation G (player_name r) (opponent_name r) sw obs d !! i
  = Some
      match map_scores (player_name r) (opponent_name r) (left_name obs)
              (right_name obs) (obs_left_score obs) (obs_right_score obs) sw
      with
      | Some (ps, os) => with_scores ps os r
      | None => r
      end.
Proof.
  intros Hu Hp Hi Hg H11. unfold store_observation.
  destruct (map_scores _ _ _ _ _ _ _) as [[ps os]|]; [|exact Hi].
  rewrite (update_score_written G _ _ ps os sw d i r Hu Hi
             (record_of_pairing_unique G d i r Hp Hi Hg) H11).
  cbn [snd]. apply list_lookup_insert_eq. by eapply lookup_lt_Some.
Qed.

Section RecordIteration.

Variable net : remote.
Variable mid : Z.
Variable html : option page.
Hypothesis answer :
  forall n, list_html_of (list_page net n mid) = html.

(** The iteration of the score loop for the match id of the open record
    [r], with [html] in the cache. *)
Lemma refresh_one_at_record G players sw s i r :
  pk_unique (db s) -> pairings_unique G (db s) ->
  db s !! i = Some r -> group_id r = G -> match_id r = Some mid ->
  has_eleven r = false ->
  cache_get mid s = html ->
  db (refresh_one net G players
        (mid, (player_name r, opponent_name r, sw)) s) !! i
  = Some (record_after_loop html players sw r)
  /\ cache_get mid
       (refresh_one net G players
          (mid, (player_name r, opponent_name r, sw)) s) = html.
Proof.
  intros Hu Hp Hi Hg Hm H11 Hc. unfold refresh_one, record_after_loop.
  assert (Hrow : Sql.fetchone
                   (Sql.select
                      (fun r0 => has_match_id mid r0
                                 && is_pairing (player_name r)
                                      (opponent_name r) r0
                                 && in_group G r0) (db s)) = Some r).
  { rewrite fetchone_select_find. apply (find_unique _ (db s) i r Hi).
    - unfold has_match_id, is_pairing, in_group. rewrite Hm. cbn [is_val].
      by rewrite Z.eqb_refl, !String.eqb_refl, Hg, Z.eqb_refl.
    - intros j x Hj Hx.
      apply andb_true_iff in Hx as [Hx Hgx].
      apply andb_true_iff in Hx as [_ Hx].
      apply andb_true_iff in Hx as [Hpx Hox].
      apply String.eqb_eq in Hpx, Hox. apply Z.eqb_eq in Hgx.
      apply (Hp j i x r Hj Hi); congruence. }
  rewrite Hrow, H11, Hc.
  destruct (html_truthy html) eqn:Ht; cbn [negb].
  - rewrite Ht. cbn [negb].
    destruct html as [pg|]; [|discriminate].
    destruct (extract_latest_score pg players) as [obs|]; [|by split].
    cbn [db set_db]. split; [|exact Hc].
    by apply store_observation_at_record.
  - cbn [fetch_list_html]. rewrite answer, Ht. cbn [negb].
    split; [exact Hi |]. apply cache_get_insert_eq.
Qed.

End RecordIteration.

(** ** The whole run for one record *)

Lemma record_after_loop_columns html players sw r :
  identity_of (record_after_loop html players sw r) = identity_of r
  /\ match_id (record_after_loop html players sw r) = match_id r
  /\ finished (record_after_loop html players sw r) = finished r.
Proof.
  unfold record_after_loop.
  destruct (html_truthy html); [|auto].
  destruct html as [pg|]; [|auto].
  destruct (extract_latest_score pg players) as [obs|]; [|auto].
  destruct (map_scores _ _ _ _ _ _ _) as [[ps os]|]; [|auto].
  by destruct r.
Qed.

Lemma detect_winners_cache net G s :
  html_cache (detect_winners net G s) = html_cache s.
Proof.
  unfold detect_winners.
  apply (for_each_preserves (fun st => html_cache st = html_cache s));
    [|reflexivity].
  intros x st _ H. by rewrite detect_one_cache.
Qed.

(** One run on a store with unique keys, remote ids and pairings, seen
    from an open record [r] of the group whose match page the server
    answers with [html] and whose export shows no result: the run leaves
    in the place of [r] what the score loop makes of it with the flag of
    Step 1. *)
Lemma run_stores_record net G needs_refresh store i r mid html :
  pk_unique store -> ids_unique store -> pairings_unique G store ->
  store !! i = Some r -> group_id r = G -> match_id r = Some mid ->
  has_eleven r = false ->
  (forall n, list_html_of (list_page net n mid) = html) ->
  no_result_line net mid ->
  db (sync_run net G needs_refresh store) !! i
  = Some (record_after_loop html (players_in_matches G store)
            (step1_flag html r) r).
Proof.
  intros Hu Hids Hpairs Hi Hg Hm H11 Hnet Hopen.
  unfold sync_run, commit_final_results. cbn [db set_db].
  set (s0 := fill_missing_match_ids net G needs_refresh (initial_state store)).
  set (s1 := set_match_id_to_db (build_match_id_to_db G (db s0)) s0).
  set (s2 := check_existing_matches net s1).
  set (s3 := detect_winners net G s2).
  set (s4 := refresh_scores net G s3).
  set (players := players_in_matches G store).
  set (rf := record_after_loop html players (step1_flag html r) r).
  (* Step 2 *)
  assert (H0i : db s0 !! i = Some r)
    by exact (fill_missing_keeps_attached net G needs_refresh
                (initial_state store) i r mid Hu Hi Hm).
  assert (H0id : identity_of <$> db s0 = identity_of <$> store).
  { unfold s0.
    apply (fill_missing_keeps identity_of); reflexivity. }
  assert (H0ids : ids_unique (db s0))
    by exact (fill_missing_ids_unique net G needs_refresh
                (initial_state store) Hu Hids).
  assert (H0pairs : pairings_unique G (db s0))
    by exact (pairings_unique_identity G _ _ H0id Hpairs).
  (* the mapping and Step 1 *)
  assert (H1keys : NoDup (Dict.keys (match_id_to_db s1)))
    by apply build_match_id_to_db_keys.
  destruct (check_existing_at_record net mid html Hnet G (db s0) r s1)
    as (H2c & H2get & H2from).
  { unfold s1. cbn [html_cache set_match_id_to_db]. unfold s0.
    by rewrite fill_missing_html_cache. }
  { unfold s1. cbn [finished_by_id set_match_id_to_db]. unfold s0.
    by rewrite fill_missing_finished_by_id. }
  { exact H1keys. }
  { apply build_match_id_to_db_from. }
  { exact (build_match_id_to_db_get G (db s0) i r mid H0ids H0i Hg Hm). }
  fold s2 in H2c, H2get, H2from.
  assert (H2db : db s2 = db s0)
    by (unfold s2; rewrite check_existing_matches_db; reflexivity).
  assert (H2keys : NoDup (Dict.keys (match_id_to_db s2)))
    by (unfold s2; by rewrite check_existing_keys).
  assert (H2fin : finished_by_id s2 = []).
  { unfold s2. rewrite check_existing_finished_by_id. unfold s1.
    cbn [finished_by_id set_match_id_to_db]. unfold s0.
    by rewrite fill_missing_finished_by_id. }
  (* Phase 1 *)
  assert (H3db : db s3 = db s0)
    by (unfold s3; rewrite detect_winners_db; exact H2db).
  assert (H3dict : match_id_to_db s3 = match_id_to_db s2)
    by apply detect_winners_dict.
  assert (H3c : cache_get mid s3 = html).
  { rewrite <- H2c. apply cache_get_ext. apply detect_winners_cache. }
  assert (H3fin : Dict.mem mid (finished_by_id s3) = false).
  { unfold s3. apply detect_winners_no_result_line; [exact Hopen |].
    by rewrite H2fin. }
  (* the score loop *)
  assert (Hplayers : players_in_matches G (db s3) = players).
  { rewrite H3db. by apply players_in_matches_identity. }
  assert (H4 : (identity_of <$> db s4 = identity_of <$> store
                /\ cache_get mid s4 = html)
               /\ db s4 !! i = Some rf).
  { unfold s4, refresh_scores. rewrite Hplayers, H3dict.
    assert (Hother :
              forall k p o sw st x,
                In (k, (p, o, sw)) (match_id_to_db s2) -> k <> mid ->
                identity_of <$> db st = identity_of <$> store ->
                cache_get mid st = html ->
                db st !! i = Some x -> identity_of x = identity_of r ->
                (identity_of <$> db (refresh_one net G players
                                       (k, (p, o, sw)) st)
                 = identity_of <$> store
                 /\ cache_get mid (refresh_one net G players
                                     (k, (p, o, sw)) st) = html)
                /\ db (refresh_one net G players (k, (p, o, sw)) st) !! i
                   = Some x).
    { intros k p o sw st x Hin Hk Hid Hc Hx Ex.
      split; [split |].
      - rewrite <- Hid. apply (refresh_one_keeps identity_of); reflexivity.
      - rewrite refresh_one_cache_other by exact Hk. exact Hc.
      - apply refresh_one_row_kept;
          [exact (pk_unique_identity _ _ Hid Hu) | exact Hx |].
        intros Hrec. apply Hk.
        apply record_of_pairing_names in Hrec as (Hp & Ho & _).
        destruct (H2from k p o sw Hin) as (j & row & Hj & Hgj & Hmj & Hpj & Hoj).
        unfold identity_of in Ex. injection Ex as _ _ _ Exp Exo _.
        assert (j = i) as ->.
        { apply (H0pairs j i row r Hj H0i Hgj Hg); congruence. }
        congruence. }
    apply (for_each_at_key fst mid
             (fun st => (identity_of <$> db st = identity_of <$> store
                         /\ cache_get mid st = html)
                        /\ db st !! i = Some r)).
    - exact H2keys.
    - unfold Dict.keys. apply List.in_map_iff.
      exists (mid, (player_name r, opponent_name r, step1_flag html r)).
      split; [reflexivity | by apply dict_get_in].
    - intros [k [[p o] sw]] st Hx Hk [[Hid Hc] Hr]. cbn [fst] in Hk.
      by apply Hother.
    - intros [k [[p o] sw]] st Hx Hk [[Hid Hc] Hr]. cbn [fst] in Hk.
      apply Hother; try assumption.
      apply record_after_loop_columns.
    - intros [k v] st Hx Hk [[Hid Hc] Hr]. cbn [fst] in Hk. subst k.
      assert (v = (player_name r, opponent_name r, step1_flag html r)) as ->.
      { pose proof (dict_in_get _ _ _ H2keys Hx) as E. congruence. }
      destruct (refresh_one_at_record net mid html Hnet G players
                  (step1_flag html r) st i r) as [Hrow Hcache];
        try assumption.
      { exact (pk_unique_identity _ _ Hid Hu). }
      { exact (pairings_unique_identity G _ _ Hid Hpairs). }
      split; [split |]; [| exact Hcache | exact Hrow].
      rewrite <- Hid. apply (refresh_one_keeps identity_of); reflexivity.
    - split; [split |]; [| exact H3c | by rewrite H3db].
      by rewrite H3db. }
  destruct H4 as [_ H4].
  (* Phase 2 *)
  destruct (final_results_row (finished_by_id s4) (db s4) i rf H4)
    as (r' & Hr' & _ & Hsame).
  rewrite Hr'. f_equal. apply Hsame.
  unfold s4. rewrite refresh_scores_finished_by_id.
  apply dict_mem_false_keys in H3fin.
  eapply Forall_impl; [exact H3fin |].
  intros [k w] Hk. cbn [fst] in *. unfold has_match_id, rf.
  destruct (record_after_loop_columns html players (step1_flag html r) r)
    as (_ & -> & _).
  rewrite Hm. cbn [is_val]. apply Z.eqb_neq. congruence.
Qed.

(** * The orientation and the write gate on the run *)

(** ** Sample stores *)

Lemma ids_unique_singleton r : ids_unique [r].
Proof.
  intros i j a b m Hi Hj _ _.
  destruct i as [|i]; [|destruct i; discriminate].
  destruct j as [|j]; [reflexivity | destruct j; discriminate].
Qed.

Lemma pairings_unique_singleton G r : pairings_unique G [r].
Proof.
  intros i j a b Hi Hj _ _ _ _.
  destruct i as [|i]; [|destruct i; discriminate].
  destruct j as [|j]; [reflexivity | destruct j; discriminate].
Qed.

Lemma pk_unique_singleton r : pk_unique [r].
Proof. apply NoDup_singleton. Qed.

Lemma open_export_no_result_line :
  Forall (fun l => is_result_line l = false) Sample.open_export.
Proof. repeat constructor. Qed.

(** ** Score mapping under a switched orientation *)

(** C3 as stated fails: a record whose stored flag is true, with Alice on
    side A, is written 8 : 5 by a run that sees Alice : 8 on the left and
    Bob : 5 on the right; stored as the claim says it would read 5 : 8,
    which is what [map_scores] returns for the stored flag. *)
Lemma switched_record_stored_unswapped :
  switched_flag RecordSample.flagged_row = true
  /\ extract_latest_score (Sample.score_page "Alice : 8" "Bob : 5")
       ["Alice"; "Bob"] = Some (Observation "Alice" "Bob" 8 5)
  /\ db (sync_run RecordSample.record_order_server 1 false
           [RecordSample.flagged_row])
     = [MatchRow 20 1 (Some 100) "Alice" "Bob" (Some 5) (Some 8) (Some 5)
          true false]
  /\ map_scores "Alice" "Bob" "Alice" "Bob" 8 5
       (switched_flag RecordSample.flagged_row) = Some (5, 8).
Proof. repeat split; vm_compute; reflexivity. Qed.

(** C3 (amended). The flag that counts for an open record is the one the
    score loop holds for it in the run: the stored flag when Step 1 read
    no score row for the match, and otherwise the flag Step 1 resolved
    from the observed names.  With that flag true, a run stores an
    observation with left score [l] and right score [r] as
    [left_score] (side A) [= r] and [right_score] (side B) [= l]; with it
    false and the observed names equal to the record's names in record
    order, it stores the observation directly.  The run is one on a store
    with unique keys, remote ids and pairings, in which the server
    answers the requests for the record's match page with one usable
    page and the export of the match shows no result line. *)
Theorem observation_stored_by_run_flag net G needs_refresh store i r mid
    pg obs :
  pk_unique store -> ids_unique store -> pairings_unique G store ->
  store !! i = Some r -> group_id r = G -> match_id r = Some mid ->
  has_eleven r = false ->
  (forall n, list_html_of (list_page net n mid) = Some pg) ->
  PyStr.truthy (page_text pg) = true ->
  no_result_line net mid ->
  extract_latest_score pg (players_in_matches G store) = Some obs ->
  let flag :=
    match extract_latest_score pg [player_name r; opponent_name r] with
    | Some seen => resolve_switched (player_name r) (opponent_name r) seen
    | None => switched_flag r
    end in
  (flag = true ->
   db (sync_run net G needs_refresh store) !! i
   = Some (with_scores (obs_right_score obs) (obs_left_score obs) r))
  /\ (flag = false ->
      same_name (left_name obs) (player_name r) = true ->
      same_name (right_name obs) (opponent_name r) = true ->
      db (sync_run net G needs_refresh store) !! i
      = Some (with_scores (obs_left_score obs) (obs_right_score obs) r)).
Proof.
  intros Hu Hids Hpairs Hi Hg Hm H11 Hnet Ht Hopen Hobs flag.
  pose proof (run_stores_record net G needs_refresh store i r mid (Some pg)
                Hu Hids Hpairs Hi Hg Hm H11 Hnet Hopen) as Hrun.
  assert (Hflag : step1_flag (Some pg) r = flag).
  { unfold step1_flag. cbn [html_truthy]. by rewrite Ht. }
  unfold record_after_loop in Hrun. cbn [html_truthy] in Hrun.
  rewrite Ht, Hobs, Hflag in Hrun.
  split.
  - intros E. rewrite Hrun, E. reflexivity.
  - intros E Hl Hr. rewrite Hrun, E. unfold map_scores.
    unfold same_name in Hl, Hr. by rewrite Hl, Hr.
Qed.

Lemma observation_stored_by_run_flag_witness :
  switched_flag RecordSample.flagged_row = true
  /\ left_score RecordSample.flagged_row = Some 4
  /\ right_score RecordSample.flagged_row = Some 7
  /\ extract_latest_score (Sample.score_page "Bob : 9" "Alice : 6")
       ["Alice"; "Bob"] = Some (Observation "Bob" "Alice" 9 6)
  /\ db (sync_run RecordSample.bob_left_later_server 1 true
           [RecordSample.flagged_row]) !! 0%nat
     = Some (MatchRow 20 1 (Some 100) "Alice" "Bob" (Some 5) (Some 6)
               (Some 9) true false).
Proof.
  do 4 (split; [vm_compute; reflexivity |]).
  assert (Hopen : no_result_line RecordSample.bob_left_later_server 5)
    by (intros n; exact open_export_no_result_line).
  exact (proj1 (observation_stored_by_run_flag
                  RecordSample.bob_left_later_server 1 true
                  [RecordSample.flagged_row] 0 RecordSample.flagged_row 5
                  (Sample.score_page "Bob : 9" "Alice : 6")
                  (Observation "Bob" "Alice" 9 6)
                  (pk_unique_singleton _) (ids_unique_singleton _)
                  (pairings_unique_singleton 1 _)
                  eq_refl eq_refl eq_refl eq_refl
                  (fun n => eq_refl) eq_refl Hopen eq_refl)
           eq_refl).
Defined.

(** ** Orientation from run to run *)





(** ** The write gate of the score loop *)

(** An iteration that issues the [UPDATE] has found a usable page, a
    score row, a mapping and a record without an 11. *)
Lemma refresh_one_logged_issued net G players mid p o sw s :
  fst (refresh_one_logged net G players (mid, (p, o, sw)) s) = true ->
  exists r pg obs ps os,
    record_of_pairing G p o (db s) = Some r
    /\ has_eleven r = false
    /\ PyStr.truthy (page_text pg) = true
    /\ extract_latest_score pg players = Some obs
    /\ map_scores p o (left_name obs) (right_name obs) (obs_left_score obs)
         (obs_right_score obs) sw = Some (ps, os).
Proof.
  unfold refresh_one_logged.
  destruct (match Sql.fetchone _ with Some r => has_eleven r | None => false end);
    [discriminate |].
  assert (Hcall :
            forall (s1 : state) pg,
              db s1 = db s -> PyStr.truthy (page_text pg) = true ->
              fst match extract_latest_score pg players with
                  | None => (false, s1)
                  | Some obs =>
                      match map_scores p o (left_name obs) (right_name obs)
                              (obs_left_score obs) (obs_right_score obs) sw
                      with
                      | None => (false, s1)
                      | Some (ps, os) =>
                          let '(issued, store') :=
                            update_score_in_db G p o ps os sw (db s1) in
                          (issued, set_db store' s1)
                      end
                  end = true ->
              exists r pg0 obs ps os,
                record_of_pairing G p o (db s) = Some r
                /\ has_eleven r = false
                /\ PyStr.truthy (page_text pg0) = true
                /\ extract_latest_score pg0 players = Some obs
                /\ map_scores p o (left_name obs) (right_name obs)
                     (obs_left_score obs) (obs_right_score obs) sw
                   = Some (ps, os)).
  { intros s1 pg Hdb Ht.
    destruct (extract_latest_score pg players) as [obs|] eqn:Hobs;
      [|discriminate].
    destruct (map_scores _ _ _ _ _ _ _) as [[ps os]|] eqn:Hmap;
      [|discriminate].
    unfold update_score_in_db. rewrite Hdb.
    destruct (record_of_pairing G p o (db s)) as [r|] eqn:Hrec;
      [|discriminate].
    destruct (is_val (left_score r) 11 || is_val (right_score r) 11) eqn:H11;
      [discriminate |].
    intros _. exists r, pg, obs, ps, os. auto. }
  destruct (negb (html_truthy (cache_get mid s))); cbn [fetch_list_html].
  - destruct (list_html_of _) as [pg|]; cbn [html_truthy negb];
      [|discriminate].
    destruct (PyStr.truthy (page_text pg)) eqn:Ht; cbn [negb];
      [|discriminate].
    by apply Hcall.
  - destruct (cache_get mid s) as [pg|]; cbn [html_truthy negb];
      [|discriminate].
    destruct (PyStr.truthy (page_text pg)) eqn:Ht; cbn [negb];
      [|discriminate].
    by apply Hcall.
Qed.

(** An iteration for an open record with a usable page in the cache, a
    score row and a mapping issues the [UPDATE]. *)
Lemma refresh_one_logged_at net G players mid p o sw s r pg obs ps os :
  record_of_pairing G p o (db s) = Some r ->
  match_id r = Some mid -> has_eleven r = false ->
  cache_get mid s = Some pg -> PyStr.truthy (page_text pg) = true ->
  extract_latest_score pg players = Some obs ->
  map_scores p o (left_name obs) (right_name obs) (obs_left_score obs)
    (obs_right_score obs) sw = Some (ps, os) ->
  fst (refresh_one_logged net G players (mid, (p, o, sw)) s) = true.
Proof.
  intros Hrec Hm H11 Hc Ht He Hmap. unfold refresh_one_logged.
  assert (Hrow : Sql.fetchone
                   (Sql.select (fun r0 => has_match_id mid r0
                                          && is_pairing p o r0
                                          && in_group G r0) (db s))
                 = Some r).
  { unfold record_of_pairing in Hrec.
    rewrite fetchone_select_find in *.
    eapply find_narrower; [exact Hrec | |].
    - apply List.find_some in Hrec as [_ Hr].
      unfold has_match_id, in_group. rewrite Hm. simpl. rewrite Z.eqb_refl.
      simpl. exact Hr.
    - intros x Hx. unfold in_group in Hx.
      apply andb_prop in Hx as [Hx Hg]. apply andb_prop in Hx as [_ Hx].
      by rewrite Hx, Hg. }
  rewrite Hrow, H11, Hc. cbn [html_truthy]. rewrite Ht. cbn [negb].
  cbn [html_truthy]. rewrite Ht. cbn [negb]. rewrite He, Hmap.
  unfold update_score_in_db. rewrite Hrec.
  unfold has_eleven in H11. by rewrite H11.
Qed.

(** C6 as stated fails: with 7 : 4 stored and 7 : 4 observed the mapped
    scores do not differ from the stored ones, and the iteration of the
    score loop still reaches [update_score_in_db], which issues its
    [UPDATE] and returns [True]. *)
Lemma write_issued_for_equal_scores :
  left_score Sample.plain_row = Some 7
  /\ right_score Sample.plain_row = Some 4
  /\ map_scores "Alice" "Bob" "Alice" "Bob" 7 4 false = Some (7, 4)
  /\ update_score_in_db 1 "Alice" "Bob" 7 4 false [Sample.plain_row]
     = (true, [Sample.plain_row])
  /\ fst (refresh_one_logged Sample.answering_server 1 ["Alice"; "Bob"]
            (1, ("Alice", "Bob", false))
            (RecordSample.cached Sample.plain_row
               (Sample.score_page "Alice : 7" "Bob : 4"))) = true.
Proof. repeat split; vm_compute; reflexivity. Qed.

(** C6 (amended). In the score loop a score write for a record happens
    only if neither stored score of the record is 11, and only in an
    iteration that has a usable page, a score row and a mapping; it
    happens also when the mapped scores equal the stored ones.  A record
    that shows an 11 is left completely unchanged by the iteration and by
    the whole loop, and when the mapped scores equal the stored ones the
    write stores the same values: the store is unchanged. *)
Theorem score_write_gate net G players mid player opponent switched s :
  snd (refresh_one_logged net G players
         (mid, (player, opponent, switched)) s)
  = refresh_one net G players (mid, (player, opponent, switched)) s
  /\ (fst (refresh_one_logged net G players
          (mid, (player, opponent, switched)) s) = true ->
   exists r pg obs player_score opponent_score,
     record_of_pairing G player opponent (db s) = Some r
     /\ has_eleven r = false
     /\ PyStr.truthy (page_text pg) = true
     /\ extract_latest_score pg players = Some obs
     /\ map_scores player opponent (left_name obs) (right_name obs)
          (obs_left_score obs) (obs_right_score obs) switched
        = Some (player_score, opponent_score))
  /\ (forall j x,
         pk_unique (db s) -> db s !! j = Some x -> has_eleven x = true ->
         db (refresh_one net G players
               (mid, (player, opponent, switched)) s) !! j = Some x
         /\ db (refresh_scores net G s) !! j = Some x)
  /\ (forall r pg obs player_score opponent_score,
         record_of_pairing G player opponent (db s) = Some r ->
         match_id r = Some mid -> has_eleven r = false ->
         cache_get mid s = Some pg -> PyStr.truthy (page_text pg) = true ->
         extract_latest_score pg players = Some obs ->
         map_scores player opponent (left_name obs) (right_name obs)
           (obs_left_score obs) (obs_right_score obs) switched
         = Some (player_score, opponent_score) ->
         fst (refresh_one_logged net G players
                (mid, (player, opponent, switched)) s) = true
         /\ (pk_unique (db s) ->
             left_score r = Some player_score ->
             right_score r = Some opponent_score ->
             db (refresh_one net G players
                   (mid, (player, opponent, switched)) s) = db s)).
Proof.
  split; [apply refresh_one_logged_state |].
  split; [apply refresh_one_logged_issued |]. split.
  - intros j x Hu Hj H11. split.
    + by apply refresh_one_keeps_eleven.
    + by apply refresh_scores_keeps_eleven.
  - intros r pg obs ps os Hrec Hm H11 Hc Ht He Hmap. split.
    + by eapply refresh_one_logged_at.
    + intros Hu Hl Hr.
      rewrite (refresh_one_stores net G players mid player opponent switched
                 s pg obs r Hrec Hm H11 Hc Ht He).
      unfold store_observation. rewrite Hmap.
      destruct (record_of_pairing_in _ _ _ _ _ Hrec) as [i Hi].
      rewrite (update_score_written _ _ _ _ _ _ _ i r Hu Hi Hrec H11).
      cbn [snd]. apply list_insert_id. rewrite Hi. f_equal.
      destruct r; simpl in *; subst; reflexivity.
Qed.

Lemma score_write_gate_witness :
  (has_eleven Sample.eleven_row = true
   /\ extract_latest_score (Sample.score_page "Alice : 7" "Bob : 4")
        ["Alice"; "Bob"] = Some (Observation "Alice" "Bob" 7 4)
   /\ db (refresh_one Sample.answering_server 1 ["Alice"; "Bob"]
            (1, ("Alice", "Bob", false))
            (RecordSample.cached Sample.eleven_row
               (Sample.score_page "Alice : 7" "Bob : 4"))) !! 0%nat
      = Some Sample.eleven_row)
  /\ (left_score Sample.plain_row = Some 7
      /\ right_score Sample.plain_row = Some 4
      /\ fst (refresh_one_logged Sample.answering_server 1 ["Alice"; "Bob"]
                (1, ("Alice", "Bob", false))
                (RecordSample.cached Sample.plain_row
                   (Sample.score_page "Alice : 7" "Bob : 4"))) = true
      /\ db (refresh_one Sample.answering_server 1 ["Alice"; "Bob"]
               (1, ("Alice", "Bob", false))
               (RecordSample.cached Sample.plain_row
                  (Sample.score_page "Alice : 7" "Bob : 4")))
         = [Sample.plain_row]).
Proof.
  split.
  - do 2 (split; [vm_compute; reflexivity |]).
    exact (proj1 (proj1 (proj2 (proj2 (score_write_gate
                            Sample.answering_server 1
                            ["Alice"; "Bob"] 1 "Alice" "Bob" false
                            (RecordSample.cached Sample.eleven_row
                               (Sample.score_page "Alice : 7" "Bob : 4")))))
                    0%nat Sample.eleven_row
                    (pk_unique_singleton _) eq_refl eq_refl)).
  - do 2 (split; [reflexivity |]).
    pose proof (proj2 (proj2 (proj2 (score_write_gate
                          Sample.answering_server 1
                          ["Alice"; "Bob"] 1 "Alice" "Bob" false
                          (RecordSample.cached Sample.plain_row
                             (Sample.score_page "Alice : 7" "Bob : 4")))))
                  Sample.plain_row
                  (Sample.score_page "Alice : 7" "Bob : 4")
                  (Observation "Alice" "Bob" 7 4) 7 4
                  eq_refl eq_refl eq_refl eq_refl eq_refl eq_refl eq_refl)
      as [Hissued Hsame].
    split; [exact Hissued |].
    exact (Hsame (pk_unique_singleton _) eq_refl eq_refl).
Defined.

(** ** The switched flag in [map_scores] *)

(** C10 as stated fails in its consequence for the record: Carol against
    Dave carries a flag that is wrongly true, [map_scores] with that flag
    returns the swapped pair, and the run stores 3 : 6 as the page shows
    it, because Step 1 resolves the flag anew from the names. *)
Lemma wrongly_flagged_record_stored_by_names :
  switched_flag RecordSample.wrongly_flagged_row = true
  /\ map_scores "Carol" "Dave" "Carol" "Dave" 3 6
       (switched_flag RecordSample.wrongly_flagged_row) = Some (6, 3)
  /\ db (sync_run RecordSample.carol_left_server 1 false
           [RecordSample.wrongly_flagged_row])
     = [MatchRow 30 1 (Some 300) "Carol" "Dave" (Some 9) (Some 3) (Some 6)
          true false].
Proof. repeat split; vm_compute; reflexivity. Qed.

(** C10 (amended). In [map_scores] the switched flag comes before every
    name comparison: with [switched_flag = True] the result is
    (right score, left score) whatever the names are, also when they are
    the record's names in normal order, and the name-based resolution
    (exact match, substring fallback, no result) is reached only with
    [switched_flag = False].  The flag of the call is the one the score
    loop holds: an iteration that holds it true for an open record
    replaces the record's scores by the swapped pair, and a record whose
    stored flag is true is stored swapped by a run whose Step 1 reads no
    score row for the match, also when the flag is wrong.  The run is one
    on a store with unique keys, remote ids and pairings, in which the
    server answers the requests for the record's match page with one
    usable page and the export of the match shows no result line. *)
Theorem map_scores_switched_precedence :
  (forall player opponent ln rn l r flag,
      map_scores player opponent ln rn l r flag
      = if flag then Some (r, l)
        else name_based_resolution player opponent ln rn l r)
  /\ (forall net G players mid player opponent s i r pg obs,
         pk_unique (db s) -> db s !! i = Some r ->
         record_of_pairing G player opponent (db s) = Some r ->
         match_id r = Some mid -> has_eleven r = false ->
         cache_get mid s = Some pg -> PyStr.truthy (page_text pg) = true ->
         extract_latest_score pg players = Some obs ->
         db (refresh_one net G players (mid, (player, opponent, true)) s)
         = <[i := with_scores (obs_right_score obs) (obs_left_score obs) r]>
             (db s))
  /\ (forall net G needs_refresh store i r mid pg obs,
         pk_unique store -> ids_unique store -> pairings_unique G store ->
         store !! i = Some r -> group_id r = G -> match_id r = Some mid ->
         has_eleven r = false ->
         (forall n, list_html_of (list_page net n mid) = Some pg) ->
         PyStr.truthy (page_text pg) = true ->
         no_result_line net mid ->
         extract_latest_score pg (players_in_matches G store) = Some obs ->
         switched_flag r = true ->
         extract_latest_score pg [player_name r; opponent_name r] = None ->
         db (sync_run net G needs_refresh store) !! i
         = Some (with_scores (obs_right_score obs) (obs_left_score obs) r)).
Proof.
  split; [|split].
  - intros player opponent ln rn l r [|]; [reflexivity |].
    apply map_scores_by_names.
  - intros net G players mid player opponent s i r pg obs
      Hu Hi Hrec Hm H11 Hc Ht He.
    rewrite (refresh_one_stores net G players mid player opponent true
               s pg obs r Hrec Hm H11 Hc Ht He).
    unfold store_observation. cbn [map_scores].
    by rewrite (update_score_written _ _ _ _ _ _ _ i r Hu Hi Hrec H11).
  - intros net G needs_refresh store i r mid pg obs
      Hu Hids Hpairs Hi Hg Hm H11 Hnet Ht Hopen Hobs Hflag Hnone.
    rewrite (run_stores_record net G needs_refresh store i r mid (Some pg)
               Hu Hids Hpairs Hi Hg Hm H11 Hnet Hopen).
    unfold record_after_loop, step1_flag. cbn [html_truthy].
    by rewrite Ht, Hobs, Hnone, Hflag.
Qed.

Lemma short_names_store_unique :
  pk_unique [RecordSample.flagged_row; RecordSample.al_row]
  /\ ids_unique [RecordSample.flagged_row; RecordSample.al_row]
  /\ pairings_unique 1 [RecordSample.flagged_row; RecordSample.al_row].
Proof.
  split; [|split].
  - apply (bool_decide_unpack _). vm_compute. exact I.
  - intros i j a b m Hi Hj Ha Hb.
    destruct i as [|[|i]]; destruct j as [|[|j]]; simpl in Hi, Hj;
      try discriminate; try reflexivity;
      injection Hi as <-; injection Hj as <-; discriminate.
  - intros i j a b Hi Hj _ _ Hp Ho.
    destruct i as [|[|i]]; destruct j as [|[|j]]; simpl in Hi, Hj;
      try discriminate; try reflexivity;
      injection Hi as <-; injection Hj as <-; discriminate.
Qed.

Lemma map_scores_switched_precedence_witness :
  switched_flag RecordSample.flagged_row = true
  /\ extract_latest_score RecordSample.short_names_page ["Alice"; "Bob"]
     = None
  /\ extract_latest_score RecordSample.short_names_page
       ["Alice"; "Bob"; "Al"; "Eve"] = Some (Observation "Al" "Bo" 9 6)
  /\ db (sync_run RecordSample.short_names_server 1 true
           [RecordSample.flagged_row; RecordSample.al_row]) !! 0%nat
     = Some (MatchRow 20 1 (Some 100) "Alice" "Bob" (Some 5) (Some 6)
               (Some 9) true false).
Proof.
  do 3 (split; [vm_compute; reflexivity |]).
  assert (Hopen : no_result_line RecordSample.short_names_server 5)
    by (intros n; exact open_export_no_result_line).
  exact (proj2 (proj2 map_scores_switched_precedence)
           RecordSample.short_names_server 1 true
           [RecordSample.flagged_row; RecordSample.al_row] 0%nat
           RecordSample.flagged_row 5 RecordSample.short_names_page
           (Observation "Al" "Bo" 9 6)
           (proj1 short_names_store_unique)
           (proj1 (proj2 short_names_store_unique))
           (proj2 (proj2 short_names_store_unique)) eq_refl eq_refl eq_refl eq_refl
           (fun n => eq_refl) eq_refl Hopen eq_refl eq_refl eq_refl).
Defined.
